(** * Topology builder of the generic heat pump model

    A shallow embedding of [models/heatpump.py], class [Heatpump]: the
    component factory ([generate_components]), the wiring algorithm
    ([generate_topology], [set_conn]) and the graph mutator
    ([delete_component]), followed by the properties of the
    specification that concern them.

    Python values are modelled as follows: an [int] is a [Z]; a [str] is a
    [string]; the two configuration dictionaries and the two tables
    ([self.components], [self.connections]) are finite maps ([gmap]); a
    raised exception is a constructor of [result] other than [Ok]. The
    TESPy classes ([Source], [Compressor], [Connection], [Network], ...)
    are not part of the repository: a component object is the pair of its
    class and the label it was constructed with, a connection object is the
    record of the five constructor arguments, and the network [self.nw] is
    the log of the calls made on it. Of what these classes check on their
    own, the checks that [set_conn] runs into are modelled: the constructor
    of [Connection] refuses to connect a component to itself and refuses a
    port name that the component class does not have, and
    [Network.add_conns] refuses a label that the network already holds.
    A dictionary is walked in the order of [map_to_list]; the source walks
    it in insertion order. The tables that the code computes do not depend
    on that order (the keys are sorted, or every entry is treated alike);
    the order of the lines that [delete_component] prints and of its
    [del_conns] calls does, and is stated up to permutation only. *)

From Stdlib Require Import ZArith String Ascii DecimalString DecimalZ.
From stdpp Require Import base list strings gmap sorting.

Local Open Scope Z_scope.

(** ** Python primitives used by the source *)

Module Py.

(** [f'{z}'] for an [int]: decimal digits, with a leading minus sign for a
    negative number. *)
Definition str (z : Z) : string := NilZero.string_of_int (Z.to_int z).

(** [needle in hay] for two strings: [needle] occurs at some position. *)
Fixpoint contains (needle hay : string) : bool :=
  String.prefix needle hay ||
  match hay with
  | EmptyString => false
  | String _ hay' => contains needle hay'
  end.

(** [s.split(sep)] for a one-character separator. *)
Fixpoint split (sep : ascii) (s : string) : list string :=
  match s with
  | EmptyString => [EmptyString]
  | String a s' =>
      if Ascii.eqb a sep then EmptyString :: split sep s'
      else match split sep s' with
           | w :: ws => String a w :: ws
           | [] => [String a EmptyString]
           end
  end.

(** [l[-1]] on a list of strings (never empty where the source uses it). *)
Definition last_item (l : list string) : string := default EmptyString (last l).

(** The order of [str] values: lexicographic on code points. *)
Definition str_ge (a b : string) : Prop := Is_true (String.leb b a).

#[global] Instance str_ge_dec a b : Decision (str_ge a b).
Proof. unfold str_ge. apply _. Defined.

(** [l.sort(reverse=True)] on a list of strings. *)
Definition sort_reverse (l : list string) : list string := merge_sort str_ge l.

(** [range(1, n + 1)]. *)
Definition range1 (n : Z) : list Z := seqZ 1 n.

(** Truth value of the loop variable [last_int_heatex] of the cold-side
    chain, which holds [''] ([None]) or an [int]: [not v]. *)
Definition not_ (v : option Z) : bool :=
  match v with
  | None => true
  | Some z => bool_decide (z = 0)
  end.

(** [f'{v}'] for that variable. *)
Definition fmt (v : option Z) : string :=
  match v with
  | None => EmptyString
  | Some z => str z
  end.

End Py.

(** ** Data model *)

(** The TESPy component classes the factory instantiates. *)
Inductive component_class :=
  | Source | Sink | Pump | HeatExchanger | Condenser
  | HeatExchangerSimple | Compressor | Valve | CycleCloser.

(** A component object: its class and the label passed to its constructor
    (read back as [component.label]). *)
Record Component := mkComponent {
  class_of : component_class;
  label : string
}.

(** [Connection(source, outlet, target, inlet, label=label)]. *)
Record Connection := mkConnection {
  source : Component;
  source_id : string;
  target : Component;
  target_id : string;
  conn_label : string
}.

#[global] Instance component_class_eq_dec : EqDecision component_class.
Proof. solve_decision. Defined.
#[global] Instance Component_eq_dec : EqDecision Component.
Proof. solve_decision. Defined.
#[global] Instance Connection_eq_dec : EqDecision Connection.
Proof. solve_decision. Defined.

(** A value of the [int_heatex] dictionary: a single integer or a list. *)
Inductive heatex_value :=
  | VInt (target_cycle : Z)
  | VList (target_cycles : list Z).

(** A value of the [intercooler] dictionary: [{'amount': _, 'type': _}]. *)
Record intercooler_value := mkIntercooler {
  amount : Z;
  type : string
}.

(** Calls made on the network object [self.nw]. *)
Inductive nw_call :=
  | add_conns (c : Connection)
  | del_conns (c : Connection).

(** The attributes of a [Heatpump] object that the topology code touches.
    ([fluids] and the unit keywords are only handed to [Network].) *)
Record Heatpump := mkHeatpump {
  nr_cycles : Z;
  int_heatex : gmap Z heatex_value;
  intercooler : gmap Z intercooler_value;
  components : gmap string Component;
  connections : gmap string Connection;
  nw : list nw_call
}.

(** What a [ValueError] of the two TESPy calls in [set_conn] is about: a
    port name that the component does not have, or a label that the
    network already holds. *)
Inductive value_error :=
  | invalid_outlet (outlet_id : string)
  | invalid_inlet (inlet_id : string)
  | duplicate_label (label_ : string).

(** Outcome of a method that can raise: a [KeyError] of a dictionary, a
    [ValueError] of TESPy, or the [TESPyConnectionError] for the component
    with the given label connected to itself. *)
Inductive result (A : Type) :=
  | Ok (a : A)
  | KeyError (key : string)
  | ValueError (e : value_error)
  | TESPyConnectionError (label_ : string).
Arguments Ok {A} a.
Arguments KeyError {A} key.
Arguments ValueError {A} e.
Arguments TESPyConnectionError {A} label_.

Definition bind {A B} (r : result A) (k : A → result B) : result B :=
  match r with
  | Ok a => k a
  | KeyError key => KeyError key
  | ValueError e => ValueError e
  | TESPyConnectionError label_ => TESPyConnectionError label_
  end.

(** ** The TESPy calls of [set_conn] *)

(** [component.inlets()] and [component.outlets()] of the nine classes. *)
Definition inlets (cls : component_class) : list string :=
  match cls with
  | Source => []
  | HeatExchanger | Condenser => ["in1"; "in2"]
  | Sink | Pump | HeatExchangerSimple | Compressor | Valve | CycleCloser =>
      ["in1"]
  end.

Definition outlets (cls : component_class) : list string :=
  match cls with
  | Sink => []
  | HeatExchanger | Condenser => ["out1"; "out2"]
  | Source | Pump | HeatExchangerSimple | Compressor | Valve | CycleCloser =>
      ["out1"]
  end.

(** [Connection(comp1, outlet_id, comp2, inlet_id, label=label)]: the
    checks of the constructor, in its order (the two arguments are
    components here, so its type check passes). *)
Definition Connection_init (comp1 : Component) (outlet_id : string)
    (comp2 : Component) (inlet_id : string) (label_ : string)
    : result Connection :=
  if decide (comp1 = comp2) then TESPyConnectionError (label comp1)
  else if decide (outlet_id ∈ outlets (class_of comp1)) then
    if decide (inlet_id ∈ inlets (class_of comp2)) then
      Ok (mkConnection comp1 outlet_id comp2 inlet_id label_)
    else ValueError (invalid_inlet inlet_id)
  else ValueError (invalid_outlet outlet_id).

(** The labels of the connections that the network holds after the calls
    of a log: [add_conns] enters the label, [del_conns] drops it. *)
Definition network_labels (log : list nw_call) : gset string :=
  foldl (λ labels call,
           match call with
           | add_conns c => labels ∪ {[ conn_label c ]}
           | del_conns c => labels ∖ {[ conn_label c ]}
           end) ∅ log.

(** ** Component factory: [generate_components] *)

(** Every statement [self.components[key] = value] of the source is an
    entry [(key, value)]; the entries are listed in the order in which the
    source executes the assignments. *)
Section factory.
Variable nr_cycles_ : Z.
Variable int_heatex_ : gmap Z heatex_value.
Variable intercooler_ : gmap Z intercooler_value.

(** Lines 106-135: the components every heat pump has. *)
Definition fixed_components : list (string * Component) :=
  [ ("Heat Source Feed Flow", mkComponent Source "Heat Source Feed Flow");
    ("Heat Source Back Flow", mkComponent Sink "Heat Source Back Flow");
    ("Heat Source Recirculation Pump",
      mkComponent Pump "Heat Source Recirculation Pump");
    ("Evaporator 1", mkComponent HeatExchanger "Evaporator 1");
    ("Consumer Cycle Closer", mkComponent CycleCloser "Consumer Cycle Closer");
    ("Consumer Recirculation Pump",
      mkComponent Pump "Consumer Recirculation Pump");
    ("Consumer", mkComponent HeatExchangerSimple "Consumer") ].

(** Lines 162-176: one pass of [for i in range(1, nr_intercooler+2)]. *)
Definition intercooler_stage (cycle : Z) (ic : intercooler_value) (i : Z)
    : list (string * Component) :=
  (if bool_decide (i < amount ic + 1) then
     if String.eqb (type ic) "HeatExchanger" then
       [ ("Intercooler " +:+ Py.str cycle +:+ "-" +:+ Py.str i,
          mkComponent HeatExchanger
            ("Intercooler " +:+ Py.str cycle +:+ "-" +:+ Py.str i)) ]
     else if String.eqb (type ic) "HeatExchangerSimple" then
       [ ("Intercooler " +:+ Py.str cycle +:+ "-" +:+ Py.str i,
          mkComponent HeatExchangerSimple
            ("Intercooler " +:+ Py.str cycle +:+ "-" +:+ Py.str i)) ]
     else []
   else [])
  ++ [ ("Compressor " +:+ Py.str cycle +:+ "-" +:+ Py.str i,
        mkComponent Compressor
          ("Compressor " +:+ Py.str cycle +:+ "_" +:+ Py.str i)) ].

(** Lines 158-181: compressors and intercoolers of one cycle. *)
Definition compression_components (cycle : Z) : list (string * Component) :=
  match intercooler_ !! cycle with
  | Some ic =>
      Py.range1 (amount ic + 1) ≫= intercooler_stage cycle ic
  | None =>
      [ ("Compressor " +:+ Py.str cycle,
         mkComponent Compressor ("Compressor " +:+ Py.str cycle)) ]
  end.

Definition int_heatex_component (cycle target_cycle : Z)
    : string * Component :=
  ("Internal Heat Exchanger " +:+ Py.str cycle +:+ "_" +:+ Py.str target_cycle,
   mkComponent HeatExchanger
     ("Internal Heat Exchanger " +:+ Py.str cycle +:+ "_"
        +:+ Py.str target_cycle)).

(** Lines 183-195: internal heat exchangers with the hot side in [cycle]. *)
Definition int_heatex_components (cycle : Z) : list (string * Component) :=
  match int_heatex_ !! cycle with
  | Some (VList target_cycles) =>
      map (int_heatex_component cycle) target_cycles
  | Some (VInt target_cycle) => [ int_heatex_component cycle target_cycle ]
  | None => []
  end.

(** Lines 138-195: one pass of [for cycle in range(1, self.nr_cycles+1)]. *)
Definition cycle_components (cycle : Z) : list (string * Component) :=
  [ ("Cycle Closer " +:+ Py.str cycle,
     mkComponent CycleCloser ("Cycle Closer " +:+ Py.str cycle));
    ("Valve " +:+ Py.str cycle,
     mkComponent Valve ("Valve " +:+ Py.str cycle)) ]
  ++ (if bool_decide (cycle ≠ 1) then
        [ ("Heat Exchanger " +:+ Py.str (cycle - 1) +:+ "_" +:+ Py.str cycle,
           mkComponent HeatExchanger
             ("Heat Exchanger " +:+ Py.str (cycle - 1) +:+ "_"
                +:+ Py.str cycle)) ]
      else [])
  ++ (if bool_decide (cycle = nr_cycles_) then
        [ ("Condenser " +:+ Py.str cycle,
           mkComponent Condenser ("Condenser " +:+ Py.str cycle)) ]
      else [])
  ++ compression_components cycle
  ++ int_heatex_components cycle.

Definition component_entries : list (string * Component) :=
  fixed_components ++ (Py.range1 nr_cycles_ ≫= cycle_components).
End factory.

(** [d[key] = value], for each entry in turn. *)
Definition assign_all {V} (d : gmap string V) (entries : list (string * V))
    : gmap string V :=
  foldl (λ d kv, <[kv.1 := kv.2]> d) d entries.

Definition generate_components (self : Heatpump) : Heatpump :=
  mkHeatpump (nr_cycles self) (int_heatex self) (intercooler self)
    (assign_all (components self)
       (component_entries (nr_cycles self) (int_heatex self) (intercooler self)))
    (connections self) (nw self).

(** ** Wiring: [set_conn] and [generate_topology] *)

(** Lines 456-460, the first statement of [set_conn]:
    [self.connections[label] = Connection(...)]. The two component lookups
    and the constructor are evaluated before the assignment, so an
    exception of this statement leaves the object as it was. *)
Definition store_connection (label_ comp_out outlet comp_in inlet : string)
    (self : Heatpump) : result Heatpump :=
  match components self !! comp_out with
  | None => KeyError comp_out
  | Some c_out =>
      match components self !! comp_in with
      | None => KeyError comp_in
      | Some c_in =>
          bind (Connection_init c_out outlet c_in inlet label_) (λ c,
            Ok (mkHeatpump (nr_cycles self) (int_heatex self)
                  (intercooler self) (components self)
                  (<[label_ := c]> (connections self))
                  (nw self)))
      end
  end.

(** Line 461, the second statement:
    [self.nw.add_conns(self.connections[label])]. When [add_conns] raises,
    the object stays as the first statement left it, with the new entry in
    the connection table. *)
Definition add_to_network (label_ : string) (self : Heatpump)
    : result Heatpump :=
  match connections self !! label_ with
  | None => KeyError label_
  | Some c =>
      if decide (conn_label c ∈ network_labels (nw self)) then
        ValueError (duplicate_label (conn_label c))
      else
        Ok (mkHeatpump (nr_cycles self) (int_heatex self) (intercooler self)
              (components self) (connections self)
              (nw self ++ [add_conns c]))
  end.

(** Lines 434-461. *)
Definition set_conn (label_ comp_out outlet comp_in inlet : string)
    (self : Heatpump) : result Heatpump :=
  bind (store_connection label_ comp_out outlet comp_in inlet self)
    (add_to_network label_).

(** The five arguments of one [self.set_conn(...)] statement. *)
Record wiring := Wire {
  w_label : string;
  w_comp_out : string;
  w_outlet : string;
  w_comp_in : string;
  w_inlet : string
}.

Definition set_conn_w (w : wiring) (self : Heatpump) : result Heatpump :=
  set_conn (w_label w) (w_comp_out w) (w_outlet w) (w_comp_in w) (w_inlet w) self.

(** Statements executed in sequence; the first exception ends the run. *)
Fixpoint set_conns (ws : list wiring) (self : Heatpump) : result Heatpump :=
  match ws with
  | [] => Ok self
  | w :: ws' => bind (set_conn_w w self) (set_conns ws')
  end.

(** Every [self.set_conn(...)] statement of [generate_topology] is a
    [wiring]; they are listed in execution order. The statements depend on
    the configuration and on the keys of [self.components], which [set_conn]
    never changes. *)
Section topology.
Variable nr_cycles_ : Z.
Variable int_heatex_ : gmap Z heatex_value.
Variable intercooler_ : gmap Z intercooler_value.
Variable components_ : gmap string Component.

(** Lines 199-240. *)
Definition fixed_wirings : list wiring :=
  [ Wire "valve1_to_evaporator1" "Valve 1" "out1" "Evaporator 1" "in2";
    Wire "heatsource_ff_to_heatsource_pump"
      "Heat Source Feed Flow" "out1" "Heat Source Recirculation Pump" "in1";
    Wire "heatsource_pump_to_evaporator1"
      "Heat Source Recirculation Pump" "out1" "Evaporator 1" "in1";
    Wire "evaporator1_to_heatsource_bf"
      "Evaporator 1" "out1" "Heat Source Back Flow" "in1";
    Wire "heatsink_cc_to_heatsink_pump"
      "Consumer Cycle Closer" "out1" "Consumer Recirculation Pump" "in1";
    Wire ("heatsink_pump_to_cond" +:+ Py.str nr_cycles_)
      "Consumer Recirculation Pump" "out1"
      ("Condenser " +:+ Py.str nr_cycles_) "in2";
    Wire ("cond" +:+ Py.str nr_cycles_ +:+ "_to_consumer")
      ("Condenser " +:+ Py.str nr_cycles_) "out2" "Consumer" "in1";
    Wire "consumer_to_heatsink_cc"
      "Consumer" "out1" "Consumer Cycle Closer" "in1" ].

(** Lines 256-264: the source cycles whose internal heat exchanger has
    its cold side in [cycle]. *)
Definition targets (cycle i : Z) : bool :=
  match int_heatex_ !! i with
  | Some (VInt target_cycle) => bool_decide (target_cycle = cycle)
  | Some (VList target_cycles) => bool_decide (cycle ∈ target_cycles)
  | None => false
  end.

Definition cycle_int_heatex (cycle : Z) : list Z :=
  filter (λ i, targets cycle i) (Py.range1 nr_cycles_).

(** Lines 266-294: [for c_int_heatex in cycle_int_heatex], with the loop
    variable [last_int_heatex]; returns its final value too. *)
Fixpoint cold_chain (cycle : Z) (last_int_heatex : option Z)
    (todo : list Z) : list wiring * option Z :=
  match todo with
  | [] => ([], last_int_heatex)
  | c_int_heatex :: todo' =>
      let w :=
        if Py.not_ last_int_heatex then
          if bool_decide (cycle = 1) then
            Wire ("evaporator" +:+ Py.str cycle +:+ "_to_"
                    +:+ "int_heatex" +:+ Py.str c_int_heatex
                    +:+ "_" +:+ Py.str cycle)
              "Evaporator 1" "out2"
              ("Internal Heat Exchanger " +:+ Py.str c_int_heatex
                 +:+ "_" +:+ Py.str cycle) "in2"
          else
            Wire ("heatex" +:+ Py.str (cycle - 1) +:+ "_"
                    +:+ Py.str cycle +:+ "_to_"
                    +:+ "int_heatex" +:+ Py.str c_int_heatex
                    +:+ "_" +:+ Py.str cycle)
              ("Heat Exchanger " +:+ Py.str (cycle - 1) +:+ "_"
                 +:+ Py.str cycle) "out2"
              ("Internal Heat Exchanger " +:+ Py.str c_int_heatex
                 +:+ "_" +:+ Py.str cycle) "in2"
        else
          Wire ("int_heatex" +:+ Py.fmt last_int_heatex +:+ "_"
                  +:+ Py.str cycle +:+ "_to_int_heatex"
                  +:+ Py.str c_int_heatex +:+ "_" +:+ Py.str cycle)
            ("Internal Heat Exchanger " +:+ Py.fmt last_int_heatex
               +:+ "_" +:+ Py.str cycle) "out2"
            ("Internal Heat Exchanger " +:+ Py.str c_int_heatex
               +:+ "_" +:+ Py.str cycle) "in2" in
      let (ws, final) := cold_chain cycle (Some c_int_heatex) todo' in
      (w :: ws, final)
  end.

(** Lines 296-379: the compression stage of one cycle, fed by the
    cold-side chain (or by the evaporator or the heat exchanger below). *)
Definition compression_wirings (cycle : Z) (last_int_heatex : option Z)
    : list wiring :=
  match intercooler_ !! cycle with
  | Some ic =>
      [ if Py.not_ last_int_heatex then
          if bool_decide (cycle = 1) then
            Wire ("evaporator1_to_comp" +:+ Py.str cycle +:+ "-1")
              "Evaporator 1" "out2"
              ("Compressor " +:+ Py.str cycle +:+ "-1") "in1"
          else
            Wire ("heatex" +:+ Py.str (cycle - 1) +:+ "_" +:+ Py.str cycle
                    +:+ "_to_comp" +:+ Py.str cycle)
              ("Heat Exchanger " +:+ Py.str (cycle - 1) +:+ "_"
                 +:+ Py.str cycle) "out2"
              ("Compressor " +:+ Py.str cycle +:+ "-1") "in1"
        else
          Wire ("int_heatex" +:+ Py.fmt last_int_heatex +:+ "_"
                  +:+ Py.str cycle +:+ "_to_comp" +:+ Py.str cycle)
            ("Internal Heat Exchanger " +:+ Py.fmt last_int_heatex
               +:+ "_" +:+ Py.str cycle) "out2"
            ("Compressor " +:+ Py.str cycle +:+ "-1") "in1" ]
      ++ (Py.range1 (amount ic) ≫= λ i,
           [ Wire ("comp" +:+ Py.str cycle +:+ "-" +:+ Py.str i
                     +:+ "_to_intercooler" +:+ Py.str cycle +:+ "-"
                     +:+ Py.str i)
               ("Compressor " +:+ Py.str cycle +:+ "-" +:+ Py.str i) "out1"
               ("Intercooler " +:+ Py.str cycle +:+ "-" +:+ Py.str i) "in1";
             Wire ("intercooler" +:+ Py.str cycle +:+ "-" +:+ Py.str i
                     +:+ "_to_comp" +:+ Py.str cycle +:+ "-"
                     +:+ Py.str (i + 1))
               ("Intercooler " +:+ Py.str cycle +:+ "-" +:+ Py.str i) "out1"
               ("Compressor " +:+ Py.str cycle +:+ "-" +:+ Py.str (i + 1))
               "in1" ])
      ++ [ if bool_decide (cycle = nr_cycles_) then
             Wire ("comp" +:+ Py.str cycle +:+ "-" +:+ Py.str (amount ic + 1)
                     +:+ "_to_cond" +:+ Py.str cycle)
               ("Compressor " +:+ Py.str cycle +:+ "-"
                  +:+ Py.str (amount ic + 1)) "out1"
               ("Condenser " +:+ Py.str cycle) "in1"
           else
             Wire ("comp" +:+ Py.str cycle +:+ "-" +:+ Py.str (amount ic + 1)
                     +:+ "_to_heatex" +:+ Py.str cycle +:+ "_"
                     +:+ Py.str (cycle + 1))
               ("Compressor " +:+ Py.str cycle +:+ "-"
                  +:+ Py.str (amount ic + 1)) "out1"
               ("Heat Exchanger " +:+ Py.str cycle +:+ "_"
                  +:+ Py.str (cycle + 1)) "in1" ]
  | None =>
      [ if Py.not_ last_int_heatex then
          if bool_decide (cycle = 1) then
            Wire ("evaporator1_to_comp" +:+ Py.str cycle)
              "Evaporator 1" "out2"
              ("Compressor " +:+ Py.str cycle) "in1"
          else
            Wire ("heatex" +:+ Py.str (cycle - 1) +:+ "_" +:+ Py.str cycle
                    +:+ "_to_comp" +:+ Py.str cycle)
              ("Heat Exchanger " +:+ Py.str (cycle - 1) +:+ "_"
                 +:+ Py.str cycle) "out2"
              ("Compressor " +:+ Py.str cycle) "in1"
        else
          Wire ("int_heatex" +:+ Py.fmt last_int_heatex +:+ "_"
                  +:+ Py.str cycle +:+ "_to_comp" +:+ Py.str cycle)
            ("Internal Heat Exchanger " +:+ Py.fmt last_int_heatex
               +:+ "_" +:+ Py.str cycle) "out2"
            ("Compressor " +:+ Py.str cycle) "in1";
        if bool_decide (cycle = nr_cycles_) then
          Wire ("comp" +:+ Py.str cycle +:+ "_to_cond" +:+ Py.str cycle)
            ("Compressor " +:+ Py.str cycle) "out1"
            ("Condenser " +:+ Py.str cycle) "in1"
        else
          Wire ("comp" +:+ Py.str cycle +:+ "_to_heatex" +:+ Py.str cycle
                  +:+ "_" +:+ Py.str (cycle + 1))
            ("Compressor " +:+ Py.str cycle) "out1"
            ("Heat Exchanger " +:+ Py.str cycle +:+ "_"
               +:+ Py.str (cycle + 1)) "in1" ]
  end.

(** Lines 381-385: the keys of [self.components] that contain
    [f'Internal Heat Exchanger {cycle}'], sorted in reverse. (The source
    walks the dictionary in insertion order; the sort makes the result
    independent of it.) *)
Definition int_heatexs (cycle : Z) : list string :=
  Py.sort_reverse
    (filter (λ comp : string,
               Py.contains ("Internal Heat Exchanger " +:+ Py.str cycle) comp)
       (map_to_list components_).*1).

(** [int_heatex.split(' ')[-1]]. *)
Definition idx (int_heatex : string) : string :=
  Py.last_item (Py.split " " int_heatex).

(** Lines 386-411: [for int_heatex in int_heatexs], with the loop variable
    [last_int_heatex] (a string here); returns its final value too. *)
Fixpoint hot_chain (cycle : Z) (last_int_heatex : string)
    (todo : list string) : list wiring * string :=
  match todo with
  | [] => ([], last_int_heatex)
  | int_heatex :: todo' =>
      let int_heatex_idx := idx int_heatex in
      let w :=
        if String.eqb last_int_heatex EmptyString then
          if bool_decide (cycle = nr_cycles_) then
            Wire ("cond" +:+ Py.str cycle +:+ "_to_int_heatex"
                    +:+ int_heatex_idx)
              ("Condenser " +:+ Py.str cycle) "out1" int_heatex "in1"
          else
            Wire ("heatex" +:+ Py.str cycle +:+ "_" +:+ Py.str (cycle + 1)
                    +:+ "_to_int_heatex" +:+ int_heatex_idx)
              ("Heat Exchanger " +:+ Py.str cycle +:+ "_"
                 +:+ Py.str (cycle + 1)) "out1" int_heatex "in1"
        else
          let last_int_heatex_idx := idx last_int_heatex in
          Wire ("int_heatex" +:+ last_int_heatex_idx +:+ "_to_int_heatex"
                  +:+ int_heatex_idx)
            last_int_heatex "out1" int_heatex "in1" in
      let (ws, final) := hot_chain cycle int_heatex todo' in
      (w :: ws, final)
  end.

(** Lines 413-432: the return to the cycle closer. *)
Definition closing_wiring (cycle : Z) (last_int_heatex : string) : wiring :=
  if String.eqb last_int_heatex EmptyString then
    if bool_decide (cycle = nr_cycles_) then
      Wire ("cond" +:+ Py.str cycle +:+ "_to_cc" +:+ Py.str cycle)
        ("Condenser " +:+ Py.str cycle) "out1"
        ("Cycle Closer " +:+ Py.str cycle) "in1"
    else
      Wire ("heatex" +:+ Py.str cycle +:+ "_" +:+ Py.str (cycle + 1)
              +:+ "_to_cc" +:+ Py.str cycle)
        ("Heat Exchanger " +:+ Py.str cycle +:+ "_" +:+ Py.str (cycle + 1))
        "out1"
        ("Cycle Closer " +:+ Py.str cycle) "in1"
  else
    let last_int_heatex_idx := idx last_int_heatex in
    Wire ("int_heatex" +:+ last_int_heatex_idx +:+ "_to_cc" +:+ Py.str cycle)
      last_int_heatex "out1"
      ("Cycle Closer " +:+ Py.str cycle) "in1".

(** Lines 243-432: one pass of [for cycle in range(1, self.nr_cycles+1)]. *)
Definition cycle_wirings (cycle : Z) : list wiring :=
  let cold := cold_chain cycle None (cycle_int_heatex cycle) in
  let hot := hot_chain cycle EmptyString (int_heatexs cycle) in
  [ Wire ("cc" +:+ Py.str cycle +:+ "_to_valve" +:+ Py.str cycle)
      ("Cycle Closer " +:+ Py.str cycle) "out1"
      ("Valve " +:+ Py.str cycle) "in1" ]
  ++ (if bool_decide (cycle ≠ 1) then
        [ Wire ("valve" +:+ Py.str cycle +:+ "_to_heat_ex"
                  +:+ Py.str (cycle - 1) +:+ "_" +:+ Py.str cycle)
            ("Valve " +:+ Py.str cycle) "out1"
            ("Heat Exchanger " +:+ Py.str (cycle - 1) +:+ "_"
               +:+ Py.str cycle) "in2" ]
      else [])
  ++ cold.1
  ++ compression_wirings cycle cold.2
  ++ hot.1
  ++ [ closing_wiring cycle hot.2 ].

Definition topology_wirings : list wiring :=
  fixed_wirings ++ (Py.range1 nr_cycles_ ≫= cycle_wirings).
End topology.

Definition generate_topology (self : Heatpump) : result Heatpump :=
  set_conns
    (topology_wirings (nr_cycles self) (int_heatex self) (intercooler self)
       (components self))
    self.

(** Lines 67-78: [Heatpump(fluids, nr_cycles, int_heatex, intercooler)]. *)
Definition init (nr_cycles_ : Z) (int_heatex_ : gmap Z heatex_value)
    (intercooler_ : gmap Z intercooler_value) : result Heatpump :=
  generate_topology
    (generate_components
       (mkHeatpump nr_cycles_ int_heatex_ intercooler_ ∅ ∅ [])).

(** ** Graph mutator: [delete_component] *)

Definition incident (component : string) (connection : Connection) : bool :=
  let is_source := bool_decide (component = label (source connection)) in
  let is_target := bool_decide (component = label (target connection)) in
  is_source || is_target.

(** Lines 481-487: one pass of [for label, connection in
    self.connections.items()], on the copy of the table, the network log and
    the printed lines. (The passes are made in the order of [map_to_list];
    the tables do not depend on the order, the sequence of the printed lines
    and of the [del_conns] calls does.) *)
Definition delete_step (component : string)
    (st : gmap string Connection * list nw_call * list string)
    (item : string * Connection)
    : gmap string Connection * list nw_call * list string :=
  let '(connections_copy, nw_, out) := st in
  if incident component item.2 then
    (delete item.1 connections_copy,
     nw_ ++ [del_conns item.2],
     out ++ ["Connection " +:+ item.1 +:+ " succesfully deleted from Heatpump."])
  else st.

(** Lines 463-489. Returns the object after the call and the lines printed. *)
Definition delete_component (component : string) (self : Heatpump)
    : Heatpump * list string :=
  match components self !! component with
  | None =>
      (self, ["No component with label " +:+ component +:+ " found."])
  | Some _ =>
      let components' := delete component (components self) in
      let '(connections_copy, nw_, out) :=
        foldl (delete_step component)
          (connections self, nw self,
           ["Component " +:+ component +:+ " succesfully deleted from Heatpump."])
          (map_to_list (connections self)) in
      (mkHeatpump (nr_cycles self) (int_heatex self) (intercooler self)
         components' connections_copy nw_, out)
  end.

(** ** Notions used in the statements *)

#[global] Instance Component_inhabited : Inhabited Component :=
  populate (mkComponent Source EmptyString).

(** The connection object that [set_conn] builds from the arguments [w]
    when both components are in the table [comps]. *)
Definition connection_of (comps : gmap string Component) (w : wiring)
    : Connection :=
  mkConnection (comps !!! w_comp_out w) (w_outlet w)
    (comps !!! w_comp_in w) (w_inlet w) (w_label w).

(** Both component keys of a [set_conn] call are in the table. *)
Definition wirable (comps : gmap string Component) (w : wiring) : Prop :=
  is_Some (comps !! w_comp_out w) ∧ is_Some (comps !! w_comp_in w).

(** Characters and strings: decimal digits, and the characters that occur
    in a string. *)
Definition is_digit (a : ascii) : bool :=
  (48 <=? nat_of_ascii a)%nat && (nat_of_ascii a <=? 57)%nat.

Fixpoint all_digits (s : string) : bool :=
  match s with
  | EmptyString => true
  | String a s' => is_digit a && all_digits s'
  end.

Definition no_leading_digit (s : string) : bool :=
  match s with
  | EmptyString => true
  | String a _ => negb (is_digit a)
  end.

Fixpoint occurs (a : ascii) (s : string) : bool :=
  match s with
  | EmptyString => false
  | String b s' => Ascii.eqb a b || occurs a s'
  end.

(** The assignments [self.components[key] = comp] that
    [generate_components] makes, by kind. *)
Inductive factory_entry (N : Z) (ih : gmap Z heatex_value)
    (ic : gmap Z intercooler_value) : string → Component → Prop :=
  | fe_fixed key comp :
      (key, comp) ∈ fixed_components →
      factory_entry N ih ic key comp
  | fe_cycle_closer c :
      1 ≤ c ≤ N →
      factory_entry N ih ic ("Cycle Closer " +:+ Py.str c)
        (mkComponent CycleCloser ("Cycle Closer " +:+ Py.str c))
  | fe_valve c :
      1 ≤ c ≤ N →
      factory_entry N ih ic ("Valve " +:+ Py.str c)
        (mkComponent Valve ("Valve " +:+ Py.str c))
  | fe_heat_exchanger c :
      2 ≤ c ≤ N →
      factory_entry N ih ic
        ("Heat Exchanger " +:+ Py.str (c - 1) +:+ "_" +:+ Py.str c)
        (mkComponent HeatExchanger
           ("Heat Exchanger " +:+ Py.str (c - 1) +:+ "_" +:+ Py.str c))
  | fe_condenser :
      1 ≤ N →
      factory_entry N ih ic ("Condenser " +:+ Py.str N)
        (mkComponent Condenser ("Condenser " +:+ Py.str N))
  | fe_intercooler c e i cls :
      1 ≤ c ≤ N → ic !! c = Some e → 1 ≤ i ≤ amount e →
      (type e = "HeatExchanger" ∧ cls = HeatExchanger
       ∨ type e = "HeatExchangerSimple" ∧ cls = HeatExchangerSimple) →
      factory_entry N ih ic
        ("Intercooler " +:+ Py.str c +:+ "-" +:+ Py.str i)
        (mkComponent cls ("Intercooler " +:+ Py.str c +:+ "-" +:+ Py.str i))
  | fe_stage_compressor c e i :
      1 ≤ c ≤ N → ic !! c = Some e → 1 ≤ i ≤ amount e + 1 →
      factory_entry N ih ic
        ("Compressor " +:+ Py.str c +:+ "-" +:+ Py.str i)
        (mkComponent Compressor
           ("Compressor " +:+ Py.str c +:+ "_" +:+ Py.str i))
  | fe_compressor c :
      1 ≤ c ≤ N → ic !! c = None →
      factory_entry N ih ic ("Compressor " +:+ Py.str c)
        (mkComponent Compressor ("Compressor " +:+ Py.str c))
  | fe_int_heatex c t :
      1 ≤ c ≤ N →
      (ih !! c = Some (VInt t)
       ∨ ∃ ts, ih !! c = Some (VList ts) ∧ t ∈ ts) →
      factory_entry N ih ic
        ("Internal Heat Exchanger " +:+ Py.str c +:+ "_" +:+ Py.str t)
        (mkComponent HeatExchanger
           ("Internal Heat Exchanger " +:+ Py.str c +:+ "_" +:+ Py.str t)).

(** The configurations the data model of the specification describes, as
    far as the compression stages go: at least one cycle, and for every
    cycle with an [intercooler] entry a number of intercoolers that is not
    negative and one of the two intercooler classes. *)
Definition well_formed (N : Z) (ic : gmap Z intercooler_value) : Prop :=
  1 ≤ N
  ∧ ∀ c e, 1 ≤ c ≤ N → ic !! c = Some e →
      0 ≤ amount e
      ∧ (type e = "HeatExchanger" ∨ type e = "HeatExchangerSimple").

(** Labels of the connections that leave a compressor or an intercooler. *)
Definition is_stage_label (l : string) : bool :=
  String.prefix "comp" l || String.prefix "inte" l.

(** The [set_conn] calls of [generate_topology] on the discharge side of
    the compression stage of cycle [c]. *)
Inductive discharge_wiring (N : Z) (ic : gmap Z intercooler_value) (c : Z)
    : wiring → Prop :=
  | dw_to_intercooler e i :
      ic !! c = Some e → 1 ≤ i ≤ amount e →
      discharge_wiring N ic c
        (Wire ("comp" +:+ Py.str c +:+ "-" +:+ Py.str i
                 +:+ "_to_intercooler" +:+ Py.str c +:+ "-" +:+ Py.str i)
           ("Compressor " +:+ Py.str c +:+ "-" +:+ Py.str i) "out1"
           ("Intercooler " +:+ Py.str c +:+ "-" +:+ Py.str i) "in1")
  | dw_from_intercooler e i :
      ic !! c = Some e → 1 ≤ i ≤ amount e →
      discharge_wiring N ic c
        (Wire ("intercooler" +:+ Py.str c +:+ "-" +:+ Py.str i
                 +:+ "_to_comp" +:+ Py.str c +:+ "-" +:+ Py.str (i + 1))
           ("Intercooler " +:+ Py.str c +:+ "-" +:+ Py.str i) "out1"
           ("Compressor " +:+ Py.str c +:+ "-" +:+ Py.str (i + 1)) "in1")
  | dw_staged_to_condenser e :
      ic !! c = Some e → c = N →
      discharge_wiring N ic c
        (Wire ("comp" +:+ Py.str c +:+ "-" +:+ Py.str (amount e + 1)
                 +:+ "_to_cond" +:+ Py.str c)
           ("Compressor " +:+ Py.str c +:+ "-" +:+ Py.str (amount e + 1))
           "out1" ("Condenser " +:+ Py.str c) "in1")
  | dw_staged_to_heat_exchanger e :
      ic !! c = Some e → c ≠ N →
      discharge_wiring N ic c
        (Wire ("comp" +:+ Py.str c +:+ "-" +:+ Py.str (amount e + 1)
                 +:+ "_to_heatex" +:+ Py.str c +:+ "_" +:+ Py.str (c + 1))
           ("Compressor " +:+ Py.str c +:+ "-" +:+ Py.str (amount e + 1))
           "out1"
           ("Heat Exchanger " +:+ Py.str c +:+ "_" +:+ Py.str (c + 1)) "in1")
  | dw_single_to_condenser :
      ic !! c = None → c = N →
      discharge_wiring N ic c
        (Wire ("comp" +:+ Py.str c +:+ "_to_cond" +:+ Py.str c)
           ("Compressor " +:+ Py.str c) "out1"
           ("Condenser " +:+ Py.str c) "in1")
  | dw_single_to_heat_exchanger :
      ic !! c = None → c ≠ N →
      discharge_wiring N ic c
        (Wire ("comp" +:+ Py.str c +:+ "_to_heatex" +:+ Py.str c
                 +:+ "_" +:+ Py.str (c + 1))
           ("Compressor " +:+ Py.str c) "out1"
           ("Heat Exchanger " +:+ Py.str c +:+ "_" +:+ Py.str (c + 1)) "in1").

(** The key under which [generate_components] stores the compressor of
    stage [i] of an intercooled cycle [c], the component object stored
    there, and the key and the object of intercooler [i] (lines 165-176). *)
Definition stage_compressor_key (c i : Z) : string :=
  "Compressor " +:+ Py.str c +:+ "-" +:+ Py.str i.

Definition stage_compressor (c i : Z) : Component :=
  mkComponent Compressor ("Compressor " +:+ Py.str c +:+ "_" +:+ Py.str i).



(** A call returns normally, with a result that satisfies [P]. *)
Definition returns {A} (r : result A) (P : A → Prop) : Prop :=
  match r with
  | Ok a => P a
  | KeyError _ | ValueError _ | TESPyConnectionError _ => False
  end.

(** Two constructions end the same way: both raise the same exception, or
    both return objects with the same tables and the same network log. *)
Definition same_outcome (r r' : result Heatpump) : Prop :=
  match r, r' with
  | Ok a, Ok b =>
      components a = components b
      ∧ connections a = connections b
      ∧ nw a = nw b
  | KeyError key, KeyError key' => key = key'
  | ValueError e, ValueError e' => e = e'
  | TESPyConnectionError l, TESPyConnectionError l' => l = l'
  | _, _ => False
  end.

(** The entries of a configuration dictionary whose key is a cycle. *)
Definition in_range {V} (N : Z) (d : gmap Z V) : gmap Z V :=
  filter (λ kv, 1 ≤ kv.1 ≤ N) d.

(** The last call of a sequence that writes the label [l]. *)
Definition last_write (l : string) (ws : list wiring) : option wiring :=
  last (filter (λ w, w_label w = l) ws).

(** ** Further notions *)

(** The configurations for which the construction succeeds: at least one
    cycle, and for every cycle with an [intercooler] entry a number of
    intercoolers that is not negative and, when there is at least one
    intercooler, one of the two intercooler classes. *)
Definition buildable (N : Z) (ic : gmap Z intercooler_value) : Prop :=
  1 ≤ N
  ∧ ∀ c e, 1 ≤ c ≤ N → ic !! c = Some e →
      0 ≤ amount e
      ∧ (1 ≤ amount e →
         type e = "HeatExchanger" ∨ type e = "HeatExchangerSimple").

(** The arguments of a [set_conn] call pass the component lookups and the
    constructor of [Connection]: both keys are in the table, the two
    components differ, and the ports are an outlet of the first and an
    inlet of the second. *)
Definition connectable (comps : gmap string Component) (w : wiring) : Prop :=
  ∃ c_out c_in,
    comps !! w_comp_out w = Some c_out
    ∧ comps !! w_comp_in w = Some c_in
    ∧ c_out ≠ c_in
    ∧ w_outlet w ∈ outlets (class_of c_out)
    ∧ w_inlet w ∈ inlets (class_of c_in).

(** The [set_conn] calls that [generate_topology] makes for a
    configuration use pairwise different labels. *)
Definition distinct_labels (N : Z) (ih : gmap Z heatex_value)
    (ic : gmap Z intercooler_value) : Prop :=
  NoDup (w_label <$>
           topology_wirings N ih ic
             (assign_all ∅ (component_entries N ih ic))).

#[global] Instance distinct_labels_dec N ih ic :
  Decision (distinct_labels N ih ic).
Proof. unfold distinct_labels. apply _. Defined.

(** The labels of the two component objects of every connection are keys
    of the component table. *)
Definition intact (self : Heatpump) : Prop :=
  ∀ l c, connections self !! l = Some c →
    is_Some (components self !! label (source c))
    ∧ is_Some (components self !! label (target c)).

#[global] Instance intact_dec self : Decision (intact self).
Proof.
  apply (map_Forall_dec
           (λ (_ : string) c,
              is_Some (components self !! label (source c))
              ∧ is_Some (components self !! label (target c)))).
Defined.

(** [delete_component] called for each label of a list in turn. *)
Definition delete_components (labels : list string) (self : Heatpump)
    : Heatpump :=
  foldl (λ self component, (delete_component component self).1) self labels.

(** The connections that [delete_component] removes, in the order in which
    its loop meets them. *)
Definition removed_connections (component : string) (self : Heatpump)
    : list (string * Connection) :=
  filter (λ item, incident component item.2)
    (map_to_list (connections self)).

(** The component whose second outlet feeds the next step of the
    cold-side chain of [cycle], given the source cycle of the internal
    heat exchanger that the chain passed last (if any). *)
Definition cold_upstream (cycle : Z) (prev : option Z) : string :=
  match prev with
  | None =>
      if bool_decide (cycle = 1) then "Evaporator 1"
      else "Heat Exchanger " +:+ Py.str (cycle - 1) +:+ "_" +:+ Py.str cycle
  | Some s => "Internal Heat Exchanger " +:+ Py.str s +:+ "_" +:+ Py.str cycle
  end.

(** The component whose first outlet feeds the next step of the hot-side
    chain of [cycle], given the key of the internal heat exchanger that
    the chain passed last (or the empty string). *)
Definition hot_upstream (nr_cycles_ cycle : Z) (prev : string) : string :=
  if String.eqb prev EmptyString then
    if bool_decide (cycle = nr_cycles_) then "Condenser " +:+ Py.str cycle
    else "Heat Exchanger " +:+ Py.str cycle +:+ "_" +:+ Py.str (cycle + 1)
  else prev.

(** ** [HeatpumpSingleStage] *)

(** A call [obj.set_attr(k1=..., k2=...)] on a component object: the label
    of the object and the keyword names, in the order of the source. (The
    keyword values, which are floats, lists of names and characteristic
    lines, are not modelled.) *)
Record set_attr_call := SetAttr {
  attr_label : string;
  attr_keywords : list string
}.

(** The attributes of a [HeatpumpSingleStage] object: those inherited from
    [Heatpump], the truth value of [param['int_heatex']], the [set_attr]
    calls made on components so far, the keys of [self.busses] and
    [self.initialized]. *)
Record HeatpumpSingleStage := mkHeatpumpSingleStage {
  heatpump : Heatpump;
  param_int_heatex : bool;
  attr_calls : list set_attr_call;
  busses : list string;
  initialized : bool
}.

(** [self.components[key].set_attr(...)]. *)
Definition component_set_attr (key : string) (keywords : list string)
    (self : HeatpumpSingleStage) : result HeatpumpSingleStage :=
  match components (heatpump self) !! key with
  | None => KeyError key
  | Some comp =>
      Ok (mkHeatpumpSingleStage (heatpump self) (param_int_heatex self)
            (attr_calls self ++ [SetAttr (label comp) keywords])
            (busses self) (initialized self))
  end.

(** Statements executed in sequence; the first exception ends the run. *)
Fixpoint run {S} (steps : list (S → result S)) (s : S) : result S :=
  match steps with
  | [] => Ok s
  | step :: steps' => bind (step s) (run steps')
  end.

(** Lines 515-552. *)
Definition parametrize_components (self : HeatpumpSingleStage)
    : result HeatpumpSingleStage :=
  run
    ([ component_set_attr "Consumer Recirculation Pump"
         ["eta_s"; "design"; "offdesign"];
       component_set_attr "Heat Source Recirculation Pump"
         ["eta_s"; "design"; "offdesign"];
       component_set_attr "Compressor 1" ["eta_s"; "design"; "offdesign"];
       component_set_attr "Condenser 1"
         ["pr1"; "pr2"; "design"; "offdesign"];
       component_set_attr "Evaporator 1"
         ["pr1"; "pr2"; "kA_char1"; "kA_char2"; "design"; "offdesign"];
       component_set_attr "Consumer" ["pr"; "design"; "offdesign"] ]
     ++ (if param_int_heatex self then
           [ component_set_attr "Internal Heat Exchanger 1_1"
               ["pr1"; "pr2"; "offdesign"] ]
         else []))
    self.

(** Lines 502-513: [HeatpumpSingleStage(param)], as far as it depends on
    the truth value of [param['int_heatex']]. *)
Definition single_stage_init (param_int_heatex_ : bool)
    : result HeatpumpSingleStage :=
  bind
    (if negb param_int_heatex_ then init 1 ∅ ∅
     else init 1 {[ 1 := VInt 1 ]} ∅)
    (λ hp,
      bind
        (parametrize_components
           (mkHeatpumpSingleStage hp param_int_heatex_ [] [] false))
        (λ self,
          Ok (mkHeatpumpSingleStage (heatpump self) (param_int_heatex self)
                (attr_calls self) [] false))).

(** [self.initialized = value]. *)
Definition set_initialized (value : bool) (self : HeatpumpSingleStage)
    : HeatpumpSingleStage :=
  mkHeatpumpSingleStage (heatpump self) (param_int_heatex self)
    (attr_calls self) (busses self) value.

(** The keys with which [init_simulation] (lines 554-628) indexes
    [self.connections] and [self.components], in the order of the source. *)
Definition init_simulation_connections (self : HeatpumpSingleStage)
    : list string :=
  (if negb (param_int_heatex self) then
     [ "evaporator1_to_comp1"; "cond1_to_cc1" ]
   else
     [ "evaporator1_to_int_heatex1_1"; "cond1_to_int_heatex1_1";
       "int_heatex1_1_to_cc1" ])
  ++ [ "cond1_to_consumer"; "consumer_to_heatsink_cc";
       "heatsource_ff_to_heatsource_pump"; "evaporator1_to_heatsource_bf" ].

Definition init_simulation_components : list string :=
  [ "Compressor 1"; "Consumer Recirculation Pump";
    "Heat Source Recirculation Pump"; "Consumer" ].

(** The same for [design_simulation] (lines 630-672), when
    [self.initialized] holds; otherwise the method prints a message and
    returns before it indexes anything. *)
Definition design_simulation_connections (self : HeatpumpSingleStage)
    : list string :=
  if negb (initialized self) then []
  else if negb (param_int_heatex self) then
    [ "evaporator1_to_comp1"; "cond1_to_cc1"; "comp1_to_cond1" ]
  else
    [ "evaporator1_to_int_heatex1_1"; "cond1_to_int_heatex1_1";
      "int_heatex1_1_to_cc1"; "int_heatex1_1_to_comp1";
      "evaporator1_to_int_heatex1_1" ].

Definition design_simulation_components (self : HeatpumpSingleStage)
    : list string :=
  if negb (initialized self) then []
  else if negb (param_int_heatex self) then
    [ "Evaporator 1"; "Condenser 1"; "Compressor 1" ]
  else
    [ "Evaporator 1"; "Condenser 1" ].

(** Cycle [s] has an internal heat exchanger whose cold side lies in cycle
    [t]: the [int_heatex] entry of [s] is [t] or a list that contains
    [t]. *)
Definition has_target (ih : gmap Z heatex_value) (s t : Z) : Prop :=
  ih !! s = Some (VInt t) ∨ ∃ ts, ih !! s = Some (VList ts) ∧ t ∈ ts.

(** Labels of the connections of the two chains of internal heat
    exchangers: they begin with [int_heatex] or contain
    [_to_int_heatex]. *)
Definition is_chain_label (l : string) : bool :=
  String.prefix "int_heatex" l || Py.contains "_to_int_heatex" l.

#[global] Instance wiring_eq_dec : EqDecision wiring.
Proof. solve_decision. Defined.

(** The [set_conn] calls of [generate_topology] that do not depend on the
    two dictionaries: those of lines 199-240 and, for every cycle, the two
    of lines 243-254. *)
Definition skeleton_wirings (nr_cycles_ : Z) : list wiring :=
  fixed_wirings nr_cycles_
  ++ (Py.range1 nr_cycles_ ≫= λ cycle,
        [ Wire ("cc" +:+ Py.str cycle +:+ "_to_valve" +:+ Py.str cycle)
            ("Cycle Closer " +:+ Py.str cycle) "out1"
            ("Valve " +:+ Py.str cycle) "in1" ]
        ++ (if bool_decide (cycle ≠ 1) then
              [ Wire ("valve" +:+ Py.str cycle +:+ "_to_heat_ex"
                        +:+ Py.str (cycle - 1) +:+ "_" +:+ Py.str cycle)
                  ("Valve " +:+ Py.str cycle) "out1"
                  ("Heat Exchanger " +:+ Py.str (cycle - 1) +:+ "_"
                     +:+ Py.str cycle) "in2" ]
            else [])).

(** * Properties *)

(** ** Assignments to a table *)

Section assign_all.
Context {V : Type}.
Implicit Types (d : gmap string V) (entries : list (string * V)).

Lemma assign_all_app d entries1 entries2 :
  assign_all d (entries1 ++ entries2)
  = assign_all (assign_all d entries1) entries2.
Proof. apply foldl_app. Qed.

(** A key that is never assigned keeps its value. *)
Lemma lookup_assign_all_notin d entries k :
  k ∉ entries.*1 → assign_all d entries !! k = d !! k.
Proof.
  revert d. induction entries as [|[k' v'] entries IH]; intros d Hk; [done|].
  rewrite fmap_cons, not_elem_of_cons in Hk. destruct Hk as [Hne Hk].
  simpl. rewrite IH by done. by rewrite lookup_insert_ne.
Qed.

(** The last assignment to a key wins; when all of them store the same
    value, that value is found. *)
Lemma lookup_assign_all_agree d entries k v :
  (k, v) ∈ entries →
  (∀ v', (k, v') ∈ entries → v' = v) →
  assign_all d entries !! k = Some v.
Proof.
  revert d. induction entries as [|[k' v'] entries IH]; intros d Hin Hagree.
  { by apply elem_of_nil in Hin. }
  simpl. destruct (decide (k ∈ entries.*1)) as [Hk|Hk].
  - apply list_elem_of_fmap in Hk as ([k'' v''] & -> & Hk). simpl in *.
    assert (v'' = v) as -> by (apply Hagree; by right).
    apply IH; [done|]. intros v'' ?. apply Hagree. by right.
  - apply elem_of_cons in Hin as [[= <- <-]|Hin].
    + rewrite lookup_assign_all_notin by done. apply lookup_insert_eq.
    + destruct Hk. apply list_elem_of_fmap. by exists (k, v).
Qed.

(** Whatever is found was assigned, or was there before. *)
Lemma lookup_assign_all_Some d entries k v :
  assign_all d entries !! k = Some v →
  (k, v) ∈ entries ∨ d !! k = Some v.
Proof.
  revert d. induction entries as [|[k' v'] entries IH]; intros d; [by right|].
  simpl. intros [Hin|Hd]%IH.
  - left. by right.
  - destruct (decide (k' = k)) as [->|Hne].
    + rewrite lookup_insert_eq in Hd. injection Hd as ->. left. by left.
    + rewrite lookup_insert_ne in Hd by done. by right.
Qed.

Lemma lookup_assign_all_is_Some d entries k :
  k ∈ entries.*1 → is_Some (assign_all d entries !! k).
Proof.
  revert d. induction entries as [|[k' v'] entries IH]; intros d Hin.
  { by apply elem_of_nil in Hin. }
  simpl. destruct (decide (k ∈ entries.*1)) as [?|Hk]; [by apply IH|].
  rewrite fmap_cons in Hin. apply elem_of_cons in Hin as [->|?]; [|done].
  rewrite lookup_assign_all_notin by done. simpl.
  rewrite lookup_insert_eq. by eexists.
Qed.

(** Assignments to pairwise distinct keys, on an empty table, make a
    table with one entry per assignment. *)
Lemma size_assign_all entries :
  NoDup entries.*1 → size (assign_all ∅ entries) = length entries.
Proof.
  induction entries as [|[k v] entries IH] using rev_ind; intros Hnd; [done|].
  rewrite fmap_app in Hnd. apply NoDup_app in Hnd as (Hnd & Hdisj & _).
  rewrite assign_all_app, length_app. simpl.
  rewrite map_size_insert_None.
  - rewrite IH by done. lia.
  - rewrite lookup_assign_all_notin, ?lookup_empty; [done|].
    intros Hin. eapply Hdisj; [done|]. simpl. by left.
Qed.
End assign_all.

(** ** The network log *)

Lemma network_labels_snoc log call :
  network_labels (log ++ [call])
  = match call with
    | add_conns c => network_labels log ∪ {[ conn_label c ]}
    | del_conns c => network_labels log ∖ {[ conn_label c ]}
    end.
Proof. unfold network_labels. by rewrite foldl_app. Qed.

(** After [add_conns] calls only, the network holds the labels added. *)
Lemma network_labels_add_conns log (cs : list Connection) l :
  l ∈ network_labels (log ++ (add_conns <$> cs))
  ↔ l ∈ network_labels log ∨ l ∈ conn_label <$> cs.
Proof.
  induction cs as [|c cs IH] using rev_ind.
  - rewrite app_nil_r. rewrite elem_of_nil. tauto.
  - rewrite !fmap_app, app_assoc. simpl. rewrite network_labels_snoc.
    rewrite elem_of_union, IH, elem_of_singleton, elem_of_app,
      list_elem_of_singleton. tauto.
Qed.

(** ** [set_conn] and sequences of calls *)

Lemma Connection_init_Ok c_out o c_in i l :
  c_out ≠ c_in → o ∈ outlets (class_of c_out) → i ∈ inlets (class_of c_in) →
  Connection_init c_out o c_in i l = Ok (mkConnection c_out o c_in i l).
Proof.
  intros Hne Ho Hi. unfold Connection_init.
  by rewrite decide_False, !decide_True by done.
Qed.

Lemma Connection_init_Ok_inv c_out o c_in i l c :
  Connection_init c_out o c_in i l = Ok c →
  c = mkConnection c_out o c_in i l
  ∧ c_out ≠ c_in ∧ o ∈ outlets (class_of c_out) ∧ i ∈ inlets (class_of c_in).
Proof.
  unfold Connection_init. repeat case_decide; try done.
  by intros [= <-].
Qed.

Lemma connectable_wirable comps w : connectable comps w → wirable comps w.
Proof. intros (c_out & c_in & Hout & Hin & _). split; by eexists. Qed.

Lemma set_conn_w_Ok self w :
  connectable (components self) w →
  w_label w ∉ network_labels (nw self) →
  set_conn_w w self
  = Ok (mkHeatpump (nr_cycles self) (int_heatex self) (intercooler self)
          (components self)
          (<[w_label w := connection_of (components self) w]> (connections self))
          (nw self ++ [add_conns (connection_of (components self) w)])).
Proof.
  intros (c_out & c_in & Hout & Hin & Hne & Ho & Hi) Hfresh.
  unfold set_conn_w, set_conn, store_connection, connection_of.
  rewrite Hout, Hin, Connection_init_Ok by done.
  cbn [bind]. unfold add_to_network.
  cbn [connections nw components nr_cycles int_heatex intercooler].
  rewrite lookup_insert_eq. cbn [conn_label].
  rewrite decide_False by done.
  by rewrite !(lookup_total_correct _ _ _ Hout),
    !(lookup_total_correct _ _ _ Hin).
Qed.

Lemma set_conn_w_Ok_inv self w self' :
  set_conn_w w self = Ok self' →
  connectable (components self) w ∧ w_label w ∉ network_labels (nw self).
Proof.
  unfold set_conn_w, set_conn, store_connection.
  destruct (components self !! w_comp_out w) as [c_out|] eqn:Hout; [|done].
  destruct (components self !! w_comp_in w) as [c_in|] eqn:Hin; [|done].
  destruct (Connection_init _ _ _ _ _) as [c| | |] eqn:Hc; try done.
  apply Connection_init_Ok_inv in Hc as (-> & Hne & Ho & Hi).
  cbn [bind]. unfold add_to_network.
  cbn [connections nw components nr_cycles int_heatex intercooler].
  rewrite lookup_insert_eq. cbn [conn_label].
  case_decide; [done|]. intros _. split; [|done].
  by exists c_out, c_in.
Qed.

(** A call whose label the network already holds: the first statement
    replaces the entry of the table, and [add_conns] raises. *)
Lemma set_conn_w_duplicate self w :
  connectable (components self) w →
  w_label w ∈ network_labels (nw self) →
  store_connection (w_label w) (w_comp_out w) (w_outlet w) (w_comp_in w)
    (w_inlet w) self
  = Ok (mkHeatpump (nr_cycles self) (int_heatex self) (intercooler self)
          (components self)
          (<[w_label w := connection_of (components self) w]> (connections self))
          (nw self))
  ∧ set_conn_w w self = ValueError (duplicate_label (w_label w)).
Proof.
  intros (c_out & c_in & Hout & Hin & Hne & Ho & Hi) Hdup.
  unfold set_conn_w, set_conn, store_connection, connection_of.
  rewrite Hout, Hin, Connection_init_Ok by done.
  cbn [bind]. unfold add_to_network.
  cbn [connections nw components nr_cycles int_heatex intercooler].
  rewrite lookup_insert_eq. cbn [conn_label].
  rewrite decide_True by done.
  by rewrite !(lookup_total_correct _ _ _ Hout),
    !(lookup_total_correct _ _ _ Hin).
Qed.

(** A run of calls that pass the lookups and the constructor, with
    pairwise different labels that the network does not hold, succeeds; it
    leaves the configuration and the component table alone, and assigns
    the connections in order. *)
Lemma set_conns_Ok ws self :
  Forall (connectable (components self)) ws →
  NoDup (w_label <$> ws) →
  Forall (λ w, w_label w ∉ network_labels (nw self)) ws →
  set_conns ws self
  = Ok (mkHeatpump (nr_cycles self) (int_heatex self) (intercooler self)
          (components self)
          (assign_all (connections self)
             ((λ w, (w_label w, connection_of (components self) w)) <$> ws))
          (nw self ++ ((λ w, add_conns (connection_of (components self) w)) <$> ws))).
Proof.
  revert self. induction ws as [|w ws IH]; intros self Hws Hnd Hfresh.
  { simpl. rewrite app_nil_r. by destruct self. }
  apply Forall_cons in Hws as [Hw Hws].
  apply Forall_cons in Hfresh as [Hfw Hfresh].
  rewrite fmap_cons in Hnd. apply NoDup_cons in Hnd as [Hnotin Hnd].
  simpl. rewrite set_conn_w_Ok by done. simpl.
  rewrite IH; simpl; [by rewrite <-app_assoc|done..|].
  apply Forall_forall. intros w' Hw'. rewrite network_labels_snoc.
  rewrite not_elem_of_union, not_elem_of_singleton. split.
  - rewrite Forall_forall in Hfresh. by apply Hfresh.
  - intros Heq. apply Hnotin. apply list_elem_of_fmap. by exists w'.
Qed.

Lemma set_conns_components ws self self' :
  set_conns ws self = Ok self' → components self' = components self.
Proof.
  revert self. induction ws as [|w ws IH]; intros self; [by intros [= <-]|].
  simpl. destruct (set_conn_w w self) as [self1| | |] eqn:Hw; try done.
  simpl. intros Hrun. rewrite (IH _ Hrun).
  destruct (set_conn_w_Ok_inv _ _ _ Hw) as [Hc Hf].
  rewrite set_conn_w_Ok in Hw by done. by injection Hw as <-.
Qed.

(** Conversely, a run that succeeds was of that kind. *)
Lemma set_conns_Ok_inv ws self self' :
  set_conns ws self = Ok self' →
  Forall (connectable (components self)) ws
  ∧ NoDup (w_label <$> ws)
  ∧ Forall (λ w, w_label w ∉ network_labels (nw self)) ws.
Proof.
  revert self. induction ws as [|w ws IH]; intros self Hrun.
  { repeat split; constructor. }
  simpl in Hrun.
  destruct (set_conn_w w self) as [self1| | |] eqn:Hw; try done.
  simpl in Hrun. destruct (set_conn_w_Ok_inv _ _ _ Hw) as [Hc Hf].
  rewrite set_conn_w_Ok in Hw by done. injection Hw as <-.
  destruct (IH _ Hrun) as (Hcs & Hnd & Hfs). simpl in Hcs, Hfs.
  assert (Hfs' : Forall (λ w', (w_label w' ∉ network_labels (nw self))
                               ∧ w_label w' ≠ w_label w) ws).
  { eapply Forall_impl; [exact Hfs|]. intros w'. simpl.
    rewrite network_labels_snoc.
    by rewrite not_elem_of_union, not_elem_of_singleton. }
  split; [by constructor|]. split.
  - rewrite fmap_cons. apply NoDup_cons. split; [|done].
    intros (w' & Heq & Hin)%list_elem_of_fmap.
    rewrite Forall_forall in Hfs'. by destruct (Hfs' w' Hin).
  - constructor; [done|]. eapply Forall_impl; [exact Hfs'|]. by intros w' [].
Qed.

(** The outcome of a run does not depend on the configuration attributes. *)
Lemma set_conns_config ws N ih ic N' ih' ic' comps conns log :
  set_conns ws (mkHeatpump N ih ic comps conns log)
  = match set_conns ws (mkHeatpump N' ih' ic' comps conns log) with
    | Ok hp =>
        Ok (mkHeatpump N ih ic (components hp) (connections hp) (nw hp))
    | KeyError key => KeyError key
    | ValueError e => ValueError e
    | TESPyConnectionError l => TESPyConnectionError l
    end.
Proof.
  revert conns log. induction ws as [|w ws IH]; intros conns log; [done|].
  simpl. unfold set_conn_w, set_conn, store_connection. simpl.
  destruct (comps !! w_comp_out w); [|done].
  destruct (comps !! w_comp_in w); [|done].
  destruct (Connection_init _ _ _ _ _); try done. simpl.
  unfold add_to_network. simpl. rewrite !lookup_insert_eq.
  case_decide; [done|]. simpl. apply IH.
Qed.

Lemma lookup_assign_all_last_write comps (conns : gmap string Connection) ws l :
  assign_all conns ((λ w, (w_label w, connection_of comps w)) <$> ws) !! l
  = match last_write l ws with
    | Some w => Some (connection_of comps w)
    | None => conns !! l
    end.
Proof.
  unfold last_write.
  induction ws as [|w ws IH] using rev_ind; [done|].
  rewrite fmap_app, assign_all_app, filter_app. simpl.
  rewrite filter_cons, filter_nil. destruct (decide (w_label w = l)) as [<-|Hne].
  - rewrite last_snoc. apply lookup_insert_eq.
  - rewrite app_nil_r, lookup_insert_ne by done. apply IH.
Qed.

(** ** [delete_component] *)

(** What the loop of [delete_component] leaves in the copy of the table. *)
Lemma delete_loop_lookup component items copy log out k :
  (foldl (delete_step component) (copy, log, out) items).1.1 !! k
  = if decide (Exists (λ item, item.1 = k ∧ incident component item.2) items)
    then None else copy !! k.
Proof.
  revert copy log out.
  induction items as [|[k' c] items IH]; intros copy log out; [done|].
  cbn [foldl]. unfold delete_step at 2. cbn [fst snd].
  destruct (incident component c) eqn:Hinc.
  - rewrite IH. destruct (decide (k' = k)) as [->|Hne].
    + rewrite lookup_delete_eq.
      rewrite (decide_True (P:=Exists _ (_ :: _))).
      * by destruct (decide _).
      * left. simpl. by rewrite Hinc.
    + rewrite lookup_delete_ne by done.
      apply decide_ext. rewrite Exists_cons. simpl. tauto.
  - rewrite IH. apply decide_ext. rewrite Exists_cons. simpl.
    rewrite Hinc. unfold Is_true. tauto.
Qed.

Lemma delete_loop_connections component (conns : gmap string Connection) log out :
  (foldl (delete_step component) (conns, log, out) (map_to_list conns)).1.1
  = filter (λ kv, ¬ incident component kv.2) conns.
Proof.
  apply map_eq; intros k. rewrite delete_loop_lookup.
  destruct (conns !! k) as [c|] eqn:Hk.
  - destruct (incident component c) eqn:Hinc.
    + rewrite decide_True.
      * symmetry. apply map_lookup_filter_None. right. intros c' Hc'.
        simpl. rewrite Hk in Hc'. injection Hc' as <-. rewrite Hinc.
        intros Hn. by apply Hn.
      * apply Exists_exists. exists (k, c). split.
        -- by apply elem_of_map_to_list.
        -- simpl. by rewrite Hinc.
    + rewrite decide_False.
      * symmetry. apply map_lookup_filter_Some. split; [done|].
        simpl. rewrite Hinc. by intros [].
      * intros ([k' c'] & Hin & Hk' & Hinc')%Exists_exists. simpl in *.
        subst k'. apply elem_of_map_to_list in Hin. rewrite Hk in Hin.
        injection Hin as <-. by rewrite Hinc in Hinc'.
  - rewrite decide_False.
    + symmetry. apply map_lookup_filter_None. by left.
    + intros ([k' c'] & Hin & Hk' & _)%Exists_exists. simpl in *. subst k'.
      apply elem_of_map_to_list in Hin. by rewrite Hk in Hin.
Qed.

Lemma delete_component_found component self c :
  components self !! component = Some c →
  components (delete_component component self).1
  = delete component (components self)
  ∧ connections (delete_component component self).1
    = filter (λ kv, ¬ incident component kv.2) (connections self).
Proof.
  intros Hc. unfold delete_component. rewrite Hc.
  pose proof (delete_loop_connections component (connections self) (nw self)
    ["Component " +:+ component +:+ " succesfully deleted from Heatpump."])
    as Hloop.
  destruct (foldl _ _ _) as [[copy log] out]. simpl in *. by subst.
Qed.

Lemma incident_iff component c :
  incident component c
  ↔ label (source c) = component ∨ label (target c) = component.
Proof.
  unfold incident. rewrite orb_True, !bool_decide_spec.
  split; (intros [H|H]; [left|right]; by symmetry).
Qed.

(** ** Strings and decimal numerals *)

Local Arguments String.append !s1 s2 : simpl nomatch.

Lemma append_nil_r s : s +:+ "" = s.
Proof. induction s as [|a s IH]; simpl; by rewrite ?IH. Qed.

Lemma all_digits_uint d : all_digits (NilEmpty.string_of_uint d) = true.
Proof. induction d; simpl; by rewrite ?IHd. Qed.

(** The numeral of a natural number is a non-empty run of digits. *)
Lemma str_digits z :
  0 ≤ z → all_digits (Py.str z) = true ∧ Py.str z ≠ "".
Proof.
  intros Hz. destruct z as [|p|p]; [done| |lia].
  unfold Py.str. simpl.
  pose proof (DecimalPos.Unsigned.to_uint_nonnil p) as Hnil.
  destruct (Pos.to_uint p) as [|d|d|d|d|d|d|d|d|d|d] eqn:Hd; [done|..];
    (split; [apply (all_digits_uint (_ d))|done]).
Qed.

(** Different integers have different numerals. *)
Lemma str_inj a b : Py.str a = Py.str b → a = b.
Proof.
  assert (Hnorm : ∀ z, Z.to_int z ≠ Decimal.Pos Decimal.Nil
                       ∧ Z.to_int z ≠ Decimal.Neg Decimal.Nil).
  { intros [|p|p]; split; try discriminate; simpl; intros [= Hp];
      by apply DecimalPos.Unsigned.to_uint_nonnil in Hp. }
  unfold Py.str. intros Hab. apply to_int_inj.
  destruct (Hnorm a) as [Ha1 Ha2], (Hnorm b) as [Hb1 Hb2].
  pose proof (NilZero.isi _ Ha1 Ha2) as Ha.
  pose proof (NilZero.isi _ Hb1 Hb2) as Hb.
  rewrite Hab in Ha. rewrite Ha in Hb. by injection Hb.
Qed.

(** Two strings that begin with a run of digits followed by something that
    is not a digit are equal only if the runs and the rests are. *)
Lemma digits_split d1 d2 r1 r2 :
  all_digits d1 = true → all_digits d2 = true →
  no_leading_digit r1 = true → no_leading_digit r2 = true →
  d1 +:+ r1 = d2 +:+ r2 → d1 = d2 ∧ r1 = r2.
Proof.
  revert d2. induction d1 as [|a d1 IH]; intros [|b d2]; simpl;
    intros H1 H2 Hr1 Hr2 Heq.
  - done.
  - subst r1. simpl in Hr1. apply andb_true_iff in H2 as [Hb _].
    by rewrite Hb in Hr1.
  - subst r2. simpl in Hr2. apply andb_true_iff in H1 as [Ha _].
    by rewrite Ha in Hr2.
  - injection Heq as -> Heq.
    apply andb_true_iff in H1 as [_ H1]. apply andb_true_iff in H2 as [_ H2].
    destruct (IH d2 H1 H2 Hr1 Hr2 Heq) as [-> ->]. done.
Qed.

Lemma str_app_inj a b r1 r2 :
  0 ≤ a → 0 ≤ b →
  no_leading_digit r1 = true → no_leading_digit r2 = true →
  Py.str a +:+ r1 = Py.str b +:+ r2 → a = b ∧ r1 = r2.
Proof.
  intros Ha Hb Hr1 Hr2 Heq.
  destruct (str_digits a Ha) as [Hda _], (str_digits b Hb) as [Hdb _].
  destruct (digits_split _ _ _ _ Hda Hdb Hr1 Hr2 Heq) as [Hab Hr].
  split; [by apply str_inj|done].
Qed.

(** A numeral does not begin with a character that is not a digit. *)
Lemma str_app_no_digit a r c r' :
  0 ≤ a → is_digit c = false → Py.str a +:+ r = String c r' → False.
Proof.
  intros Ha Hc Heq. destruct (str_digits a Ha) as [Hd Hne].
  destruct (Py.str a) as [|c' s]; [done|]. simpl in *.
  injection Heq as -> _. apply andb_true_iff in Hd as [Hd _].
  by rewrite Hc in Hd.
Qed.

Lemma str_app_not_empty a r : 0 ≤ a → Py.str a +:+ r = "" → False.
Proof.
  intros Ha Heq. destruct (str_digits a Ha) as [_ Hne].
  by destruct (Py.str a).
Qed.

Lemma str_1 r : String "1" r = Py.str 1 +:+ r.
Proof. done. Qed.

(** Solving equations between labels: peel the literal characters, and
    split at the numerals (whose arguments must be known to be natural
    numbers). *)
Ltac label_step :=
  match goal with
  | H : Py.str _ +:+ _ = Py.str _ +:+ _ |- _ =>
      apply str_app_inj in H; [destruct H as [? ?]|lia|lia|done|done]
  | H : Py.str ?a = Py.str _ +:+ _ |- _ =>
      rewrite <-(append_nil_r (Py.str a)) in H
  | H : Py.str _ +:+ _ = Py.str ?b |- _ =>
      rewrite <-(append_nil_r (Py.str b)) in H
  | H : Py.str _ = Py.str _ |- _ => apply str_inj in H
  | H : Py.str _ +:+ _ = String "1" _ |- _ =>
      rewrite str_1 in H;
      apply str_app_inj in H; [destruct H as [? ?]|lia|lia|done|done]
  | H : String "1" _ = Py.str _ +:+ _ |- _ =>
      rewrite str_1 in H;
      apply str_app_inj in H; [destruct H as [? ?]|lia|lia|done|done]
  | H : Py.str ?a = String "1" _ |- _ =>
      rewrite <-(append_nil_r (Py.str a)), str_1 in H;
      apply str_app_inj in H; [destruct H as [? ?]|lia|lia|done|done]
  | H : String "1" _ = Py.str ?a |- _ =>
      rewrite <-(append_nil_r (Py.str a)), str_1 in H;
      apply str_app_inj in H; [destruct H as [? ?]|lia|lia|done|done]
  | H : Py.str _ +:+ _ = String _ _ |- _ =>
      exfalso; apply str_app_no_digit in H; [done|lia|done]
  | H : String _ _ = Py.str _ +:+ _ |- _ =>
      exfalso; symmetry in H; apply str_app_no_digit in H; [done|lia|done]
  | H : Py.str ?a = String _ _ |- _ =>
      rewrite <-(append_nil_r (Py.str a)) in H
  | H : String _ _ = Py.str ?a |- _ =>
      rewrite <-(append_nil_r (Py.str a)) in H
  | H : Py.str _ +:+ _ = "" |- _ =>
      exfalso; apply str_app_not_empty in H; [done|lia]
  | H : "" = Py.str _ +:+ _ |- _ =>
      exfalso; symmetry in H; apply str_app_not_empty in H; [done|lia]
  end.

Ltac label_eq := repeat (simplify_eq/=; try label_step).

(** A string that contains a non-empty needle contains its first
    character. *)
Lemma prefix_occurs a needle hay :
  String.prefix (String a needle) hay = true → occurs a hay = true.
Proof.
  destruct hay as [|b hay]; simpl; [done|].
  destruct (ascii_dec a b) as [->|]; [|done].
  by rewrite Ascii.eqb_refl.
Qed.

Lemma contains_occurs a needle hay :
  Py.contains (String a needle) hay = true → occurs a hay = true.
Proof.
  induction hay as [|b hay IH].
  - done.
  - intros [Hp|Hc]%orb_true_iff; [by eapply prefix_occurs|].
    simpl. rewrite IH by done. apply orb_true_r.
Qed.

Lemma occurs_app a s1 s2 : occurs a (s1 +:+ s2) = occurs a s1 || occurs a s2.
Proof.
  induction s1 as [|b s1 IH]; simpl; [done|]. by rewrite IH, orb_assoc.
Qed.

Lemma occurs_digits a s :
  all_digits s = true → is_digit a = false → occurs a s = false.
Proof.
  intros Hs Ha. induction s as [|b s IH]; simpl; [done|].
  simpl in Hs. apply andb_true_iff in Hs as [Hb Hs]. rewrite IH by done.
  rewrite orb_false_r. apply Ascii.eqb_neq. intros ->. by rewrite Hb in Ha.
Qed.

Lemma occurs_str a z : 0 ≤ z → is_digit a = false → occurs a (Py.str z) = false.
Proof. intros Hz Ha. apply occurs_digits; [by apply str_digits|done]. Qed.

(** ** The component factory *)

Local Arguments assign_all : simpl never.
Local Arguments component_entries : simpl never.
Local Arguments topology_wirings : simpl never.

Lemma elem_of_range1 n k : k ∈ Py.range1 n ↔ 1 ≤ k ≤ n.
Proof. unfold Py.range1. rewrite elem_of_seqZ. lia. Qed.

Section factory_facts.
Variable N : Z.
Variable ih : gmap Z heatex_value.
Variable ic : gmap Z intercooler_value.

Lemma elem_of_intercooler_stage c e i key comp :
  (key, comp) ∈ intercooler_stage c e i ↔
    (i ≤ amount e ∧
     (key, comp)
     = ("Intercooler " +:+ Py.str c +:+ "-" +:+ Py.str i,
        mkComponent
          (if String.eqb (type e) "HeatExchanger" then HeatExchanger
           else HeatExchangerSimple)
          ("Intercooler " +:+ Py.str c +:+ "-" +:+ Py.str i))
     ∧ (type e = "HeatExchanger" ∨ type e = "HeatExchangerSimple"))
    ∨ (key, comp)
      = ("Compressor " +:+ Py.str c +:+ "-" +:+ Py.str i,
         mkComponent Compressor
           ("Compressor " +:+ Py.str c +:+ "_" +:+ Py.str i)).
Proof.
  unfold intercooler_stage. rewrite elem_of_app, list_elem_of_singleton.
  apply or_iff_compat_r.
  case_bool_decide as Hi.
  - destruct (String.eqb_spec (type e) "HeatExchanger") as [Ht|Ht].
    + rewrite list_elem_of_singleton. split; [intros ->|intros (_ & ? & _)]; [|done].
      split; [lia|]. split; [done|]. by left.
    + destruct (String.eqb_spec (type e) "HeatExchangerSimple") as [Ht'|Ht'].
      * rewrite list_elem_of_singleton.
        split; [intros ->|intros (_ & ? & _)]; [|done].
        split; [lia|]. split; [done|]. by right.
      * rewrite elem_of_nil. split; [done|]. by intros (_ & _ & [?|?]).
  - rewrite elem_of_nil. split; [done|]. intros (? & _). lia.
Qed.

(** The entries of [component_entries] are the assignments listed by
    [factory_entry]. *)
Lemma factory_entry_iff key comp :
  (key, comp) ∈ component_entries N ih ic ↔ factory_entry N ih ic key comp.
Proof.
  unfold component_entries. rewrite elem_of_app, list_elem_of_bind. split.
  - intros [Hfix|(c & Hin & Hc%elem_of_range1)]; [by apply fe_fixed|].
    unfold cycle_components in Hin. rewrite !elem_of_app in Hin.
    destruct Hin as [Hin|[Hin|[Hin|[Hin|Hin]]]].
    + apply elem_of_cons in Hin as [[= -> ->]|Hin]; [by apply fe_cycle_closer|].
      apply list_elem_of_singleton in Hin as [= -> ->]. by apply fe_valve.
    + case_bool_decide; [|by apply elem_of_nil in Hin].
      apply list_elem_of_singleton in Hin as [= -> ->].
      apply fe_heat_exchanger. lia.
    + case_bool_decide as HN; [|by apply elem_of_nil in Hin].
      apply list_elem_of_singleton in Hin as [= -> ->]. subst c.
      apply fe_condenser. lia.
    + unfold compression_components in Hin.
      destruct (ic !! c) as [e|] eqn:He.
      * apply list_elem_of_bind in Hin as (i & Hin & Hi%elem_of_range1).
        apply elem_of_intercooler_stage in Hin
          as [(Hle & [= -> ->] & Ht)|[= -> ->]].
        -- eapply fe_intercooler; [done|done|lia|].
           destruct Ht as [Ht|Ht]; rewrite Ht; simpl; auto.
        -- eapply fe_stage_compressor; [done|done|lia].
      * apply list_elem_of_singleton in Hin as [= -> ->].
        by apply fe_compressor.
    + unfold int_heatex_components in Hin.
      destruct (ih !! c) as [[t|ts]|] eqn:Hih.
      * apply list_elem_of_singleton in Hin as [= -> ->].
        apply fe_int_heatex; [done|]. by left.
      * apply list_elem_of_fmap in Hin as (t & [= -> ->] & Ht).
        apply fe_int_heatex; [done|]. right. by exists ts.
      * by apply elem_of_nil in Hin.
  - intros Hfe. destruct Hfe as
      [key comp Hfix|c Hc|c Hc|c Hc|HN|c e i cls Hc He Hi Ht|c e i Hc He Hi
      |c Hc He|c t Hc Hih].
    + by left.
    + right. exists c. rewrite elem_of_range1. split; [|done].
      unfold cycle_components. rewrite !elem_of_app. left. by left.
    + right. exists c. rewrite elem_of_range1. split; [|done].
      unfold cycle_components. rewrite !elem_of_app. left. right. by left.
    + right. exists c. rewrite elem_of_range1. split; [|lia].
      unfold cycle_components. rewrite !elem_of_app. right. left.
      rewrite bool_decide_true by lia. by left.
    + right. exists N. rewrite elem_of_range1. split; [|lia].
      unfold cycle_components. rewrite !elem_of_app. right. right. left.
      rewrite bool_decide_true by done. by left.
    + right. exists c. rewrite elem_of_range1. split; [|done].
      unfold cycle_components. rewrite !elem_of_app. do 3 right. left.
      unfold compression_components. rewrite He.
      apply list_elem_of_bind. exists i. rewrite elem_of_range1.
      split; [|lia]. apply elem_of_intercooler_stage. left.
      split; [lia|]. destruct Ht as [[Ht ->]|[Ht ->]]; rewrite Ht; simpl; auto.
    + right. exists c. rewrite elem_of_range1. split; [|done].
      unfold cycle_components. rewrite !elem_of_app. do 3 right. left.
      unfold compression_components. rewrite He.
      apply list_elem_of_bind. exists i. rewrite elem_of_range1.
      split; [|lia]. apply elem_of_intercooler_stage. by right.
    + right. exists c. rewrite elem_of_range1. split; [|done].
      unfold cycle_components. rewrite !elem_of_app. do 3 right. left.
      unfold compression_components. rewrite He. by left.
    + right. exists c. rewrite elem_of_range1. split; [|done].
      unfold cycle_components. rewrite !elem_of_app. do 4 right.
      unfold int_heatex_components.
      destruct Hih as [->|(ts & -> & Ht)]; [by left|].
      apply list_elem_of_fmap. by exists t.
Qed.

(** An assignment made by the factory puts its key in the table. *)
Lemma factory_entry_known key comp :
  factory_entry N ih ic key comp →
  is_Some (assign_all ∅ (component_entries N ih ic) !! key).
Proof.
  intros Hfe%factory_entry_iff. apply lookup_assign_all_is_Some.
  apply list_elem_of_fmap. by exists (key, comp).
Qed.

(** What is found in the table was assigned by the factory. *)
Lemma lookup_components_entry key comp :
  assign_all ∅ (component_entries N ih ic) !! key = Some comp →
  factory_entry N ih ic key comp.
Proof.
  intros [Hin|Hempty]%lookup_assign_all_Some; [by apply factory_entry_iff|].
  by rewrite lookup_empty in Hempty.
Qed.

Lemma lookup_components_None key :
  (∀ comp, ¬ factory_entry N ih ic key comp) →
  assign_all ∅ (component_entries N ih ic) !! key = None.
Proof.
  intros Hno. rewrite lookup_assign_all_notin; [apply lookup_empty|].
  intros ([key' comp] & -> & Hin%factory_entry_iff)%list_elem_of_fmap.
  by eapply Hno.
Qed.

Lemma lookup_components_Some key comp :
  factory_entry N ih ic key comp →
  (∀ comp', factory_entry N ih ic key comp' → comp' = comp) →
  assign_all ∅ (component_entries N ih ic) !! key = Some comp.
Proof.
  intros Hfe Huniq. apply lookup_assign_all_agree; [by apply factory_entry_iff|].
  intros comp' Hin%factory_entry_iff. by apply Huniq.
Qed.
End factory_facts.

(** ** The wiring *)

Lemma lookup_connections_unique comps ws w :
  w ∈ ws →
  (∀ w', w' ∈ ws → w_label w' = w_label w → w' = w) →
  assign_all (∅ : gmap string Connection)
    ((λ w, (w_label w, connection_of comps w)) <$> ws) !! w_label w
  = Some (connection_of comps w).
Proof.
  intros Hin Huniq. apply lookup_assign_all_agree.
  - apply list_elem_of_fmap. by exists w.
  - intros conn (w' & [= Hl ->] & Hin')%list_elem_of_fmap.
    by rewrite (Huniq w' Hin').
Qed.

Section chains.
Variable N : Z.
Variable comps : gmap string Component.

(** The cold-side chain only uses components that exist, provided the
    units it strings together do. *)
Lemma cold_chain_wirable cycle todo last :
  is_Some (comps !! "Evaporator 1") →
  (cycle ≠ 1 →
   is_Some (comps !! ("Heat Exchanger " +:+ Py.str (cycle - 1) +:+ "_"
                        +:+ Py.str cycle))) →
  Forall (λ s, s ≠ 0 ∧
               is_Some (comps !! ("Internal Heat Exchanger " +:+ Py.str s
                                    +:+ "_" +:+ Py.str cycle))) todo →
  (∀ s, last = Some s →
        s ≠ 0 ∧ is_Some (comps !! ("Internal Heat Exchanger " +:+ Py.str s
                                     +:+ "_" +:+ Py.str cycle))) →
  Forall (wirable comps) (cold_chain cycle last todo).1
  ∧ ∀ s, (cold_chain cycle last todo).2 = Some s →
         s ≠ 0 ∧ is_Some (comps !! ("Internal Heat Exchanger " +:+ Py.str s
                                      +:+ "_" +:+ Py.str cycle)).
Proof.
  intros Hevap Hhx Htodo. revert last.
  induction Htodo as [|s todo [Hs0 Hs] Htodo IH]; intros last Hlast; [done|].
  cbn [cold_chain].
  destruct (IH (Some s)) as [IHws IHfinal].
  { by intros s' [= <-]. }
  destruct (cold_chain cycle (Some s) todo) as [ws final]. simpl in *.
  split; [|done]. apply Forall_cons. split; [|done].
  destruct last as [s'|]; simpl.
  - destruct (Hlast s' eq_refl) as [Hs'0 Hs'].
    rewrite bool_decide_false by done. by split.
  - case_bool_decide as Hc; split; simpl; auto.
Qed.

Lemma cold_chain_not_stage cycle todo last :
  Forall (λ w, is_stage_label (w_label w) = false)
    (cold_chain cycle last todo).1.
Proof.
  revert last. induction todo as [|s todo IH]; intros last; [done|].
  cbn [cold_chain]. specialize (IH (Some s)).
  destruct (cold_chain cycle (Some s) todo) as [ws final]. simpl in *.
  apply Forall_cons. split; [|done].
  destruct (Py.not_ last); [case_bool_decide|]; done.
Qed.

(** The hot-side chain only uses components that exist, provided the
    units it strings together do. *)
Lemma hot_chain_wirable cycle todo last :
  (cycle = N → is_Some (comps !! ("Condenser " +:+ Py.str cycle))) →
  (cycle ≠ N →
   is_Some (comps !! ("Heat Exchanger " +:+ Py.str cycle +:+ "_"
                        +:+ Py.str (cycle + 1)))) →
  Forall (λ x, is_Some (comps !! x)) todo →
  (last = "" ∨ is_Some (comps !! last)) →
  Forall (wirable comps) (hot_chain N cycle last todo).1
  ∧ ((hot_chain N cycle last todo).2 = ""
     ∨ is_Some (comps !! (hot_chain N cycle last todo).2)).
Proof.
  intros Hcond Hhx Htodo. revert last.
  induction Htodo as [|x todo Hx Htodo IH]; intros last Hlast; [done|].
  cbn [hot_chain].
  destruct (IH x) as [IHws IHfinal]; [by right|].
  destruct (hot_chain N cycle x todo) as [ws final]. simpl in *.
  split; [|done]. apply Forall_cons. split; [|done].
  destruct (String.eqb_spec last "") as [->|Hne].
  - case_bool_decide; split; simpl; auto.
  - destruct Hlast as [?|Hlast]; [done|]. by split.
Qed.

Lemma hot_chain_not_stage cycle todo last :
  Forall (λ w, is_stage_label (w_label w) = false)
    (hot_chain N cycle last todo).1.
Proof.
  revert last. induction todo as [|x todo IH]; intros last; [done|].
  cbn [hot_chain]. specialize (IH x).
  destruct (hot_chain N cycle x todo) as [ws final]. simpl in *.
  apply Forall_cons. split; [|done].
  destruct (String.eqb last ""); [case_bool_decide|]; done.
Qed.

Lemma closing_wiring_not_stage cycle last :
  is_stage_label (w_label (closing_wiring N cycle last)) = false.
Proof.
  unfold closing_wiring.
  destruct (String.eqb last ""); [case_bool_decide|]; done.
Qed.
End chains.

(** ** The components that the wiring looks up *)

(** Case analysis on an entry of [fixed_components]. *)
Ltac inv_fixed H :=
  unfold fixed_components in H;
  repeat (apply elem_of_cons in H as [H|H]; [injection H as ? ?|]);
  [..|by apply elem_of_nil in H].

(** Case analysis on an assignment of the factory whose key is known. *)
Ltac inv_entry H :=
  let H' := fresh in
  inversion H as [?? H'| | | | | | | |]; subst; [inv_fixed H'|..].

Ltac same_entry :=
  repeat match goal with
  | H1 : ?x = Some _, H2 : ?x = Some _ |- _ =>
      rewrite H1 in H2; injection H2 as <-
  | H1 : ?x = Some _, H2 : ?x = None |- _ =>
      rewrite H1 in H2; discriminate H2
  end.

Section built_components.
Variable N : Z.
Variable ih : gmap Z heatex_value.
Variable ic : gmap Z intercooler_value.
Local Abbreviation comps := (assign_all ∅ (component_entries N ih ic)).

Lemma fixed_known key comp :
  (key, comp) ∈ fixed_components → is_Some (comps !! key).
Proof. intros Hin. eapply factory_entry_known. by apply fe_fixed. Qed.

Lemma evaporator_known : is_Some (comps !! "Evaporator 1").
Proof. eapply fixed_known. do 3 right. left. Qed.

Lemma cycle_closer_known c :
  1 ≤ c ≤ N → is_Some (comps !! ("Cycle Closer " +:+ Py.str c)).
Proof. intros Hc. eapply factory_entry_known. by apply fe_cycle_closer. Qed.

Lemma valve_known c :
  1 ≤ c ≤ N → is_Some (comps !! ("Valve " +:+ Py.str c)).
Proof. intros Hc. eapply factory_entry_known. by apply fe_valve. Qed.

Lemma heat_exchanger_below_known c :
  2 ≤ c ≤ N →
  is_Some (comps !! ("Heat Exchanger " +:+ Py.str (c - 1) +:+ "_" +:+ Py.str c)).
Proof. intros Hc. eapply factory_entry_known. by apply fe_heat_exchanger. Qed.

Lemma heat_exchanger_above_known c :
  1 ≤ c < N →
  is_Some (comps !! ("Heat Exchanger " +:+ Py.str c +:+ "_" +:+ Py.str (c + 1))).
Proof.
  intros Hc. replace c with (c + 1 - 1) at 1 by lia.
  apply heat_exchanger_below_known. lia.
Qed.

Lemma condenser_known :
  1 ≤ N → is_Some (comps !! ("Condenser " +:+ Py.str N)).
Proof. intros HN. eapply factory_entry_known. by apply fe_condenser. Qed.

Lemma compressor_known c :
  1 ≤ c ≤ N → ic !! c = None →
  is_Some (comps !! ("Compressor " +:+ Py.str c)).
Proof. intros Hc He. eapply factory_entry_known. by apply fe_compressor. Qed.

Lemma int_heatex_known c t :
  1 ≤ c ≤ N → targets ih t c = true →
  is_Some (comps !! ("Internal Heat Exchanger " +:+ Py.str c +:+ "_"
                       +:+ Py.str t)).
Proof.
  intros Hc Ht. eapply factory_entry_known. apply fe_int_heatex; [done|].
  unfold targets in Ht. destruct (ih !! c) as [[t'|ts]|]; [| |done].
  - left. by apply bool_decide_eq_true in Ht as ->.
  - right. exists ts. split; [done|]. by apply bool_decide_eq_true in Ht.
Qed.

(** The compressor of stage [i] of an intercooled cycle is stored under
    the key with a hyphen and carries the label with an underscore. *)
Lemma stage_compressor_lookup c e i :
  1 ≤ c ≤ N → ic !! c = Some e → 1 ≤ i ≤ amount e + 1 →
  comps !! ("Compressor " +:+ Py.str c +:+ "-" +:+ Py.str i)
  = Some (mkComponent Compressor
            ("Compressor " +:+ Py.str c +:+ "_" +:+ Py.str i)).
Proof.
  intros Hc He Hi. apply lookup_components_Some.
  { by eapply fe_stage_compressor. }
  intros comp' Hfe. inv_entry Hfe; label_eq; done.
Qed.

Lemma intercooler_lookup c e i :
  1 ≤ c ≤ N → ic !! c = Some e → 1 ≤ i ≤ amount e →
  type e = "HeatExchanger" ∨ type e = "HeatExchangerSimple" →
  comps !! ("Intercooler " +:+ Py.str c +:+ "-" +:+ Py.str i)
  = Some (mkComponent
            (if String.eqb (type e) "HeatExchanger" then HeatExchanger
             else HeatExchangerSimple)
            ("Intercooler " +:+ Py.str c +:+ "-" +:+ Py.str i)).
Proof.
  intros Hc He Hi Ht. apply lookup_components_Some.
  { eapply fe_intercooler; [done..|].
    destruct Ht as [Ht|Ht]; rewrite Ht; simpl; auto. }
  intros comp' Hfe. inv_entry Hfe; label_eq; same_entry.
  match goal with
  | H : _ ∨ _ |- _ => destruct H as [[Ht' ->]|[Ht' ->]]; by rewrite Ht'
  end.
Qed.

Lemma condenser_lookup :
  1 ≤ N →
  comps !! ("Condenser " +:+ Py.str N)
  = Some (mkComponent Condenser ("Condenser " +:+ Py.str N)).
Proof.
  intros HN. apply lookup_components_Some; [by apply fe_condenser|].
  intros comp' Hfe. inv_entry Hfe; label_eq; done.
Qed.

Lemma heat_exchanger_above_lookup c :
  1 ≤ c < N →
  comps !! ("Heat Exchanger " +:+ Py.str c +:+ "_" +:+ Py.str (c + 1))
  = Some (mkComponent HeatExchanger
            ("Heat Exchanger " +:+ Py.str c +:+ "_" +:+ Py.str (c + 1))).
Proof.
  intros Hc. apply lookup_components_Some.
  { replace c with (c + 1 - 1) at 1 3 by lia. apply fe_heat_exchanger. lia. }
  intros comp' Hfe. inv_entry Hfe; label_eq.
  match goal with
  | |- context [Py.str (?a - 1 + 1)] => by replace (a - 1 + 1) with a by lia
  end.
Qed.

(** The keys of an intercooled cycle are those of its stages and no
    others. *)
Lemma stage_compressor_known_iff c e i :
  1 ≤ c ≤ N → ic !! c = Some e →
  is_Some (comps !! ("Compressor " +:+ Py.str c +:+ "-" +:+ Py.str i))
  ↔ 1 ≤ i ≤ amount e + 1.
Proof.
  intros Hc He. split.
  - intros [comp Hfe%lookup_components_entry].
    inv_entry Hfe; label_eq; same_entry; done.
  - intros Hi. erewrite stage_compressor_lookup by done. by eexists.
Qed.

Lemma intercooler_known_iff c e i :
  1 ≤ c ≤ N → ic !! c = Some e →
  type e = "HeatExchanger" ∨ type e = "HeatExchangerSimple" →
  is_Some (comps !! ("Intercooler " +:+ Py.str c +:+ "-" +:+ Py.str i))
  ↔ 1 ≤ i ≤ amount e.
Proof.
  intros Hc He Ht. split.
  - intros [comp Hfe%lookup_components_entry].
    inv_entry Hfe; label_eq; same_entry; done.
  - intros Hi. erewrite intercooler_lookup by done. by eexists.
Qed.


End built_components.

(** ** The wiring of a well-formed configuration *)

Lemma int_heatexs_known (comps : gmap string Component) cycle :
  Forall (λ x, is_Some (comps !! x)) (int_heatexs comps cycle).
Proof.
  apply Forall_forall. intros x Hx. unfold int_heatexs, Py.sort_reverse in Hx.
  rewrite merge_sort_Permutation in Hx.
  apply list_elem_of_filter in Hx as [_ Hx].
  apply list_elem_of_fmap in Hx as ([k v] & -> & Hkv).
  apply elem_of_map_to_list in Hkv. by exists v.
Qed.

Lemma elem_of_cycle_int_heatex N ih cycle s :
  s ∈ cycle_int_heatex N ih cycle ↔ 1 ≤ s ≤ N ∧ targets ih cycle s = true.
Proof.
  unfold cycle_int_heatex. rewrite list_elem_of_filter, elem_of_range1.
  rewrite Is_true_true. tauto.
Qed.

Lemma discharge_wiring_stage_label N ic c w :
  discharge_wiring N ic c w → is_stage_label (w_label w) = true.
Proof.
  assert (Hnil : ∀ s, String.prefix "" s = true) by by intros [].
  intros []; unfold is_stage_label; simpl; by rewrite ?Hnil.
Qed.

Section built_topology.
Variable N : Z.
Variable ih : gmap Z heatex_value.
Variable ic : gmap Z intercooler_value.
Hypothesis Hwf : well_formed N ic.
Local Abbreviation comps := (assign_all ∅ (component_entries N ih ic)).




(** The calls on the discharge side are among the calls of
    [generate_topology], and they are all those with a stage label. *)
Lemma discharge_wiring_elem comps' c w :
  1 ≤ c ≤ N → discharge_wiring N ic c w →
  w ∈ topology_wirings N ih ic comps'.
Proof.
  intros Hc Hw. unfold topology_wirings. apply elem_of_app. right.
  apply list_elem_of_bind. exists c. rewrite elem_of_range1. split; [|done].
  unfold cycle_wirings. rewrite !elem_of_app. do 3 right. left.
  unfold compression_wirings.
  destruct Hw as [e i He Hi|e i He Hi|e He HcN|e He HcN|He HcN|He HcN];
    rewrite He.
  - rewrite !elem_of_app. right. left. apply list_elem_of_bind.
    exists i. rewrite elem_of_range1. split; [|done]. by left.
  - rewrite !elem_of_app. right. left. apply list_elem_of_bind.
    exists i. rewrite elem_of_range1. split; [|done]. right. by left.
  - rewrite !elem_of_app. do 2 right.
    rewrite bool_decide_true by done. by left.
  - rewrite !elem_of_app. do 2 right.
    rewrite bool_decide_false by done. by left.
  - right. rewrite bool_decide_true by done. by left.
  - right. rewrite bool_decide_false by done. by left.
Qed.

Lemma stage_wiring_discharge comps' w :
  w ∈ topology_wirings N ih ic comps' →
  is_stage_label (w_label w) = true →
  ∃ c, 1 ≤ c ≤ N ∧ discharge_wiring N ic c w.
Proof.
  unfold topology_wirings. rewrite elem_of_app, list_elem_of_bind.
  intros [Hfix|(c & Hin & Hc%elem_of_range1)] Hstage.
  { unfold fixed_wirings in Hfix.
    repeat (apply elem_of_cons in Hfix as [->|Hfix]; [done|]).
    by apply elem_of_nil in Hfix. }
  exists c. split; [done|].
  unfold cycle_wirings in Hin. rewrite !elem_of_app in Hin.
  destruct Hin as [Hin|[Hin|[Hin|[Hin|[Hin|Hin]]]]].
  - by apply list_elem_of_singleton in Hin as ->.
  - case_bool_decide; [|by apply elem_of_nil in Hin].
    by apply list_elem_of_singleton in Hin as ->.
  - pose proof (cold_chain_not_stage c (cycle_int_heatex N ih c) None)
      as Hcold.
    rewrite Forall_forall in Hcold. by rewrite (Hcold w Hin) in Hstage.
  - unfold compression_wirings in Hin.
    destruct (ic !! c) as [e|] eqn:He.
    + rewrite !elem_of_app in Hin. destruct Hin as [Hin|[Hin|Hin]].
      * apply list_elem_of_singleton in Hin as ->.
        destruct (Py.not_ _); [case_bool_decide|]; done.
      * apply list_elem_of_bind in Hin as (i & Hin & Hi%elem_of_range1).
        apply elem_of_cons in Hin as [->|Hin]; [by eapply dw_to_intercooler|].
        apply list_elem_of_singleton in Hin as ->.
        by eapply dw_from_intercooler.
      * apply list_elem_of_singleton in Hin as ->.
        case_bool_decide;
          [by eapply dw_staged_to_condenser
          |by eapply dw_staged_to_heat_exchanger].
    + apply elem_of_cons in Hin as [->|Hin].
      * destruct (Py.not_ _); [case_bool_decide|]; done.
      * apply list_elem_of_singleton in Hin as ->.
        case_bool_decide;
          [by apply dw_single_to_condenser
          |by apply dw_single_to_heat_exchanger].
  - pose proof (hot_chain_not_stage N c (int_heatexs comps' c) "") as Hhot.
    rewrite Forall_forall in Hhot. by rewrite (Hhot w Hin) in Hstage.
  - apply list_elem_of_singleton in Hin as ->.
    by rewrite closing_wiring_not_stage in Hstage.
Qed.

(** Two calls on the discharge side with the same label are the same
    call. *)
Lemma discharge_wiring_unique c c' w w' :
  1 ≤ c ≤ N → 1 ≤ c' ≤ N →
  discharge_wiring N ic c w → discharge_wiring N ic c' w' →
  w_label w' = w_label w → w' = w.
Proof.
  intros Hc Hc' Hw Hw' Hl. destruct Hwf as [_ Hic].
  destruct Hw as [e i He Hi|e i He Hi|e He HcN|e He HcN|He HcN|He HcN];
    destruct Hw' as [e' i' He' Hi'|e' i' He' Hi'|e' He' HcN'|e' He' HcN'
                    |He' HcN'|He' HcN'];
    try (pose proof (Hic c e Hc He) as [? _]);
    try (pose proof (Hic c' e' Hc' He') as [? _]);
    simpl in Hl; label_eq; same_entry; done.
Qed.

(** Hence the connection table holds, under the label of a call on the
    discharge side, the connection that this call makes. *)
Lemma discharge_connection c w :
  1 ≤ c ≤ N → discharge_wiring N ic c w →
  assign_all (∅ : gmap string Connection)
    ((λ w, (w_label w, connection_of comps w))
       <$> topology_wirings N ih ic comps) !! w_label w
  = Some (connection_of comps w).
Proof.
  intros Hc Hw. apply lookup_connections_unique.
  - by eapply discharge_wiring_elem.
  - intros w' Hin Hl.
    destruct (stage_wiring_discharge comps w' Hin) as (c' & Hc' & Hw').
    { rewrite Hl. by eapply discharge_wiring_stage_label. }
    exact (discharge_wiring_unique c c' w w' Hc Hc' Hw Hw' Hl).
Qed.

End built_topology.

(** ** Configurations that agree on the cycles *)

Lemma filter_ext_Forall {A} (P Q : A → Prop)
    `{!∀ x, Decision (P x), !∀ x, Decision (Q x)} (l : list A) :
  Forall (λ x, P x ↔ Q x) l → filter P l = filter Q l.
Proof.
  induction 1 as [|x l Hx _ IH]; [done|].
  rewrite !filter_cons, IH.
  destruct (decide (P x)) as [HP|HP], (decide (Q x)) as [HQ|HQ];
    try done; tauto.
Qed.

Lemma lookup_in_range {V} N (d : gmap Z V) c :
  1 ≤ c ≤ N → in_range N d !! c = d !! c.
Proof.
  intros Hc. unfold in_range. destruct (d !! c) as [v|] eqn:Hd.
  - by apply map_lookup_filter_Some_2.
  - apply map_lookup_filter_None_2. by left.
Qed.

Section agree.
Variable N : Z.
Variables ih ih' : gmap Z heatex_value.
Variables ic ic' : gmap Z intercooler_value.
Hypothesis Hih : ∀ c, 1 ≤ c ≤ N → ih !! c = ih' !! c.
Hypothesis Hic : ∀ c, 1 ≤ c ≤ N → ic !! c = ic' !! c.

Lemma component_entries_agree :
  component_entries N ih ic = component_entries N ih' ic'.
Proof.
  unfold component_entries. f_equal. apply Forall_bind_ext, Forall_forall.
  intros c Hc%elem_of_range1. unfold cycle_components.
  unfold compression_components, int_heatex_components.
  by rewrite (Hih c Hc), (Hic c Hc).
Qed.

Lemma cycle_int_heatex_agree cycle :
  cycle_int_heatex N ih cycle = cycle_int_heatex N ih' cycle.
Proof.
  unfold cycle_int_heatex. apply filter_ext_Forall, Forall_forall.
  intros s Hs%elem_of_range1. unfold targets. by rewrite (Hih s Hs).
Qed.

Lemma topology_wirings_agree comps :
  topology_wirings N ih ic comps = topology_wirings N ih' ic' comps.
Proof.
  unfold topology_wirings. f_equal. apply Forall_bind_ext, Forall_forall.
  intros c Hc%elem_of_range1. unfold cycle_wirings.
  rewrite cycle_int_heatex_agree. unfold compression_wirings.
  by rewrite (Hic c Hc).
Qed.

Lemma init_agree : same_outcome (init N ih ic) (init N ih' ic').
Proof.
  unfold init, generate_topology, generate_components.
  cbn [nr_cycles int_heatex intercooler components connections nw].
  rewrite component_entries_agree, topology_wirings_agree.
  rewrite (set_conns_config _ N ih ic N ih' ic').
  destruct (set_conns _ _) as [hp|key|e|l]; simpl; done.
Qed.
End agree.

(** ** Counting: no internal heat exchanger, no intercooler *)

Lemma fmap_bind {A B C} (g : B → C) (f : A → list B) (l : list A) :
  g <$> (l ≫= f) = l ≫= λ x, g <$> f x.
Proof.
  induction l as [|x l IH]; [done|]. by rewrite !bind_cons, fmap_app, IH.
Qed.

Lemma filter_none {A} (P : A → Prop) `{!∀ x, Decision (P x)} (l : list A) :
  Forall (λ x, ¬ P x) l → filter P l = [].
Proof.
  induction 1 as [|x l Hx _ IH]; [done|].
  by rewrite filter_cons, decide_False.
Qed.

(** The total length of the lists made for the cycles 1 to [m], when the
    first cycle gives [a] elements and each later cycle gives [b]. *)
Lemma length_bind_cycles {A} (f : Z → list A) (a b m : nat) :
  (∀ c, 1 ≤ c ≤ Z.of_nat m →
        length (f c) = if decide (c = 1) then a else b) →
  length (Py.range1 (Z.of_nat m) ≫= f)
  = match m with O => O | S m' => (a + m' * b)%nat end.
Proof.
  unfold Py.range1. induction m as [|m IH]; intros Hf; [done|].
  rewrite seqZ_S, bind_app, length_app, bind_singleton, IH by (intros; apply Hf; lia).
  rewrite Hf by lia. case_decide; destruct m as [|m]; simpl in *; lia.
Qed.

(** Case analysis on the membership of a label in a list written out with
    [++], [::] and [if bool_decide _ then _ else _]. *)
Ltac split_in H :=
  repeat first
    [ apply elem_of_nil in H; destruct H
    | apply elem_of_app in H as [H|H]
    | apply elem_of_cons in H as [H|H]
    | match type of H with
      | _ ∈ (if bool_decide ?P then _ else _) =>
          destruct (decide P);
          [rewrite (bool_decide_true P) in H by done
          |rewrite (bool_decide_false P) in H by done]
      end ].

Lemma range1_split N :
  1 ≤ N → Py.range1 N = Py.range1 (Z.of_nat (Z.to_nat (N - 1))) ++ [N].
Proof.
  intros HN. unfold Py.range1.
  replace N with (Z.of_nat (Z.to_nat (N - 1)) + 1) at 1 by lia.
  rewrite seqZ_app by lia. f_equal.
  rewrite seqZ_cons, seqZ_nil by lia. f_equal. lia.
Qed.

Section counts.
Variable N : Z.
Hypothesis HN : 1 ≤ N.
Local Abbreviation comps := (assign_all ∅ (component_entries N ∅ ∅)).

Lemma well_formed_empty : well_formed N ∅.
Proof. split; [done|]. intros c e _ He. by rewrite lookup_empty in He. Qed.

Lemma cycle_keys_plain c :
  (cycle_components N ∅ ∅ c).*1
  = [ "Cycle Closer " +:+ Py.str c; "Valve " +:+ Py.str c ]
    ++ (if bool_decide (c ≠ 1)
        then [ "Heat Exchanger " +:+ Py.str (c - 1) +:+ "_" +:+ Py.str c ]
        else [])
    ++ (if bool_decide (c = N) then [ "Condenser " +:+ Py.str c ] else [])
    ++ [ "Compressor " +:+ Py.str c ].
Proof.
  unfold cycle_components, compression_components, int_heatex_components.
  rewrite !lookup_empty, !fmap_app, app_nil_r.
  by repeat case_bool_decide.
Qed.

Lemma component_keys_NoDup : NoDup (component_entries N ∅ ∅).*1.
Proof.
  unfold component_entries. rewrite fmap_app, fmap_bind.
  apply NoDup_app. split; [|split].
  - by apply (bool_decide_unpack _).
  - intros key Hfix (c & Hin & Hc%elem_of_range1)%list_elem_of_bind.
    rewrite cycle_keys_plain in Hin.
    unfold fixed_components in Hfix. simpl in Hfix.
    split_in Hfix; subst key; split_in Hin; label_eq.
  - apply NoDup_bind.
    + intros c1 c2 key Hc1%elem_of_range1 Hc2%elem_of_range1 Hin1 Hin2.
      rewrite cycle_keys_plain in Hin1, Hin2.
      split_in Hin1; subst key; split_in Hin2; label_eq; lia.
    + intros c Hc%elem_of_range1. rewrite cycle_keys_plain.
      repeat case_bool_decide; simpl;
        repeat (apply NoDup_cons_2; [rewrite ?not_elem_of_cons; repeat split;
                                      try apply not_elem_of_nil; intros Heq;
                                      label_eq|]);
        apply NoDup_nil_2.
    + apply NoDup_seqZ.
Qed.

Lemma component_entries_length :
  length (component_entries N ∅ ∅) = Z.to_nat (4 * N + 7).
Proof.
  unfold component_entries. rewrite length_app.
  rewrite range1_split, bind_app, length_app, bind_singleton by done.
  rewrite (length_bind_cycles _ 3 4).
  - rewrite <-(length_fmap fst (cycle_components _ _ _ _)), cycle_keys_plain.
    rewrite (bool_decide_true (N = N)) by done.
    destruct (Z.to_nat (N - 1)) as [|m] eqn:Hm.
    + rewrite (bool_decide_false (N ≠ 1)) by lia. simpl. lia.
    + rewrite (bool_decide_true (N ≠ 1)) by lia. simpl. lia.
  - intros c Hc.
    rewrite <-(length_fmap fst (cycle_components _ _ _ _)), cycle_keys_plain.
    rewrite (bool_decide_false (c = N)) by lia.
    destruct (decide (c = 1)) as [->|Hc1].
    + by rewrite (bool_decide_false (1 ≠ 1)) by lia.
    + by rewrite (bool_decide_true (c ≠ 1)) by done.
Qed.

(** No key contains [Internal Heat Exchanger], so the hot-side chains are
    empty. *)
Lemma int_heatexs_plain c : int_heatexs comps c = [].
Proof.
  unfold int_heatexs. rewrite filter_none; [done|].
  apply Forall_forall. intros key Hkey Hcontains.
  apply list_elem_of_fmap in Hkey as ([key' comp] & -> & Hkey).
  apply elem_of_map_to_list, lookup_components_entry in Hkey. simpl in *.
  apply Is_true_true in Hcontains. simpl in Hcontains.
  apply contains_occurs in Hcontains.
  assert (HI : is_digit "I" = false) by done.
  destruct Hkey as
    [key comp Hfix|c' Hc'|c' Hc'|c' Hc'|_|c' e' i' cls Hc' He' Hi' Ht
    |c' e' i' Hc' He' Hi'|c' Hc' He'|c' t Hc' Hih];
    try (by rewrite lookup_empty in He');
    try (by destruct Hih as [Hih|(ts & Hih & _)]; rewrite lookup_empty in Hih);
    [unfold fixed_components in Hfix; split_in Hfix;
     injection Hfix as -> _; done|..];
    rewrite ?occurs_app, ?occurs_str in Hcontains by (done || lia);
    done.
Qed.

Lemma cycle_int_heatex_plain c : cycle_int_heatex N ∅ c = [].
Proof.
  unfold cycle_int_heatex. apply filter_none, Forall_forall.
  intros s _. unfold targets. rewrite lookup_empty. by intros [].
Qed.

Lemma cycle_labels_plain c :
  w_label <$> cycle_wirings N ∅ ∅ comps c
  = [ "cc" +:+ Py.str c +:+ "_to_valve" +:+ Py.str c ]
    ++ (if bool_decide (c ≠ 1)
        then [ "valve" +:+ Py.str c +:+ "_to_heat_ex" +:+ Py.str (c - 1)
                 +:+ "_" +:+ Py.str c ]
        else [])
    ++ [ if bool_decide (c = 1)
         then "evaporator1_to_comp" +:+ Py.str c
         else "heatex" +:+ Py.str (c - 1) +:+ "_" +:+ Py.str c
                +:+ "_to_comp" +:+ Py.str c;
         if bool_decide (c = N)
         then "comp" +:+ Py.str c +:+ "_to_cond" +:+ Py.str c
         else "comp" +:+ Py.str c +:+ "_to_heatex" +:+ Py.str c +:+ "_"
                +:+ Py.str (c + 1);
         if bool_decide (c = N)
         then "cond" +:+ Py.str c +:+ "_to_cc" +:+ Py.str c
         else "heatex" +:+ Py.str c +:+ "_" +:+ Py.str (c + 1)
                +:+ "_to_cc" +:+ Py.str c ].
Proof.
  unfold cycle_wirings, compression_wirings, closing_wiring.
  rewrite int_heatexs_plain, cycle_int_heatex_plain, lookup_empty.
  cbn [cold_chain hot_chain fst snd Py.not_ String.eqb].
  by destruct (bool_decide (c ≠ 1)), (bool_decide (c = 1)),
    (bool_decide (c = N)).
Qed.

Lemma wiring_labels_NoDup :
  NoDup (w_label <$> topology_wirings N ∅ ∅ comps).
Proof.
  unfold topology_wirings. rewrite fmap_app, fmap_bind.
  apply NoDup_app. split; [|split].
  - unfold fixed_wirings. cbn [fmap list_fmap w_label].
    repeat (apply NoDup_cons_2; [rewrite ?not_elem_of_cons; repeat split;
                                  try apply not_elem_of_nil; intros Heq;
                                  label_eq|]);
      apply NoDup_nil_2.
  - intros l Hfix (c & Hin & Hc%elem_of_range1)%list_elem_of_bind.
    rewrite cycle_labels_plain in Hin.
    unfold fixed_wirings in Hfix. cbn [fmap list_fmap w_label] in Hfix.
    split_in Hfix; subst l; split_in Hin;
      repeat case_bool_decide; label_eq.
  - apply NoDup_bind.
    + intros c1 c2 l Hc1%elem_of_range1 Hc2%elem_of_range1 Hin1 Hin2.
      rewrite cycle_labels_plain in Hin1, Hin2.
      split_in Hin1; subst l; split_in Hin2;
        repeat case_bool_decide; label_eq; lia.
    + intros c Hc%elem_of_range1. rewrite cycle_labels_plain.
      repeat case_bool_decide; simpl;
        repeat (apply NoDup_cons_2; [rewrite ?not_elem_of_cons; repeat split;
                                      try apply not_elem_of_nil; intros Heq;
                                      label_eq|]);
        apply NoDup_nil_2.
    + apply NoDup_seqZ.
Qed.

Lemma topology_wirings_length :
  length (topology_wirings N ∅ ∅ comps) = Z.to_nat (5 * N + 7).
Proof.
  unfold topology_wirings. rewrite length_app.
  assert (Hr : Py.range1 N = Py.range1 (Z.of_nat (Z.to_nat N)))
    by (f_equal; lia).
  rewrite Hr, (length_bind_cycles _ 4 5).
  - destruct (Z.to_nat N) as [|m] eqn:Hm; [lia|]. simpl. lia.
  - intros c Hc.
    rewrite <-(length_fmap w_label (cycle_wirings _ _ _ _ _)),
      cycle_labels_plain.
    destruct (decide (c = 1)) as [->|Hc1].
    + by rewrite (bool_decide_false (1 ≠ 1)) by lia.
    + by rewrite (bool_decide_true (c ≠ 1)) by done.
Qed.

(** The sizes of the two tables that the assignments and the calls of a
    heat pump without internal heat exchangers and intercoolers make. *)
Lemma plain_sizes :
  size comps = Z.to_nat (4 * N + 7)
  ∧ size (assign_all (∅ : gmap string Connection)
            ((λ w, (w_label w, connection_of comps w))
               <$> topology_wirings N ∅ ∅ comps))
    = Z.to_nat (5 * N + 7).
Proof.
  split.
  - rewrite size_assign_all by apply component_keys_NoDup.
    apply component_entries_length.
  - rewrite size_assign_all.
    + rewrite length_fmap. apply topology_wirings_length.
    + rewrite <-list_fmap_compose. apply wiring_labels_NoDup.
Qed.
End counts.

(** ** When the construction succeeds *)

Section buildable_topology.
Variable N : Z.
Variable ih : gmap Z heatex_value.
Variable ic : gmap Z intercooler_value.
Local Abbreviation comps := (assign_all ∅ (component_entries N ih ic)).

Lemma intercooler_known_valid c e i :
  1 ≤ c ≤ N → ic !! c = Some e →
  is_Some (comps !! ("Intercooler " +:+ Py.str c +:+ "-" +:+ Py.str i)) →
  1 ≤ i ≤ amount e
  ∧ (type e = "HeatExchanger" ∨ type e = "HeatExchangerSimple").
Proof.
  intros Hc He [comp Hfe%lookup_components_entry].
  inv_entry Hfe; label_eq; same_entry.
  split; [done|].
  match goal with H : _ ∨ _ |- _ => destruct H as [[? _]|[? _]]; auto end.
Qed.

(** The compression stage of a cycle only uses components that exist
    when the entry of the cycle, if any, is sound. *)
Lemma compression_wirings_wirable_gen c last :
  1 ≤ c ≤ N →
  (∀ e, ic !! c = Some e →
        0 ≤ amount e
        ∧ (1 ≤ amount e →
           type e = "HeatExchanger" ∨ type e = "HeatExchangerSimple")) →
  (∀ s, last = Some s →
        s ≠ 0 ∧ is_Some (comps !! ("Internal Heat Exchanger " +:+ Py.str s
                                     +:+ "_" +:+ Py.str c))) →
  Forall (wirable comps) (compression_wirings N ic c last).
Proof.
  intros Hc Hentry Hlast.
  assert (Hfeed : ∀ l l' l'' key,
    is_Some (comps !! key) →
    wirable comps
      (if Py.not_ last then
         if bool_decide (c = 1)
         then Wire l "Evaporator 1" "out2" key "in1"
         else Wire l' ("Heat Exchanger " +:+ Py.str (c - 1) +:+ "_"
                         +:+ Py.str c) "out2" key "in1"
       else Wire l'' ("Internal Heat Exchanger " +:+ Py.fmt last +:+ "_"
                        +:+ Py.str c) "out2" key "in1")).
  { intros l l' l'' key Hkey. destruct last as [s|]; simpl.
    - destruct (Hlast s eq_refl) as [Hs0 Hs].
      rewrite bool_decide_false by done. by split.
    - case_bool_decide; split; simpl; try done.
      + apply evaporator_known.
      + apply heat_exchanger_below_known. lia. }
  assert (Hout : ∀ l l' key,
    is_Some (comps !! key) →
    wirable comps
      (if bool_decide (c = N)
       then Wire l key "out1" ("Condenser " +:+ Py.str c) "in1"
       else Wire l' key "out1"
              ("Heat Exchanger " +:+ Py.str c +:+ "_" +:+ Py.str (c + 1))
              "in1")).
  { intros l l' key Hkey. clear Hfeed.
    case_bool_decide as HcN; split; simpl; try done.
    - subst c. apply condenser_known. lia.
    - apply heat_exchanger_above_known. lia. }
  unfold compression_wirings. destruct (ic !! c) as [e|] eqn:He.
  - destruct (Hentry e eq_refl) as [Hamount Htype].
    apply Forall_app. split; [|apply Forall_app; split].
    + apply Forall_singleton, Hfeed.
      change "-1" with ("-" +:+ Py.str 1).
      apply (stage_compressor_known_iff N ih ic c e 1); [done..|lia].
    + apply Forall_bind, Forall_forall. intros i Hi%elem_of_range1. simpl.
      assert (Hvalid : type e = "HeatExchanger"
                       ∨ type e = "HeatExchangerSimple") by (apply Htype; lia).
      repeat apply Forall_cons_2; [..|apply Forall_nil_2]; split; simpl.
      * apply (stage_compressor_known_iff N ih ic c e i); [done..|lia].
      * by apply (intercooler_known_iff N ih ic c e i).
      * by apply (intercooler_known_iff N ih ic c e i).
      * apply (stage_compressor_known_iff N ih ic c e (i + 1)); [done..|lia].
    + apply Forall_singleton, Hout.
      apply (stage_compressor_known_iff N ih ic c e (amount e + 1));
        [done..|lia].
  - repeat apply Forall_cons_2; [..|apply Forall_nil_2].
    + apply Hfeed. by apply compressor_known.
    + apply Hout. by apply compressor_known.
Qed.

Lemma topology_wirable_gen :
  buildable N ic → Forall (wirable comps) (topology_wirings N ih ic comps).
Proof.
  intros [HN Hic]. unfold topology_wirings. apply Forall_app. split.
  - assert (Hfix : ∀ key comp,
      (key, comp) ∈ fixed_components → is_Some (comps !! key))
      by apply fixed_known.
    unfold fixed_components in Hfix.
    repeat apply Forall_cons_2; [..|apply Forall_nil_2]; split; simpl;
      try (by eapply Hfix; rewrite !elem_of_cons; eauto 10);
      try (by apply condenser_known).
    change "Valve 1" with ("Valve " +:+ Py.str 1). apply valve_known. lia.
  - apply Forall_bind, Forall_forall. intros c Hc%elem_of_range1.
    unfold compose, cycle_wirings.
    destruct (cold_chain_wirable comps c (cycle_int_heatex N ih c) None)
      as [Hcold Hlast].
    { apply evaporator_known. }
    { intros. apply heat_exchanger_below_known. lia. }
    { apply Forall_forall. intros s [Hs Ht]%elem_of_cycle_int_heatex.
      split; [lia|]. by apply int_heatex_known. }
    { done. }
    destruct (hot_chain_wirable N comps c (int_heatexs comps c) "")
      as [Hhot Hfinal].
    { intros ->. apply condenser_known. lia. }
    { intros. apply heat_exchanger_above_known. lia. }
    { apply int_heatexs_known. }
    { by left. }
    repeat (apply Forall_app; split); try done.
    + apply Forall_singleton. split; simpl;
        [by apply cycle_closer_known|by apply valve_known].
    + case_bool_decide; [|done]. apply Forall_singleton. split; simpl.
      * by apply valve_known.
      * apply heat_exchanger_below_known. lia.
    + apply compression_wirings_wirable_gen; [done| |done].
      intros e He. by apply (Hic c e).
    + apply Forall_singleton. unfold closing_wiring.
      destruct (String.eqb_spec (hot_chain N c "" (int_heatexs comps c)).2 "")
        as [Heq|Hne].
      * case_bool_decide as HcN; split; simpl.
        -- subst c. apply condenser_known. lia.
        -- by apply cycle_closer_known.
        -- apply heat_exchanger_above_known. lia.
        -- by apply cycle_closer_known.
      * split; simpl; [by destruct Hfinal|by apply cycle_closer_known].
Qed.

(** The call that feeds the first compressor of an intercooled cycle. *)
Lemma feed_wiring_elem c e :
  1 ≤ c ≤ N → ic !! c = Some e →
  ∃ w, w ∈ topology_wirings N ih ic comps
       ∧ w_comp_in w = "Compressor " +:+ Py.str c +:+ "-" +:+ Py.str 1.
Proof.
  intros Hc He.
  set (last := (cold_chain c None (cycle_int_heatex N ih c)).2).
  assert (Hin : ∀ w, w ∈ compression_wirings N ic c last →
                     w ∈ topology_wirings N ih ic comps).
  { intros w Hw. unfold topology_wirings. apply elem_of_app. right.
    apply list_elem_of_bind. exists c. rewrite elem_of_range1.
    split; [|done]. unfold cycle_wirings. rewrite !elem_of_app.
    do 3 right. by left. }
  unfold compression_wirings in Hin. rewrite He in Hin.
  eexists. split; [apply Hin; apply elem_of_app; left; by left|].
  by destruct (Py.not_ last); [case_bool_decide|].
Qed.

Lemma topology_wirable_buildable :
  Forall (wirable comps) (topology_wirings N ih ic comps) → buildable N ic.
Proof.
  intros Hall. rewrite Forall_forall in Hall.
  assert (HN : 1 ≤ N).
  { destruct (Hall (Wire "valve1_to_evaporator1" "Valve 1" "out1"
                      "Evaporator 1" "in2")) as [[comp Hvalve] _].
    { unfold topology_wirings. apply elem_of_app. left. by left. }
    simpl in Hvalve. apply lookup_components_entry in Hvalve.
    inv_entry Hvalve; label_eq; lia. }
  split; [done|]. intros c e Hc He.
  destruct (feed_wiring_elem c e Hc He) as (w & Hw & Hcomp).
  destruct (Hall w Hw) as [_ Hfirst]. rewrite Hcomp in Hfirst.
  apply (stage_compressor_known_iff N ih ic c e 1 Hc He) in Hfirst.
  split; [lia|]. intros Hamount.
  destruct (Hall _ (discharge_wiring_elem N ih ic comps c _ Hc
                      (dw_to_intercooler N ic c e 1 He ltac:(lia))))
    as [_ Hinter].
  cbn [w_comp_in] in Hinter.
  by destruct (intercooler_known_valid c e 1 Hc He Hinter).
Qed.
End buildable_topology.

(** ** More on [delete_component] *)

Lemma delete_loop_report component items copy log out :
  (foldl (delete_step component) (copy, log, out) items).1.2
  = log ++ ((λ item, del_conns item.2)
              <$> filter (λ item, incident component item.2) items)
  ∧ (foldl (delete_step component) (copy, log, out) items).2
    = out ++ ((λ item, "Connection " +:+ item.1
                         +:+ " succesfully deleted from Heatpump.")
                <$> filter (λ item, incident component item.2) items).
Proof.
  revert copy log out.
  induction items as [|[k c] items IH]; intros copy log out.
  - by rewrite !app_nil_r.
  - cbn [foldl]. unfold delete_step at 2 4. cbn [fst snd].
    rewrite filter_cons. cbn [snd].
    destruct (incident component c) eqn:Hinc.
    + rewrite decide_True by done.
      destruct (IH (delete k copy) (log ++ [del_conns c])
                  (out ++ ["Connection " +:+ k
                             +:+ " succesfully deleted from Heatpump."]))
        as [-> ->].
      by rewrite !fmap_cons, <-!app_assoc.
    + rewrite decide_False by (by intros []). apply IH.
Qed.

Lemma delete_component_found_nw component self c :
  components self !! component = Some c →
  nw (delete_component component self).1
  = nw self ++ ((λ item, del_conns item.2)
                  <$> removed_connections component self)
  ∧ (delete_component component self).2
    = ("Component " +:+ component +:+ " succesfully deleted from Heatpump.")
      :: ((λ item, "Connection " +:+ item.1
                     +:+ " succesfully deleted from Heatpump.")
            <$> removed_connections component self)
  ∧ nr_cycles (delete_component component self).1 = nr_cycles self
  ∧ int_heatex (delete_component component self).1 = int_heatex self
  ∧ intercooler (delete_component component self).1 = intercooler self.
Proof.
  intros Hc. unfold delete_component, removed_connections. rewrite Hc.
  pose proof (delete_loop_report component (map_to_list (connections self))
    (connections self) (nw self)
    ["Component " +:+ component +:+ " succesfully deleted from Heatpump."])
    as [Hlog Hout].
  destruct (foldl _ _ _) as [[copy log] out]. simpl in *. by subst.
Qed.

Lemma elem_of_removed_connections component self l c :
  (l, c) ∈ removed_connections component self
  ↔ connections self !! l = Some c
    ∧ (label (source c) = component ∨ label (target c) = component).
Proof.
  unfold removed_connections.
  rewrite list_elem_of_filter, elem_of_map_to_list. cbn [snd].
  rewrite incident_iff. tauto.
Qed.

Lemma size_filter_items {V} (P : string * V → Prop)
    `{!∀ x, Decision (P x)} (m : gmap string V) :
  size (filter P m) = length (filter P (map_to_list m)).
Proof.
  rewrite map_filter_alt, <-length_map_to_list.
  apply Permutation_length, map_to_list_to_map.
  eapply sublist_NoDup; [apply (NoDup_fst_map_to_list m)|].
  apply fmap_sublist, sublist_filter.
Qed.

Lemma removed_connections_size component self :
  (size (filter (λ kv : string * Connection, ¬ incident component kv.2)
           (connections self))
   + length (removed_connections component self))%nat
  = size (connections self).
Proof.
  unfold removed_connections.
  rewrite size_filter_items, <-(length_map_to_list (connections self)).
  generalize (map_to_list (connections self)). intros items.
  induction items as [|[k c] items IH]; [done|].
  rewrite !filter_cons. cbn [snd].
  destruct (decide (incident component c)) as [Hi|Hi];
    destruct (decide (¬ incident component c)) as [Hn|Hn];
    try done; simpl; lia.
Qed.

Lemma delete_component_intact component self :
  intact self → intact (delete_component component self).1.
Proof.
  intros Hint. destruct (components self !! component) as [comp|] eqn:Hc.
  - destruct (delete_component_found component self comp Hc)
      as [Hcomps Hconns].
    intros l c Hl. rewrite Hconns in Hl. rewrite Hcomps.
    apply map_lookup_filter_Some in Hl as [Hl Hinc]. cbn [snd] in Hinc.
    destruct (Hint l c Hl) as [Hs Ht].
    rewrite incident_iff in Hinc.
    rewrite !lookup_delete_is_Some. naive_solver.
  - unfold delete_component. by rewrite Hc.
Qed.

Lemma delete_components_snoc labels component self :
  delete_components (labels ++ [component]) self
  = (delete_component component (delete_components labels self)).1.
Proof. unfold delete_components. by rewrite foldl_app. Qed.

Lemma delete_component_tables component self :
  components (delete_component component self).1
  = delete component (components self)
  ∧ connections (delete_component component self).1
    = if decide (is_Some (components self !! component))
      then filter (λ kv, ¬ incident component kv.2) (connections self)
      else connections self.
Proof.
  destruct (components self !! component) as [comp|] eqn:Hc.
  - rewrite decide_True by done.
    by apply (delete_component_found component self comp).
  - rewrite decide_False by (by intros [? ?]).
    unfold delete_component. rewrite Hc. simpl.
    by rewrite delete_id.
Qed.

(** ** The built object *)

Section built_object.
Variable N : Z.
Variable ih : gmap Z heatex_value.
Variable ic : gmap Z intercooler_value.
Local Abbreviation comps := (assign_all ∅ (component_entries N ih ic)).
Local Abbreviation conns :=
  (assign_all (∅ : gmap string Connection)
     ((λ w, (w_label w, connection_of comps w))
        <$> topology_wirings N ih ic comps)).

Lemma well_formed_buildable : well_formed N ic → buildable N ic.
Proof.
  intros [HN Hic]. split; [done|]. intros c e Hc He.
  destruct (Hic c e Hc He) as [Hamount Htype]. by split.
Qed.

(** A component is stored under its own label, except for the compressors
    of an intercooled cycle. *)
Lemma factory_entry_label key comp :
  factory_entry N ih ic key comp →
  label comp = key
  ∨ ∃ c e i,
      1 ≤ c ≤ N ∧ ic !! c = Some e ∧ 1 ≤ i ≤ amount e + 1
      ∧ key = stage_compressor_key c i ∧ comp = stage_compressor c i.
Proof.
  intros Hfe.
  destruct Hfe as
    [key comp Hfix|c Hc|c Hc|c Hc|HN|c e i cls Hc He Hi Ht
    |c e i Hc He Hi|c Hc He|c t Hc Hih];
    try (by left).
  - left. inv_fixed Hfix; by subst.
  - right. by exists c, e, i.
Qed.

(** The assignments of the factory to one key store the same object. *)
Lemma factory_entry_functional key comp comp' :
  factory_entry N ih ic key comp → factory_entry N ih ic key comp' →
  comp' = comp.
Proof.
  intros Hfe Hfe'.
  destruct Hfe as
    [key comp Hfix|c Hc|c Hc|c Hc|HN|c e i cls Hc He Hi Ht
    |c e i Hc He Hi|c Hc He|c t Hc Hih];
    [unfold fixed_components in Hfix; split_in Hfix; simplify_eq|..];
    (inversion Hfe' as [?? Hfix'| | | | | | | |]; subst;
     [unfold fixed_components in Hfix'; split_in Hfix'|..]);
    label_eq; same_entry; try done.
  repeat match goal with H : _ ∨ _ |- _ => destruct H as [[? ?]|[? ?]] end;
    subst; congruence.
Qed.

Lemma lookup_components_iff key comp :
  comps !! key = Some comp ↔ factory_entry N ih ic key comp.
Proof.
  split; [apply lookup_components_entry|]. intros Hfe.
  apply lookup_components_Some; [done|]. intros comp' Hfe'.
  by apply (factory_entry_functional key).
Qed.

(** The label of a compressor of an intercooled cycle is not a key. *)
Lemma stage_label_unknown c i :
  1 ≤ c → 0 ≤ i →
  comps !! ("Compressor " +:+ Py.str c +:+ "_" +:+ Py.str i) = None.
Proof.
  intros Hc Hi. apply lookup_components_None. intros comp Hfe.
  inv_entry Hfe; label_eq.
Qed.

(** Every stored connection joins two objects of the component table. *)
Lemma built_connection_objects l conn :
  buildable N ic → conns !! l = Some conn →
  ∃ w, w ∈ topology_wirings N ih ic comps
       ∧ l = w_label w
       ∧ conn = connection_of comps w
       ∧ comps !! w_comp_out w = Some (source conn)
       ∧ comps !! w_comp_in w = Some (target conn).
Proof.
  intros Hb [Hin|Hempty]%lookup_assign_all_Some;
    [|by rewrite lookup_empty in Hempty].
  apply list_elem_of_fmap in Hin as (w & [= -> ->] & Hw).
  pose proof (topology_wirable_gen N ih ic Hb) as Hall.
  rewrite Forall_forall in Hall.
  destruct (Hall w Hw) as [[c_out Hout] [c_in Hin]].
  exists w. repeat split; [done|..]; unfold connection_of; simpl.
  - by rewrite (lookup_total_correct _ _ _ Hout).
  - by rewrite (lookup_total_correct _ _ _ Hin).
Qed.

Lemma built_intact_iff :
  well_formed N ic →
  intact (mkHeatpump N ih ic comps conns
            ((λ w, add_conns (connection_of comps w))
               <$> topology_wirings N ih ic comps))
  ↔ ∀ c, 1 ≤ c ≤ N → ic !! c = None.
Proof.
  intros Hwf. pose proof Hwf as [HN Hic]. unfold intact.
  cbn [components connections]. split.
  - intros Hint c Hc. destruct (ic !! c) as [e|] eqn:He; [exfalso|done].
    destruct (Hic c e Hc He) as [Hamount _].
    destruct (decide (c = N)) as [HcN|HcN].
    + pose proof (discharge_connection N ih ic Hwf c _ Hc
                    (dw_staged_to_condenser N ic c e He HcN)) as Hconn.
      apply Hint in Hconn as [[comp Hsrc] _].
      unfold connection_of in Hsrc. cbn [source w_comp_out] in Hsrc.
      rewrite (lookup_total_correct _ _ _
                 (stage_compressor_lookup N ih ic c e (amount e + 1) Hc He
                    ltac:(lia))) in Hsrc.
      cbn [label] in Hsrc. by rewrite stage_label_unknown in Hsrc by lia.
    + pose proof (discharge_connection N ih ic Hwf c _ Hc
                    (dw_staged_to_heat_exchanger N ic c e He HcN)) as Hconn.
      apply Hint in Hconn as [[comp Hsrc] _].
      unfold connection_of in Hsrc. cbn [source w_comp_out] in Hsrc.
      rewrite (lookup_total_correct _ _ _
                 (stage_compressor_lookup N ih ic c e (amount e + 1) Hc He
                    ltac:(lia))) in Hsrc.
      cbn [label] in Hsrc. by rewrite stage_label_unknown in Hsrc by lia.
  - intros Hplain l conn Hl.
    destruct (built_connection_objects l conn (well_formed_buildable Hwf) Hl)
      as (w & _ & _ & _ & Hout & Hin).
    assert (Hkey : ∀ key comp, comps !! key = Some comp →
                               is_Some (comps !! label comp)).
    { intros key comp Hkey.
      destruct (factory_entry_label key comp
                  (lookup_components_entry N ih ic key comp Hkey))
        as [->|(c & e & i & Hc & He & _)]; [done|].
      by rewrite Hplain in He. }
    split; by eapply Hkey.
Qed.

(** Every stored connection carries its key as label and was handed to
    the network. *)
Lemma stored_connection_registered l conn :
  conns !! l = Some conn →
  conn_label conn = l
  ∧ add_conns conn ∈ ((λ w, add_conns (connection_of comps w))
                        <$> topology_wirings N ih ic comps).
Proof.
  intros [Hin|Hempty]%lookup_assign_all_Some;
    [|by rewrite lookup_empty in Hempty].
  apply list_elem_of_fmap in Hin as (w & [= -> ->] & Hw).
  split; [done|]. apply list_elem_of_fmap. by exists w.
Qed.
(** No two components of the table have the same label. *)
Lemma component_labels_unique key key' comp comp' :
  comps !! key = Some comp → comps !! key' = Some comp' →
  label comp = label comp' → key = key'.
Proof.
  intros Hk Hk' Hl.
  pose proof (lookup_components_entry N ih ic key comp Hk) as Hfe.
  pose proof (lookup_components_entry N ih ic key' comp' Hk') as Hfe'.
  destruct (factory_entry_label key comp Hfe)
    as [<-|(c & e & i & Hc & He & Hi & -> & ->)];
    destruct (factory_entry_label key' comp' Hfe')
      as [<-|(c' & e' & i' & Hc' & He' & Hi' & -> & ->)].
  - done.
  - exfalso. rewrite Hl in Hk. cbn [stage_compressor label] in Hk.
    by rewrite stage_label_unknown in Hk by lia.
  - exfalso. rewrite <-Hl in Hk'. cbn [stage_compressor label] in Hk'.
    by rewrite stage_label_unknown in Hk' by lia.
  - unfold stage_compressor_key. cbn [stage_compressor label] in Hl.
    label_eq. done.
Qed.
End built_object.

(** ** Heat pumps without internal heat exchangers *)

(** Case analysis on the membership of a call in a list written out with
    [++], [::], [≫=] over a range and [if bool_decide _ then _ else _]. *)
Ltac split_calls H :=
  repeat first
    [ apply elem_of_nil in H; destruct H
    | apply elem_of_app in H as [H|H]
    | apply elem_of_cons in H as [H|H]
    | let i := fresh "i" in
      let Hi := fresh "Hi" in
      apply list_elem_of_bind in H as (i & H & Hi%elem_of_range1)
    | match type of H with
      | _ ∈ (if bool_decide ?P then _ else _) =>
          destruct (decide P);
          [rewrite (bool_decide_true P) in H by done
          |rewrite (bool_decide_false P) in H by done]
      end ].

(** Label equations in which the numeral [1] was written out. *)
Ltac label_one :=
  match goal with
  | H : Py.str ?a +:+ ?r = String "1" ?r' |- _ =>
      change (Py.str a +:+ r = Py.str 1 +:+ r') in H;
      apply str_app_inj in H; [destruct H as [? ?]|lia|lia|done|done]
  | H : String "1" ?r' = Py.str ?a +:+ ?r |- _ =>
      change (Py.str 1 +:+ r' = Py.str a +:+ r) in H;
      apply str_app_inj in H; [destruct H as [? ?]|lia|lia|done|done]
  end.

Ltac label_eq1 := repeat (simplify_eq/=; try first [label_one|label_step]).

Section no_int_heatex.
Variable N : Z.
Variable ic : gmap Z intercooler_value.
Hypothesis Hb : buildable N ic.
Local Abbreviation comps := (assign_all ∅ (component_entries N ∅ ic)).

(** No key contains [Internal Heat Exchanger], so the hot-side chains are
    empty. *)
Lemma int_heatexs_none c : int_heatexs comps c = [].
Proof.
  unfold int_heatexs. rewrite filter_none; [done|].
  apply Forall_forall. intros key Hkey Hcontains.
  apply list_elem_of_fmap in Hkey as ([key' comp] & -> & Hkey).
  apply elem_of_map_to_list, lookup_components_entry in Hkey. simpl in *.
  apply Is_true_true in Hcontains.
  assert (HI : is_digit "I" = false) by done.
  destruct Hkey as
    [key comp Hfix|c' Hc'|c' Hc'|c' Hc'|HN|c' e' i' cls Hc' He' Hi' Ht
    |c' e' i' Hc' He' Hi'|c' Hc' He'|c' t Hc' Hih];
    try (by destruct Hih as [Hih|(ts & Hih & _)]; rewrite lookup_empty in Hih);
    [unfold fixed_components in Hfix; split_in Hfix;
     injection Hfix as -> _; by simpl in Hcontains|..];
    simpl in Hcontains;
    apply contains_occurs in Hcontains;
    do 3 (simpl in Hcontains;
          rewrite ?occurs_app, ?occurs_str in Hcontains by (done || lia));
    done.
Qed.

Lemma cycle_int_heatex_none c : cycle_int_heatex N ∅ c = [].
Proof.
  unfold cycle_int_heatex. apply filter_none, Forall_forall.
  intros s _. unfold targets. rewrite lookup_empty. by intros [].
Qed.

Lemma cycle_wirings_none c :
  cycle_wirings N ∅ ic comps c
  = [ Wire ("cc" +:+ Py.str c +:+ "_to_valve" +:+ Py.str c)
        ("Cycle Closer " +:+ Py.str c) "out1"
        ("Valve " +:+ Py.str c) "in1" ]
    ++ (if bool_decide (c ≠ 1) then
          [ Wire ("valve" +:+ Py.str c +:+ "_to_heat_ex"
                    +:+ Py.str (c - 1) +:+ "_" +:+ Py.str c)
              ("Valve " +:+ Py.str c) "out1"
              ("Heat Exchanger " +:+ Py.str (c - 1) +:+ "_"
                 +:+ Py.str c) "in2" ]
        else [])
    ++ compression_wirings N ic c None
    ++ [ closing_wiring N c "" ].
Proof.
  unfold cycle_wirings.
  rewrite int_heatexs_none, cycle_int_heatex_none. done.
Qed.

Lemma elem_of_topology_none w :
  w ∈ topology_wirings N ∅ ic comps →
  w ∈ fixed_wirings N
  ∨ ∃ c, 1 ≤ c ≤ N ∧ w ∈ cycle_wirings N ∅ ic comps c.
Proof.
  unfold topology_wirings. rewrite elem_of_app, list_elem_of_bind.
  intros [Hfix|(c & Hin & Hc%elem_of_range1)]; [by left|right]. by exists c.
Qed.

(** A component outlet is used by one call only, and so is an inlet. *)
Local Ltac used_once :=
  let HN := fresh "HN" in
  let Hic := fresh "Hic" in
  destruct Hb as [HN Hic];
  let c := fresh "c" in
  let c' := fresh "c'" in
  let Hc := fresh "Hc" in
  let Hc' := fresh "Hc'" in
  let Hw := fresh "Hw" in
  let Hw' := fresh "Hw'" in
  let Hcomp := fresh "Hcomp" in
  let Hport := fresh "Hport" in
  let He := fresh "He" in
  let He' := fresh "He'" in
  intros [Hw|(c & Hc & Hw)]%elem_of_topology_none
         [Hw'|(c' & Hc' & Hw')]%elem_of_topology_none Hcomp Hport;
  [ unfold fixed_wirings in Hw, Hw'
  | rewrite cycle_wirings_none in Hw';
    unfold compression_wirings, closing_wiring in Hw'; simpl in Hw';
    unfold fixed_wirings in Hw;
    destruct (ic !! c') as [?|] eqn:He';
      [pose proof (Hic c' _ Hc' He') as [? _]|]
  | rewrite cycle_wirings_none in Hw;
    unfold compression_wirings, closing_wiring in Hw; simpl in Hw;
    unfold fixed_wirings in Hw';
    destruct (ic !! c) as [?|] eqn:He;
      [pose proof (Hic c _ Hc He) as [? _]|]
  | rewrite cycle_wirings_none in Hw, Hw';
    unfold compression_wirings, closing_wiring in Hw, Hw';
    simpl in Hw, Hw';
    destruct (ic !! c) as [?|] eqn:He;
      [pose proof (Hic c _ Hc He) as [? _]|];
    (destruct (ic !! c') as [?|] eqn:He';
      [pose proof (Hic c' _ Hc' He') as [? _]|]) ];
  split_calls Hw; subst; split_calls Hw'; subst; repeat case_bool_decide;
  simpl in Hcomp, Hport; label_eq1; same_entry; try done; try lia;
  try (repeat f_equal; lia).

Lemma outlet_used_once w w' :
  w ∈ topology_wirings N ∅ ic comps → w' ∈ topology_wirings N ∅ ic comps →
  w_comp_out w = w_comp_out w' → w_outlet w = w_outlet w' → w = w'.
Proof. used_once. Qed.

Lemma inlet_used_once w w' :
  w ∈ topology_wirings N ∅ ic comps → w' ∈ topology_wirings N ∅ ic comps →
  w_comp_in w = w_comp_in w' → w_inlet w = w_inlet w' → w = w'.
Proof. used_once. Qed.
Lemma label_used_once w w' :
  w ∈ topology_wirings N ∅ ic comps → w' ∈ topology_wirings N ∅ ic comps →
  w_label w = w_label w' → w = w'.
Proof.
  intros Hw Hw' Hl. pose proof I as Htrue. revert Hw Hw' Hl Htrue.
  used_once.
Qed.

(** No call of [generate_topology] is overwritten by a later one. *)
Lemma built_call_stored w :
  w ∈ topology_wirings N ∅ ic comps →
  assign_all (∅ : gmap string Connection)
    ((λ w, (w_label w, connection_of comps w))
       <$> topology_wirings N ∅ ic comps) !! w_label w
  = Some (connection_of comps w).
Proof.
  intros Hw. apply lookup_connections_unique; [done|].
  intros w' Hw' Hl. by apply label_used_once.
Qed.

Lemma built_port_unique l l' conn conn' :
  assign_all (∅ : gmap string Connection)
    ((λ w, (w_label w, connection_of comps w))
       <$> topology_wirings N ∅ ic comps) !! l = Some conn →
  assign_all (∅ : gmap string Connection)
    ((λ w, (w_label w, connection_of comps w))
       <$> topology_wirings N ∅ ic comps) !! l' = Some conn' →
  label (source conn) = label (source conn')
  ∧ source_id conn = source_id conn'
  ∨ label (target conn) = label (target conn')
    ∧ target_id conn = target_id conn' →
  l = l'.
Proof.
  intros Hl Hl' Hsame.
  destruct (built_connection_objects N ∅ ic l conn Hb Hl)
    as (w & Hw & -> & Hconn & Hout & Hin).
  destruct (built_connection_objects N ∅ ic l' conn' Hb Hl')
    as (w' & Hw' & -> & Hconn' & Hout' & Hin').
  f_equal. destruct Hsame as [[Hcomp Hport]|[Hcomp Hport]].
  - apply outlet_used_once; [done..| |].
    + by eapply component_labels_unique.
    + by rewrite Hconn, Hconn' in Hport.
  - apply inlet_used_once; [done..| |].
    + by eapply component_labels_unique.
    + by rewrite Hconn, Hconn' in Hport.
Qed.
End no_int_heatex.

(** ** The two chains of a cycle, call by call *)

Lemma occurs_str_any a z :
  is_digit a = false → a ≠ "-"%char → occurs a (Py.str z) = false.
Proof.
  intros Ha Hminus. destruct z as [|p|p].
  - by apply occurs_str.
  - by apply occurs_str.
  - unfold Py.str. simpl.
    rewrite (proj2 (Ascii.eqb_neq _ _) Hminus). simpl.
    apply occurs_digits; [|done].
    destruct (Pos.to_uint p) as [|d|d|d|d|d|d|d|d|d|d]; [done|..];
      apply (all_digits_uint (_ d)).
Qed.

Lemma split_no_sep sep s : occurs sep s = false → Py.split sep s = [s].
Proof.
  induction s as [|a s IH]; [done|]. simpl.
  intros [Ha Hs]%orb_false_iff. rewrite Ascii.eqb_sym, Ha, IH by done. done.
Qed.

Lemma StronglySorted_seqZ m n : StronglySorted Z.lt (seqZ m n).
Proof.
  destruct (decide (n ≤ 0)) as [Hn|Hn]; [rewrite seqZ_nil by done; constructor|].
  rewrite <-(Z2Nat.id n) by lia. generalize (Z.to_nat n). clear n Hn.
  intros n. revert m. induction n as [|n IH]; intros m; [constructor|].
  rewrite seqZ_cons by lia. constructor.
  - replace (Z.pred (Z.of_nat (S n))) with (Z.of_nat n) by lia. apply IH.
  - apply Forall_forall. intros k Hk%elem_of_seqZ. lia.
Qed.

Lemma StronglySorted_filter {A} (R : A → A → Prop) (P : A → Prop)
    `{!∀ x, Decision (P x)} (l : list A) :
  StronglySorted R l → StronglySorted R (filter P l).
Proof.
  induction 1 as [|x l Hl IH Hx]; [constructor|].
  rewrite filter_cons. case_decide; [|done].
  constructor; [done|]. rewrite Forall_forall in Hx |- *.
  intros y [_ Hy]%list_elem_of_filter. by apply Hx.
Qed.

Lemma cycle_int_heatex_sorted N ih c :
  StronglySorted Z.lt (cycle_int_heatex N ih c).
Proof. apply StronglySorted_filter, StronglySorted_seqZ. Qed.

(** The cold-side chain makes one call per unit; the call of a unit takes
    the second outlet of what the chain passed before. *)
Lemma cold_chain_calls c todo last :
  Forall (λ s, s ≠ 0) todo → last ≠ Some 0 →
  length (cold_chain c last todo).1 = length todo
  ∧ (cold_chain c last todo).2
    = match list.last todo with
      | Some s => Some s
      | None => last
      end
  ∧ ∀ k s, todo !! k = Some s →
      ∃ w, (cold_chain c last todo).1 !! k = Some w
           ∧ w_comp_out w
             = cold_upstream c (match k with
                                | O => last
                                | S k' => todo !! k'
                                end)
           ∧ w_outlet w = "out2"
           ∧ w_comp_in w
             = "Internal Heat Exchanger " +:+ Py.str s +:+ "_" +:+ Py.str c
           ∧ w_inlet w = "in2".
Proof.
  intros Htodo. revert last.
  induction Htodo as [|s todo Hs Htodo IH]; intros last Hlast.
  - repeat split. intros k s Hk. by rewrite lookup_nil in Hk.
  - cbn [cold_chain].
    destruct (IH (Some s)) as (Hlen & Hfinal & Hcalls); [congruence|].
    destruct (cold_chain c (Some s) todo) as [ws final] eqn:Hchain.
    cbn [fst snd] in *. split; [simpl; by rewrite Hlen|]. split.
    + rewrite Hfinal, last_cons. by destruct (list.last todo).
    + intros [|k] s' Hk.
      * cbn in Hk. injection Hk as <-. eexists. split; [done|].
        destruct last as [z|]; cbn [Py.not_ cold_upstream].
        -- rewrite bool_decide_false by congruence. done.
        -- by case_bool_decide.
      * cbn in Hk. destruct (Hcalls k s' Hk) as (w & Hw & Hout & Hrest).
        exists w. split; [done|]. split; [|done].
        rewrite Hout. by destruct k.
Qed.

(** The hot-side chain makes one call per key; the call of a key takes
    the first outlet of what the chain passed before. *)
Lemma hot_chain_calls N c todo last :
  Forall (λ key, key ≠ "") todo →
  length (hot_chain N c last todo).1 = length todo
  ∧ (hot_chain N c last todo).2 = default last (list.last todo)
  ∧ ∀ k key, todo !! k = Some key →
      ∃ w, (hot_chain N c last todo).1 !! k = Some w
           ∧ w_comp_out w
             = hot_upstream N c (match k with
                                 | O => last
                                 | S k' => default "" (todo !! k')
                                 end)
           ∧ w_outlet w = "out1"
           ∧ w_comp_in w = key
           ∧ w_inlet w = "in1".
Proof.
  intros Htodo. revert last.
  induction Htodo as [|key todo Hkey Htodo IH]; intros last.
  - repeat split. intros k s Hk. by rewrite lookup_nil in Hk.
  - cbn [hot_chain].
    destruct (IH key) as (Hlen & Hfinal & Hcalls).
    destruct (hot_chain N c key todo) as [ws final] eqn:Hchain.
    cbn [fst snd] in *. split; [simpl; by rewrite Hlen|]. split.
    + rewrite Hfinal, last_cons. by destruct (list.last todo).
    + intros [|k] key' Hk.
      * cbn in Hk. injection Hk as <-. eexists. split; [done|].
        unfold hot_upstream.
        destruct (String.eqb last ""); [by case_bool_decide|done].
      * cbn in Hk. destruct (Hcalls k key' Hk) as (w & Hw & Hout & Hrest).
        exists w. split; [done|]. split; [|done].
        rewrite Hout. by destruct k.
Qed.

Lemma closing_wiring_call N c last :
  w_comp_out (closing_wiring N c last) = hot_upstream N c last
  ∧ w_outlet (closing_wiring N c last) = "out1"
  ∧ w_comp_in (closing_wiring N c last) = "Cycle Closer " +:+ Py.str c
  ∧ w_inlet (closing_wiring N c last) = "in1".
Proof.
  unfold closing_wiring, hot_upstream.
  destruct (String.eqb last ""); [by case_bool_decide|done].
Qed.

Lemma str_ge_total : Total Py.str_ge.
Proof.
  intros a b. unfold Py.str_ge.
  destruct (String.leb_total a b) as [H|H]; rewrite H; [by right|by left].
Qed.

Lemma elem_of_int_heatexs (comps : gmap string Component) c key :
  key ∈ int_heatexs comps c
  ↔ is_Some (comps !! key)
    ∧ Py.contains ("Internal Heat Exchanger " +:+ Py.str c) key = true.
Proof.
  unfold int_heatexs, Py.sort_reverse.
  rewrite merge_sort_Permutation, list_elem_of_filter, Is_true_true.
  rewrite list_elem_of_fmap. split.
  - intros [Hc ([key' comp] & -> & Hin%elem_of_map_to_list)]. by split.
  - intros [[comp Hkey] Hc]. split; [done|].
    exists (key, comp). split; [done|]. by apply elem_of_map_to_list.
Qed.

Lemma int_heatexs_NoDup (comps : gmap string Component) c :
  NoDup (int_heatexs comps c).
Proof.
  unfold int_heatexs, Py.sort_reverse. rewrite merge_sort_Permutation.
  apply NoDup_filter, NoDup_fst_map_to_list.
Qed.

Lemma int_heatexs_nonempty (comps : gmap string Component) c :
  Forall (λ key, key ≠ "") (int_heatexs comps c).
Proof.
  apply Forall_forall. intros key [_ Hc]%elem_of_int_heatexs ->.
  by simpl in Hc.
Qed.

(** The feed of the first compressor takes the second outlet of what the
    cold-side chain passed last. *)
Lemma compression_feed_call N ic c last :
  last ≠ Some 0 →
  ∃ w ws, compression_wirings N ic c last = w :: ws
          ∧ w_comp_out w = cold_upstream c last
          ∧ w_outlet w = "out2"
          ∧ w_comp_in w
            = match ic !! c with
              | Some _ => "Compressor " +:+ Py.str c +:+ "-1"
              | None => "Compressor " +:+ Py.str c
              end
          ∧ w_inlet w = "in1".
Proof.
  intros Hlast. unfold compression_wirings.
  destruct (ic !! c) as [e|]; eexists _, _; (split; [by simpl|]);
    (destruct last as [z|]; cbn [Py.not_ cold_upstream];
     [rewrite bool_decide_false by congruence; done|by case_bool_decide]).
Qed.

(** ** The single-stage heat pump *)

(** A decidable property of the result of a call, by evaluation. *)
Lemma returns_decide {A} (r : result A) (P : A → Prop)
    `{!∀ a, Decision (P a)} :
  match r with Ok a => bool_decide (P a) | _ => false end = true →
  returns r P.
Proof. destruct r as [a| | |]; [apply bool_decide_eq_true_1|done..]. Qed.

(** ** The [int_heatex] dictionary as a relation *)

Section same_targets.
Variable N : Z.
Variables ih ih' : gmap Z heatex_value.
Variable ic : gmap Z intercooler_value.
Hypothesis Hih : ∀ s t, 1 ≤ s ≤ N → has_target ih s t ↔ has_target ih' s t.

Lemma targets_has_target (d : gmap Z heatex_value) t s :
  targets d t s = true ↔ has_target d s t.
Proof.
  unfold targets, has_target. destruct (d !! s) as [[t'|ts]|].
  - rewrite bool_decide_eq_true. split.
    + intros ->. by left.
    + intros [[= ->]|(ts & [=] & _)]. done.
  - rewrite bool_decide_eq_true. split.
    + intros Hin. right. by exists ts.
    + intros [[=]|(ts' & [= <-] & Hin)]. done.
  - split; [done|]. by intros [[=]|(ts & [=] & _)].
Qed.

Lemma factory_entry_same_targets (d d' : gmap Z heatex_value) key comp :
  (∀ s t, 1 ≤ s ≤ N → has_target d s t → has_target d' s t) →
  factory_entry N d ic key comp → factory_entry N d' ic key comp.
Proof.
  intros Hd Hfe.
  destruct Hfe as
    [key comp Hfix|c Hc|c Hc|c Hc|HN|c e i cls Hc He Hi Ht
    |c e i Hc He Hi|c Hc He|c t Hc Hih'].
  - by apply fe_fixed.
  - by apply fe_cycle_closer.
  - by apply fe_valve.
  - by apply fe_heat_exchanger.
  - by apply fe_condenser.
  - by eapply fe_intercooler.
  - by eapply fe_stage_compressor.
  - by apply fe_compressor.
  - apply fe_int_heatex; [done|]. by apply (Hd c t Hc).
Qed.

Lemma components_same_targets :
  assign_all ∅ (component_entries N ih ic)
  = assign_all ∅ (component_entries N ih' ic).
Proof.
  apply map_eq. intros key. apply option_eq. intros comp.
  rewrite !lookup_components_iff.
  split; apply factory_entry_same_targets; intros s t Hs; by apply Hih.
Qed.

Lemma cycle_int_heatex_same_targets cycle :
  cycle_int_heatex N ih cycle = cycle_int_heatex N ih' cycle.
Proof.
  unfold cycle_int_heatex. apply filter_ext_Forall, Forall_forall.
  intros s Hs%elem_of_range1. rewrite !Is_true_true, !targets_has_target.
  by apply Hih.
Qed.

Lemma topology_wirings_same_targets comps :
  topology_wirings N ih ic comps = topology_wirings N ih' ic comps.
Proof.
  unfold topology_wirings. f_equal. apply Forall_bind_ext, Forall_forall.
  intros c Hc%elem_of_range1. unfold cycle_wirings.
  by rewrite cycle_int_heatex_same_targets.
Qed.

Lemma init_same_targets : same_outcome (init N ih ic) (init N ih' ic).
Proof.
  unfold init, generate_topology, generate_components.
  cbn [nr_cycles int_heatex intercooler components connections nw].
  rewrite components_same_targets, topology_wirings_same_targets.
  rewrite (set_conns_config _ N ih ic N ih' ic).
  destruct (set_conns _ _) as [hp|key|e|l]; simpl; done.
Qed.
End same_targets.

(** ** The connections that every heat pump has *)

Lemma contains_prefix needle hay :
  String.prefix needle hay = true → Py.contains needle hay = true.
Proof. intros Hp. destruct hay; simpl in *; by rewrite Hp. Qed.

Lemma contains_app_r needle s1 s2 :
  Py.contains needle s2 = true → Py.contains needle (s1 +:+ s2) = true.
Proof.
  intros Hc. induction s1 as [|a s1 IH]; [done|].
  simpl. rewrite IH. apply orb_true_r.
Qed.

Lemma prefix_app s1 s2 : String.prefix s1 (s1 +:+ s2) = true.
Proof.
  induction s1 as [|a s1 IH]; simpl; [by destruct s2|].
  destruct (ascii_dec a a); [done|congruence].
Qed.

Lemma cold_chain_labels cycle todo last :
  Forall (λ w, is_chain_label (w_label w) = true)
    (cold_chain cycle last todo).1.
Proof.
  revert last. induction todo as [|s todo IH]; intros last; [constructor|].
  cbn [cold_chain]. specialize (IH (Some s)).
  destruct (cold_chain cycle (Some s) todo) as [ws final]. simpl in *.
  constructor; [|done]. unfold is_chain_label.
  destruct (Py.not_ last); [case_bool_decide|]; cbn [w_label].
  - apply orb_true_iff. right.
    apply (contains_app_r _ ("evaporator" +:+ Py.str cycle)).
    apply contains_prefix, (prefix_app "_to_int_heatex").
  - apply orb_true_iff. right.
    apply (contains_app_r _ "heatex"), contains_app_r,
      (contains_app_r _ "_"), contains_app_r, contains_prefix,
      (prefix_app "_to_int_heatex").
  - apply orb_true_iff. left. apply (prefix_app "int_heatex").
Qed.

Lemma hot_chain_labels N cycle todo last :
  Forall (λ w, is_chain_label (w_label w) = true)
    (hot_chain N cycle last todo).1.
Proof.
  revert last. induction todo as [|key todo IH]; intros last; [constructor|].
  cbn [hot_chain]. specialize (IH key).
  destruct (hot_chain N cycle key todo) as [ws final]. simpl in *.
  constructor; [|done]. unfold is_chain_label.
  destruct (String.eqb last ""); [case_bool_decide|]; cbn [w_label].
  - apply orb_true_iff. right.
    apply (contains_app_r _ ("cond" +:+ Py.str cycle)).
    apply contains_prefix, (prefix_app "_to_int_heatex").
  - apply orb_true_iff. right.
    apply (contains_app_r _ "heatex"), contains_app_r,
      (contains_app_r _ "_"), contains_app_r, contains_prefix,
      (prefix_app "_to_int_heatex").
  - apply orb_true_iff. left. apply (prefix_app "int_heatex").
Qed.

Lemma prefix_digits_app a n d rest :
  all_digits d = true → d ≠ "" → is_digit a = false →
  String.prefix (String a n) (d +:+ rest) = false.
Proof.
  intros Hd Hne Ha. destruct d as [|b d]; [done|]. simpl in *.
  apply andb_true_iff in Hd as [Hb _].
  destruct (ascii_dec a b) as [->|]; [congruence|done].
Qed.

Lemma prefix_str_app a n z rest :
  0 ≤ z → is_digit a = false →
  String.prefix (String a n) (Py.str z +:+ rest) = false.
Proof.
  intros Hz Ha. destruct (str_digits z Hz) as [Hd Hne].
  by apply prefix_digits_app.
Qed.

Lemma prefix_str a n z :
  0 ≤ z → is_digit a = false → String.prefix (String a n) (Py.str z) = false.
Proof.
  intros Hz Ha. rewrite <-(append_nil_r (Py.str z)). by apply prefix_str_app.
Qed.

Lemma contains_digits_app a n d rest :
  all_digits d = true → is_digit a = false →
  Py.contains (String a n) (d +:+ rest) = Py.contains (String a n) rest.
Proof.
  intros Hd Ha. induction d as [|b d IH]; [done|].
  simpl in Hd. apply andb_true_iff in Hd as [Hb Hd].
  change (String b d +:+ rest) with (String b (d +:+ rest)).
  cbn [Py.contains]. rewrite IH by done.
  replace (String.prefix (String a n) (String b (d +:+ rest))) with false;
    [done|].
  simpl. destruct (ascii_dec a b) as [->|]; [congruence|done].
Qed.

Lemma contains_str_app a n z rest :
  0 ≤ z → is_digit a = false →
  Py.contains (String a n) (Py.str z +:+ rest) = Py.contains (String a n) rest.
Proof.
  intros Hz Ha. destruct (str_digits z Hz) as [Hd _].
  by apply contains_digits_app.
Qed.

Lemma contains_str a n z :
  0 ≤ z → is_digit a = false → Py.contains (String a n) (Py.str z) = false.
Proof.
  intros Hz Ha. rewrite <-(append_nil_r (Py.str z)).
  by rewrite contains_str_app.
Qed.

Section skeleton.
Variable N : Z.
Variable ih : gmap Z heatex_value.
Variable ic : gmap Z intercooler_value.
Hypothesis Hb : buildable N ic.

Lemma skeleton_not_chain w :
  w ∈ skeleton_wirings N → is_chain_label (w_label w) = false.
Proof.
  destruct Hb as [HN _]. intros Hw.
  unfold skeleton_wirings, fixed_wirings in Hw.
  split_calls Hw; subst w; unfold is_chain_label; cbn [w_label];
    do 4 (simpl;
          rewrite ?prefix_str_app, ?prefix_str, ?contains_str_app,
            ?contains_str by (done || lia));
    done.
Qed.
(** A call of [generate_topology] that writes the label of a call of the
    skeleton is that call. *)
Lemma skeleton_label_unique comps' w w' :
  w ∈ skeleton_wirings N → w' ∈ topology_wirings N ih ic comps' →
  w_label w' = w_label w → w' = w.
Proof.
  pose proof Hb as [HN Hic]. intros Hw.
  pose proof (skeleton_not_chain w Hw) as Hchain.
  unfold topology_wirings. rewrite elem_of_app, list_elem_of_bind.
  intros [Hin|(c' & Hin & Hc'%elem_of_range1)] Hl.
  - unfold skeleton_wirings, fixed_wirings in Hw, Hin.
    split_calls Hw; subst w; split_calls Hin; subst w';
      simpl in Hl; label_eq1; done.
  - unfold cycle_wirings in Hin. rewrite !elem_of_app in Hin.
    destruct Hin as [Hin|[Hin|[Hin|[Hin|[Hin|Hin]]]]].
    + unfold skeleton_wirings, fixed_wirings in Hw.
      split_calls Hw; subst w; split_calls Hin; subst w';
        simpl in Hl; label_eq1; done.
    + unfold skeleton_wirings, fixed_wirings in Hw.
      split_calls Hw; subst w; split_calls Hin; subst w';
        simpl in Hl; label_eq1; done.
    + pose proof (cold_chain_labels c' (cycle_int_heatex N ih c') None)
        as Hcold.
      rewrite Forall_forall in Hcold. specialize (Hcold w' Hin).
      rewrite Hl in Hcold. congruence.
    + unfold compression_wirings in Hin.
      destruct (ic !! c') as [e'|] eqn:He';
        [pose proof (Hic c' e' Hc' He') as [? _]|];
        unfold skeleton_wirings, fixed_wirings in Hw;
        split_calls Hw; subst w; split_calls Hin; subst w';
        repeat case_bool_decide;
        try (destruct (Py.not_ _)); repeat case_bool_decide;
        simpl in Hl; label_eq1; done.
    + pose proof (hot_chain_labels N c' (int_heatexs comps' c') "") as Hhot.
      rewrite Forall_forall in Hhot. specialize (Hhot w' Hin).
      rewrite Hl in Hhot. congruence.
    + apply list_elem_of_singleton in Hin. subst w'.
      unfold closing_wiring in Hl |- *.
      unfold skeleton_wirings, fixed_wirings in Hw.
      destruct (String.eqb _ ""); repeat case_bool_decide;
        split_calls Hw; subst w; simpl in Hl; label_eq1; done.
Qed.
Lemma skeleton_elem_of_topology comps' w :
  w ∈ skeleton_wirings N → w ∈ topology_wirings N ih ic comps'.
Proof.
  unfold skeleton_wirings, topology_wirings. rewrite !elem_of_app.
  intros [Hw|Hw]; [by left|right].
  apply list_elem_of_bind in Hw as (c & Hw & Hc).
  apply list_elem_of_bind. exists c. split; [|done].
  unfold cycle_wirings. rewrite !elem_of_app.
  apply elem_of_app in Hw as [Hw|Hw]; [by left|by right; left].
Qed.

(** The components that the skeleton joins are stored under their
    labels. *)
Lemma skeleton_endpoint_labels w key comp :
  w ∈ skeleton_wirings N → key = w_comp_out w ∨ key = w_comp_in w →
  assign_all ∅ (component_entries N ih ic) !! key = Some comp →
  label comp = key.
Proof.
  intros Hw Hkey Hcomp.
  destruct (factory_entry_label N ih ic key comp
              (lookup_components_entry N ih ic key comp Hcomp))
    as [Hl|(c & e & i & Hc & He & Hi & Hstage & _)]; [done|].
  exfalso. unfold stage_compressor_key in Hstage.
  unfold skeleton_wirings, fixed_wirings in Hw.
  split_calls Hw; subst w; destruct Hkey as [Hkey|Hkey];
    simpl in Hkey; rewrite Hkey in Hstage; label_eq1.
Qed.

Lemma skeleton_stored w :
  w ∈ skeleton_wirings N →
  ∃ conn,
    assign_all (∅ : gmap string Connection)
      ((λ w, (w_label w,
              connection_of (assign_all ∅ (component_entries N ih ic)) w))
         <$> topology_wirings N ih ic
               (assign_all ∅ (component_entries N ih ic))) !! w_label w
    = Some conn
    ∧ conn_label conn = w_label w
    ∧ label (source conn) = w_comp_out w ∧ source_id conn = w_outlet w
    ∧ label (target conn) = w_comp_in w ∧ target_id conn = w_inlet w.
Proof.
  intros Hw. eexists. split.
  - apply lookup_connections_unique.
    + by apply skeleton_elem_of_topology.
    + intros w' Hw' Hl. by eapply skeleton_label_unique.
  - pose proof (topology_wirable_gen N ih ic Hb) as Hall.
    rewrite Forall_forall in Hall.
    destruct (Hall w (skeleton_elem_of_topology _ w Hw))
      as [[c_out Hout] [c_in Hin]].
    unfold connection_of. cbn [conn_label source source_id target target_id].
    rewrite (lookup_total_correct _ _ _ Hout),
      (lookup_total_correct _ _ _ Hin).
    split; [done|].
    split; [by apply (skeleton_endpoint_labels w); [|left|]|].
    split; [done|].
    split; [by apply (skeleton_endpoint_labels w); [|right|]|done].
Qed.
End skeleton.

(** ** The calls pass the constructor of [Connection] *)

Lemma connectable_intro (comps : gmap string Component) w c_out c_in :
  comps !! w_comp_out w = Some c_out →
  comps !! w_comp_in w = Some c_in →
  class_of c_out ≠ class_of c_in ∨ label c_out ≠ label c_in →
  w_outlet w ∈ outlets (class_of c_out) →
  w_inlet w ∈ inlets (class_of c_in) →
  connectable comps w.
Proof.
  intros Hout Hin Hne Ho Hi. exists c_out, c_in.
  repeat split; try done. intros ->. by destruct Hne.
Qed.

(** Membership of a port name in the list of ports of a class. *)
Ltac port := simpl; rewrite ?elem_of_cons; by auto.

Section connectable_topology.
Variable N : Z.
Variable ih : gmap Z heatex_value.
Variable ic : gmap Z intercooler_value.
Hypothesis Hb : buildable N ic.
Local Abbreviation comps := (assign_all ∅ (component_entries N ih ic)).

Lemma lookup_fixed key comp :
  (key, comp) ∈ fixed_components → comps !! key = Some comp.
Proof. intros Hin. by apply lookup_components_iff, fe_fixed. Qed.

Lemma lookup_evaporator :
  comps !! "Evaporator 1" = Some (mkComponent HeatExchanger "Evaporator 1").
Proof. apply lookup_fixed. do 3 right. left. Qed.

Lemma lookup_cycle_closer c :
  1 ≤ c ≤ N →
  comps !! ("Cycle Closer " +:+ Py.str c)
  = Some (mkComponent CycleCloser ("Cycle Closer " +:+ Py.str c)).
Proof. intros Hc. by apply lookup_components_iff, fe_cycle_closer. Qed.

Lemma lookup_valve c :
  1 ≤ c ≤ N →
  comps !! ("Valve " +:+ Py.str c)
  = Some (mkComponent Valve ("Valve " +:+ Py.str c)).
Proof. intros Hc. by apply lookup_components_iff, fe_valve. Qed.

Lemma lookup_heat_exchanger_below c :
  2 ≤ c ≤ N →
  comps !! ("Heat Exchanger " +:+ Py.str (c - 1) +:+ "_" +:+ Py.str c)
  = Some (mkComponent HeatExchanger
            ("Heat Exchanger " +:+ Py.str (c - 1) +:+ "_" +:+ Py.str c)).
Proof. intros Hc. by apply lookup_components_iff, fe_heat_exchanger. Qed.

Lemma lookup_compressor c :
  1 ≤ c ≤ N → ic !! c = None →
  comps !! ("Compressor " +:+ Py.str c)
  = Some (mkComponent Compressor ("Compressor " +:+ Py.str c)).
Proof. intros Hc He. by apply lookup_components_iff, fe_compressor. Qed.

Lemma lookup_int_heatex s t :
  1 ≤ s ≤ N → targets ih t s = true →
  comps !! ("Internal Heat Exchanger " +:+ Py.str s +:+ "_" +:+ Py.str t)
  = Some (mkComponent HeatExchanger
            ("Internal Heat Exchanger " +:+ Py.str s +:+ "_" +:+ Py.str t)).
Proof.
  intros Hs Ht. apply lookup_components_iff, fe_int_heatex; [done|].
  by apply targets_has_target.
Qed.

(** The keys that the hot-side chain of a cycle picks are keys of
    internal heat exchangers. *)
Lemma int_heatexs_components c key :
  key ∈ int_heatexs comps c →
  (∃ s t, key = "Internal Heat Exchanger " +:+ Py.str s +:+ "_" +:+ Py.str t)
  ∧ comps !! key = Some (mkComponent HeatExchanger key).
Proof.
  intros [[comp Hkey] Hcontains]%elem_of_int_heatexs.
  pose proof (lookup_components_entry N ih ic key comp Hkey) as Hfe.
  assert (HI : is_digit "I" = false) by done.
  destruct Hb as [HN Hic].
  destruct Hfe as
    [key comp Hfix|c' Hc'|c' Hc'|c' Hc'|HN'|c' e' i' cls Hc' He' Hi' Ht
    |c' e' i' Hc' He' Hi'|c' Hc' He'|c' t Hc' Hih];
    [unfold fixed_components in Hfix; split_in Hfix;
     injection Hfix as -> _; by simpl in Hcontains|..|by split; [eexists _, _|]];
    exfalso; simpl in Hcontains;
    apply contains_occurs in Hcontains;
    do 3 (simpl in Hcontains;
          rewrite ?occurs_app, ?occurs_str in Hcontains by (done || lia));
    done.
Qed.

Lemma cold_chain_connectable c todo last :
  1 ≤ c ≤ N →
  Forall (λ s, 1 ≤ s ≤ N ∧ targets ih c s = true) todo →
  NoDup todo →
  (∀ s, last = Some s → (1 ≤ s ≤ N ∧ targets ih c s = true) ∧ s ∉ todo) →
  Forall (connectable comps) (cold_chain c last todo).1
  ∧ ∀ s, (cold_chain c last todo).2 = Some s →
         1 ≤ s ≤ N ∧ targets ih c s = true.
Proof.
  intros Hc Htodo. revert last.
  induction Htodo as [|s todo [Hs Ht] Htodo IH]; intros last Hnd Hlast.
  - split; [constructor|]. intros s Hs. by destruct (Hlast s Hs).
  - apply NoDup_cons in Hnd as [Hnotin Hnd]. cbn [cold_chain].
    destruct (IH (Some s) Hnd) as [Hws Hfinal].
    { by intros s' [= <-]. }
    destruct (cold_chain c (Some s) todo) as [ws final]. simpl in *.
    split; [|done]. constructor; [|done].
    destruct last as [s'|]; simpl.
    + destruct (Hlast s' eq_refl) as [[Hs' Ht'] Hne].
      rewrite bool_decide_false by lia.
      eapply connectable_intro; simpl;
        [by apply lookup_int_heatex..| |port|port].
      right. simpl. intros Heq. label_eq1. apply Hne. by left.
    + case_bool_decide.
      * eapply connectable_intro; simpl;
          [apply lookup_evaporator|by apply lookup_int_heatex| |port|port].
        by right.
      * eapply connectable_intro; simpl;
          [apply lookup_heat_exchanger_below; lia|by apply lookup_int_heatex
          | |port|port].
        by right.
Qed.

Lemma hot_chain_connectable c todo last :
  1 ≤ c ≤ N →
  Forall (λ key,
            (∃ s t, key = "Internal Heat Exchanger " +:+ Py.str s +:+ "_"
                            +:+ Py.str t)
            ∧ comps !! key = Some (mkComponent HeatExchanger key)) todo →
  NoDup todo →
  (last = ""
   ∨ comps !! last = Some (mkComponent HeatExchanger last) ∧ last ∉ todo) →
  Forall (connectable comps) (hot_chain N c last todo).1
  ∧ ((hot_chain N c last todo).2 = ""
     ∨ comps !! (hot_chain N c last todo).2
       = Some (mkComponent HeatExchanger (hot_chain N c last todo).2)).
Proof.
  destruct Hb as [HN _]. intros Hc Htodo. revert last.
  induction Htodo as [|key todo [Hshape Hkey] Htodo IH]; intros last Hnd Hlast.
  - split; [constructor|]. simpl. destruct Hlast as [?|[? _]]; auto.
  - apply NoDup_cons in Hnd as [Hnotin Hnd]. cbn [hot_chain].
    destruct (IH key Hnd) as [Hws Hfinal]; [by right|].
    destruct (hot_chain N c key todo) as [ws final]. simpl in *.
    split; [|done]. constructor; [|done].
    destruct (String.eqb_spec last "") as [->|Hne].
    + case_bool_decide as HcN.
      * subst c. eapply connectable_intro; simpl;
          [by apply condenser_lookup|done| |port|port].
        by left.
      * eapply connectable_intro; simpl;
          [apply heat_exchanger_above_lookup; lia|done| |port|port].
        right. simpl. intros Heq.
        destruct Hshape as (s & t & ->). simplify_eq/=.
    + destruct Hlast as [?|[Hlast Hnot]]; [done|].
      eapply connectable_intro; simpl; [done|done| |port|port].
      right. simpl. intros ->. apply Hnot. by left.
Qed.

Lemma compression_connectable c last :
  1 ≤ c ≤ N →
  (∀ s, last = Some s → 1 ≤ s ≤ N ∧ targets ih c s = true) →
  Forall (connectable comps) (compression_wirings N ic c last).
Proof.
  pose proof Hb as [HN Hic]. intros Hc Hlast.
  assert (Hfeed : ∀ l l' l'' key comp,
    comps !! key = Some comp → class_of comp = Compressor →
    connectable comps
      (if Py.not_ last then
         if bool_decide (c = 1)
         then Wire l "Evaporator 1" "out2" key "in1"
         else Wire l' ("Heat Exchanger " +:+ Py.str (c - 1) +:+ "_"
                         +:+ Py.str c) "out2" key "in1"
       else Wire l'' ("Internal Heat Exchanger " +:+ Py.fmt last +:+ "_"
                        +:+ Py.str c) "out2" key "in1")).
  { intros l l' l'' key comp Hkey Hcls. destruct last as [s|]; simpl.
    - destruct (Hlast s eq_refl) as [Hs Ht].
      rewrite bool_decide_false by lia.
      eapply connectable_intro; simpl;
        [by apply lookup_int_heatex|done| |port|rewrite Hcls; port].
      left. simpl. by rewrite Hcls.
    - case_bool_decide.
      + eapply connectable_intro; simpl;
          [apply lookup_evaporator|done| |port|rewrite Hcls; port].
        left. simpl. by rewrite Hcls.
      + eapply connectable_intro; simpl;
          [apply lookup_heat_exchanger_below; lia|done| |port
          |rewrite Hcls; port].
        left. simpl. by rewrite Hcls. }
  assert (Hout : ∀ l l' key comp,
    comps !! key = Some comp → class_of comp = Compressor →
    connectable comps
      (if bool_decide (c = N)
       then Wire l key "out1" ("Condenser " +:+ Py.str c) "in1"
       else Wire l' key "out1"
              ("Heat Exchanger " +:+ Py.str c +:+ "_" +:+ Py.str (c + 1))
              "in1")).
  { intros l l' key comp Hkey Hcls. clear Hfeed.
    case_bool_decide as HcN.
    - subst c. eapply connectable_intro; simpl;
        [done|by apply condenser_lookup| |rewrite Hcls; port|port].
      left. simpl. by rewrite Hcls.
    - eapply connectable_intro; simpl;
        [done|apply heat_exchanger_above_lookup; lia| |rewrite Hcls; port
        |port].
      left. simpl. by rewrite Hcls. }
  unfold compression_wirings. destruct (ic !! c) as [e|] eqn:He.
  - destruct (Hic c e Hc He) as [Hamount Htype].
    apply Forall_app. split; [|apply Forall_app; split].
    + apply Forall_singleton.
      eapply Hfeed;
        [change "-1" with ("-" +:+ Py.str 1);
         apply (stage_compressor_lookup N ih ic c e 1); [done..|lia]
        |reflexivity].
    + apply Forall_bind, Forall_forall. intros i Hi%elem_of_range1. simpl.
      assert (Hvalid : type e = "HeatExchanger"
                       ∨ type e = "HeatExchangerSimple") by (apply Htype; lia).
      repeat apply Forall_cons_2; [..|apply Forall_nil_2].
      * eapply connectable_intro; simpl;
          [apply (stage_compressor_lookup N ih ic c e i); [done..|lia]
          |by apply (intercooler_lookup N ih ic c e i)
          | |port|simpl; destruct (String.eqb _ _); port].
        left. simpl. by destruct (String.eqb _ _).
      * eapply connectable_intro; simpl;
          [by apply (intercooler_lookup N ih ic c e i)
          |apply (stage_compressor_lookup N ih ic c e (i + 1)); [done..|lia]
          | |simpl; destruct (String.eqb _ _); port|port].
        left. simpl. by destruct (String.eqb _ _).
    + apply Forall_singleton.
      eapply Hout;
        [apply (stage_compressor_lookup N ih ic c e (amount e + 1));
           [done..|lia]
        |reflexivity].
  - repeat apply Forall_cons_2; [..|apply Forall_nil_2].
    + eapply Hfeed; [by apply lookup_compressor|done].
    + eapply Hout; [by apply lookup_compressor|done].
Qed.

Lemma topology_connectable :
  Forall (connectable comps) (topology_wirings N ih ic comps).
Proof.
  pose proof Hb as [HN Hic]. unfold topology_wirings.
  apply Forall_app. split.
  - assert (Hfix : ∀ key comp,
      (key, comp) ∈ fixed_components → comps !! key = Some comp)
      by apply lookup_fixed.
    unfold fixed_components in Hfix.
    assert (Hvalve : comps !! "Valve 1" = Some (mkComponent Valve "Valve 1")).
    { change "Valve 1" with ("Valve " +:+ Py.str 1).
      apply lookup_valve. lia. }
    repeat apply Forall_cons_2; [..|apply Forall_nil_2];
      eapply connectable_intro; simpl;
      try (by apply condenser_lookup);
      try exact Hvalve;
      try (by apply Hfix; rewrite !elem_of_cons; eauto 10);
      try port;
      by left.
  - apply Forall_bind, Forall_forall. intros c Hc%elem_of_range1.
    unfold compose, cycle_wirings.
    destruct (cold_chain_connectable c (cycle_int_heatex N ih c) None)
      as [Hcold Hlast]; [done| | |done|].
    { apply Forall_forall. by intros s Hs%elem_of_cycle_int_heatex. }
    { apply NoDup_filter, NoDup_seqZ. }
    destruct (hot_chain_connectable c (int_heatexs comps c) "")
      as [Hhot Hfinal]; [done| | |by left|].
    { apply Forall_forall. apply int_heatexs_components. }
    { apply int_heatexs_NoDup. }
    repeat (apply Forall_app; split); try done.
    + apply Forall_singleton. eapply connectable_intro; simpl;
        [by apply lookup_cycle_closer|by apply lookup_valve| |port|port].
      by left.
    + case_bool_decide; [|done]. apply Forall_singleton.
      eapply connectable_intro; simpl;
        [by apply lookup_valve|apply lookup_heat_exchanger_below; lia
        | |port|port].
      by left.
    + by apply compression_connectable.
    + apply Forall_singleton. unfold closing_wiring.
      destruct (String.eqb_spec (hot_chain N c "" (int_heatexs comps c)).2 "")
        as [Heq|Hne].
      * case_bool_decide as HcN.
        -- subst c. eapply connectable_intro; simpl;
             [by apply condenser_lookup|by apply lookup_cycle_closer
             | |port|port].
           by left.
        -- eapply connectable_intro; simpl;
             [apply heat_exchanger_above_lookup; lia
             |by apply lookup_cycle_closer| |port|port].
           by left.
      * destruct Hfinal as [?|Hfinal]; [done|].
        eapply connectable_intro; simpl;
          [exact Hfinal|by apply lookup_cycle_closer| |port|port].
        by left.
Qed.
End connectable_topology.

(** ** When the constructor returns *)

Section init_returns.
Variable N : Z.
Variable ih : gmap Z heatex_value.
Variable ic : gmap Z intercooler_value.
Local Abbreviation comps := (assign_all ∅ (component_entries N ih ic)).

(** The construction of a buildable configuration whose calls use
    pairwise different labels succeeds, with the tables that the
    assignments and the calls describe. *)
Lemma init_returns :
  buildable N ic → distinct_labels N ih ic →
  init N ih ic
  = Ok (mkHeatpump N ih ic comps
          (assign_all ∅
             ((λ w, (w_label w, connection_of comps w))
                <$> topology_wirings N ih ic comps))
          ((λ w, add_conns (connection_of comps w))
             <$> topology_wirings N ih ic comps)).
Proof.
  intros Hb Hlabels. unfold init, generate_topology, generate_components.
  cbn [nr_cycles int_heatex intercooler components connections nw].
  rewrite set_conns_Ok; [done|by apply topology_connectable|done|].
  apply Forall_forall. intros w _. cbn [nw]. set_solver.
Qed.

Lemma init_returns_inv self :
  init N ih ic = Ok self → buildable N ic ∧ distinct_labels N ih ic.
Proof.
  unfold init, generate_topology, generate_components.
  cbn [nr_cycles int_heatex intercooler components connections nw].
  intros (Hconn & Hnd & _)%set_conns_Ok_inv.
  cbn [components] in Hconn. split; [|done].
  apply (topology_wirable_buildable N ih ic).
  eapply Forall_impl; [exact Hconn|]. apply connectable_wirable.
Qed.
End init_returns.

(** ** The labels of the calls, without internal heat exchangers *)

Section labels_no_int_heatex.
Variable N : Z.
Variable ic : gmap Z intercooler_value.
Hypothesis Hb : buildable N ic.
Local Abbreviation comps := (assign_all ∅ (component_entries N ∅ ic)).

(** Case analysis on a label of the calls of one cycle. *)
Local Ltac cycle_label H c Hc :=
  let w := fresh "w" in
  let Hw := fresh "Hw" in
  let Hic := fresh "Hic" in
  let He := fresh "He" in
  apply list_elem_of_fmap in H as (w & H & Hw);
  rewrite cycle_wirings_none in Hw by exact Hb;
  unfold compression_wirings, closing_wiring in Hw; simpl in Hw;
  destruct (ic !! c) as [?|] eqn:He;
    [pose proof (proj2 Hb c _ Hc He) as [? _]|];
  split_calls Hw; subst w; repeat case_bool_decide; simpl in H.

(** Case analysis on the membership of a label in a list written out with
    [::], [++] and [≫=] over a range. *)
Local Ltac split_labels H :=
  repeat first
    [ apply elem_of_nil in H; destruct H
    | apply elem_of_app in H as [H|H]
    | apply elem_of_cons in H as [H|H]
    | let i := fresh "i" in
      let Hi := fresh "Hi" in
      apply list_elem_of_bind in H as (i & H & Hi%elem_of_range1) ].

Lemma cycle_labels_NoDup c :
  1 ≤ c ≤ N → NoDup (w_label <$> cycle_wirings N ∅ ic comps c).
Proof.
  intros Hc. pose proof Hb as [HN Hic].
  rewrite cycle_wirings_none by exact Hb.
  unfold compression_wirings, closing_wiring.
  change (String.eqb "" "") with true. cbv iota.
  destruct (ic !! c) as [e|] eqn:He.
  - destruct (Hic c e Hc He) as [Hamount _].
    rewrite !fmap_app, fmap_bind.
    cbn [fmap list_fmap w_label Py.not_].
    match goal with
    | |- context [?r ≫= ?f] => assert (Hstages : NoDup (r ≫= f))
    end.
    { apply NoDup_bind.
      - intros i j l Hi%elem_of_range1 Hj%elem_of_range1 Hl Hl'.
        split_labels Hl; subst l; split_labels Hl'; label_eq1; lia.
      - intros i Hi%elem_of_range1.
        apply NoDup_cons_2; [|apply NoDup_singleton].
        rewrite list_elem_of_singleton. intros Heq. label_eq1.
      - apply NoDup_seqZ. }
    repeat case_bool_decide; cbn [fmap list_fmap w_label app];
      rewrite <-?app_assoc; cbn [app];
      repeat (apply NoDup_cons_2;
              [intros Hin; split_labels Hin; label_eq1; lia|]);
      (apply NoDup_app; split; [done|split;
        [intros l Hl Hl'; split_labels Hl'; subst l; split_labels Hl;
         label_eq1; lia
        |repeat (apply NoDup_cons_2;
                 [intros Hin; split_labels Hin; label_eq1; lia|]);
         apply NoDup_nil_2]]).
  - cbn [Py.not_]. repeat case_bool_decide; cbn [fmap list_fmap w_label app];
      repeat (apply NoDup_cons_2;
              [intros Hin; split_labels Hin; label_eq1; lia|]);
      apply NoDup_nil_2.
Qed.

Lemma distinct_labels_none : distinct_labels N ∅ ic.
Proof.
  pose proof Hb as [HN Hic]. unfold distinct_labels, topology_wirings.
  rewrite fmap_app, fmap_bind. apply NoDup_app. split; [|split].
  - unfold fixed_wirings. cbn [fmap list_fmap w_label].
    repeat (apply NoDup_cons_2; [rewrite ?not_elem_of_cons; repeat split;
                                  try apply not_elem_of_nil; intros Heq;
                                  label_eq1|]);
      apply NoDup_nil_2.
  - intros l Hfix (c & Hin & Hc%elem_of_range1)%list_elem_of_bind.
    unfold fixed_wirings in Hfix. cbn [fmap list_fmap w_label] in Hfix.
    cycle_label Hin c Hc; split_in Hfix; subst l; label_eq1.
  - apply NoDup_bind.
    + intros c1 c2 l Hc1%elem_of_range1 Hc2%elem_of_range1 Hin1 Hin2.
      cycle_label Hin1 c1 Hc1; subst l; cycle_label Hin2 c2 Hc2;
        label_eq1; lia.
    + intros c Hc%elem_of_range1. by apply cycle_labels_NoDup.
    + apply NoDup_seqZ.
Qed.
End labels_no_int_heatex.
(** ** The two outcomes of a run of calls that pass the constructor *)

Lemma set_conns_raises ws self :
  Forall (connectable (components self)) ws →
  (∃ self', set_conns ws self = Ok self')
  ∨ ∃ w, w ∈ ws ∧ set_conns ws self = ValueError (duplicate_label (w_label w)).
Proof.
  revert self. induction ws as [|w ws IH]; intros self Hws.
  { left. by eexists. }
  apply Forall_cons in Hws as [Hw Hws].
  destruct (decide (w_label w ∈ network_labels (nw self))) as [Hdup|Hfresh].
  - right. exists w. split; [apply elem_of_cons; by left|].
    cbn [set_conns]. by rewrite (proj2 (set_conn_w_duplicate self w Hw Hdup)).
  - cbn [set_conns]. rewrite (set_conn_w_Ok self w Hw Hfresh). cbn [bind].
    match goal with
    | |- context [set_conns ws ?s] => destruct (IH s) as [Hok|(w' & Hin & Hraise)]
    end.
    + exact Hws.
    + by left.
    + right. exists w'. split; [apply elem_of_cons; by right|done].
Qed.

(** * The claims of the specification *)

(** ** C6: duplicate labels and consumed ports *)

(** C6 (as amended): of the two checks, [set_conn] runs into one, and late.
    Take calls that name two different components of the component table
    and ports these components have. When their labels are pairwise
    different and not in the network, every call succeeds: the component
    table is unchanged, each label holds the connection of the call that
    wrote it, labels never written keep what they held, and the network
    receives the connections in the order of the calls. Otherwise the run
    ends with the [ValueError] that [add_conns] raises for the label of one
    of the calls. A call whose label the network already holds raises that
    [ValueError] only after the first statement of [set_conn] has replaced
    the entry of the connection table. The ports are not checked: a port
    already used by another connection is accepted. *)
Theorem set_conns_label_check (self : Heatpump) (ws : list wiring) :
  Forall (connectable (components self)) ws →
  (NoDup (w_label <$> ws)
   ∧ Forall (λ w, w_label w ∉ network_labels (nw self)) ws →
   ∃ self',
     set_conns ws self = Ok self'
     ∧ components self' = components self
     ∧ (∀ l, connections self' !! l
             = match last_write l ws with
               | Some w => Some (connection_of (components self) w)
               | None => connections self !! l
               end)
     ∧ nw self'
       = nw self ++ ((λ w, add_conns (connection_of (components self) w)) <$> ws))
  ∧ (¬ (NoDup (w_label <$> ws)
        ∧ Forall (λ w, w_label w ∉ network_labels (nw self)) ws) →
     ∃ w, w ∈ ws
          ∧ set_conns ws self = ValueError (duplicate_label (w_label w)))
  ∧ (∀ w, w ∈ ws → w_label w ∈ network_labels (nw self) →
       store_connection (w_label w) (w_comp_out w) (w_outlet w)
         (w_comp_in w) (w_inlet w) self
       = Ok (mkHeatpump (nr_cycles self) (int_heatex self) (intercooler self)
               (components self)
               (<[w_label w := connection_of (components self) w]>
                  (connections self))
               (nw self))
       ∧ set_conn_w w self = ValueError (duplicate_label (w_label w))).
Proof.
  intros Hws. split; [|split].
  - intros [Hnd Hfresh]. eexists. split; [by apply set_conns_Ok|].
    cbn [components connections nw]. split; [done|]. split; [|done].
    intros l. apply lookup_assign_all_last_write.
  - intros Hn. destruct (set_conns_raises ws self Hws) as [[self' Hok]|Hraise];
      [|done].
    destruct Hn. apply set_conns_Ok_inv in Hok as (_ & Hnd & Hfresh). done.
  - intros w Hw Hdup. apply set_conn_w_duplicate; [|done].
    rewrite Forall_forall in Hws. by apply Hws.
Qed.

(** ** C8: the cascade of [delete_component] *)

(** C8: deleting a component that is in the component table removes its
    entry and exactly the connections that have the given label as the
    label of their source or of their target component; every other
    connection stays in the table unchanged, and an endpoint label of such a
    connection that was a key of the component table still is one. A
    component with exactly two such connections makes the table two
    entries smaller. *)
Theorem delete_component_cascade (self : Heatpump) (component : string) :
  is_Some (components self !! component) →
  let self' := (delete_component component self).1 in
  components self' = delete component (components self)
  ∧ (∀ l c, connections self !! l = Some c →
       connections self' !! l
       = if decide (label (source c) = component ∨ label (target c) = component)
         then None else Some c)
  ∧ (∀ l, connections self !! l = None → connections self' !! l = None)
  ∧ (∀ l c, connections self' !! l = Some c →
       (is_Some (components self !! label (source c)) →
        is_Some (components self' !! label (source c)))
       ∧ (is_Some (components self !! label (target c)) →
          is_Some (components self' !! label (target c))))
  ∧ (size (filter (λ kv, label (source kv.2) = component
                         ∨ label (target kv.2) = component)
             (connections self)) = 2%nat →
     (size (connections self') + 2)%nat = size (connections self)).
Proof.
  intros [c0 Hc0]. intros self'. subst self'.
  destruct (delete_component_found component self c0 Hc0) as [Hcomps Hconns].
  rewrite Hcomps, Hconns. split; [done|]. split; [|split; [|split]].
  - intros l c Hl. case_decide as Hinc.
    + apply map_lookup_filter_None. right. intros c' Hc'.
      rewrite Hl in Hc'. injection Hc' as <-. simpl.
      intros Hn. apply Hn. by apply incident_iff.
    + apply map_lookup_filter_Some. split; [done|]. simpl.
      by rewrite incident_iff.
  - intros l Hl. apply map_lookup_filter_None. by left.
  - intros l c [Hl Hinc]%map_lookup_filter_Some. simpl in Hinc.
    rewrite incident_iff in Hinc.
    split; intros Hsome; (rewrite lookup_delete_ne; [done|]);
      intros Heq; apply Hinc; auto.
  - intros Hsize.
    rewrite <-(map_filter_union_complement
      (λ kv : string * Connection, ¬ incident component kv.2)
      (connections self)) at 2.
    rewrite map_size_disj_union by apply map_disjoint_filter_complement.
    f_equal. rewrite <-Hsize. f_equal. apply map_filter_ext.
    intros l c _. simpl. rewrite <-incident_iff.
    destruct (incident component c); simpl; tauto.
Qed.

Lemma delete_component_cascade_witness :
  let a := mkComponent Valve "Valve 1" in
  let b := mkComponent HeatExchangerSimple "Consumer" in
  let self :=
    mkHeatpump 1 ∅ ∅ {[ "Valve 1" := a; "Consumer" := b ]}
      {[ "a_to_b" := mkConnection a "out1" b "in1" "a_to_b" ]}
      [add_conns (mkConnection a "out1" b "in1" "a_to_b")] in
  is_Some (components self !! "Valve 1")
  ∧ components (delete_component "Valve 1" self).1
    = delete "Valve 1" (components self).
Proof.
  intros a b self.
  assert (Hin : is_Some (components self !! "Valve 1"))
    by (vm_compute; eexists; reflexivity).
  split; [exact Hin|].
  exact (proj1 (delete_component_cascade self "Valve 1" Hin)).
Defined.

(** ** C9: deleting a label that is not in the component table *)

(** C9: when the label is not a key of the component table,
    [delete_component] prints the not-found line and returns with the
    object, both tables included, exactly as it was. *)
Theorem delete_component_absent (self : Heatpump) (component : string) :
  components self !! component = None →
  delete_component component self
  = (self, ["No component with label " +:+ component +:+ " found."]).
Proof. intros Hc. unfold delete_component. by rewrite Hc. Qed.

Lemma delete_component_absent_witness :
  let self :=
    mkHeatpump 1 ∅ ∅ {[ "Valve 1" := mkComponent Valve "Valve 1" ]} ∅ [] in
  components self !! "Compressor 7" = None
  ∧ delete_component "Compressor 7" self
    = (self, ["No component with label " +:+ "Compressor 7" +:+ " found."]).
Proof.
  intros self.
  assert (Hout : components self !! "Compressor 7" = None)
    by (vm_compute; reflexivity).
  split; [exact Hout|].
  exact (delete_component_absent self "Compressor 7" Hout).
Defined.
(** ** C6: the counterexample *)

(** C6, counterexample. On the one-cycle heat pump, a call under the new
    label [valve1_to_consumer] from the outlet [out1] of [Valve 1], which
    the connection [valve1_to_evaporator1] already uses, is not rejected:
    afterwards two connections leave [Valve 1] through [out1]. A call that
    reuses the label [cc1_to_valve1] raises [ValueError], but the first
    statement of [set_conn] has by then replaced the connection stored
    under the label. *)
Lemma set_conn_overwrites :
  returns (init 1 ∅ ∅) (λ self,
    connections self !! "cc1_to_valve1"
    = Some (mkConnection (mkComponent CycleCloser "Cycle Closer 1") "out1"
              (mkComponent Valve "Valve 1") "in1" "cc1_to_valve1")
    ∧ returns (set_conn "valve1_to_consumer" "Valve 1" "out1" "Consumer" "in1"
                 self)
        (λ self',
          connections self' !! "valve1_to_consumer"
          = Some (mkConnection (mkComponent Valve "Valve 1") "out1"
                    (mkComponent HeatExchangerSimple "Consumer") "in1"
                    "valve1_to_consumer")
          ∧ connections self' !! "valve1_to_evaporator1"
            = Some (mkConnection (mkComponent Valve "Valve 1") "out1"
                      (mkComponent HeatExchanger "Evaporator 1") "in2"
                      "valve1_to_evaporator1"))
    ∧ set_conn "cc1_to_valve1" "Valve 1" "out1" "Consumer" "in1" self
      = ValueError (duplicate_label "cc1_to_valve1")
    ∧ returns (store_connection "cc1_to_valve1" "Valve 1" "out1" "Consumer"
                 "in1" self)
        (λ self',
          connections self' !! "cc1_to_valve1"
          = Some (mkConnection (mkComponent Valve "Valve 1") "out1"
                    (mkComponent HeatExchangerSimple "Consumer") "in1"
                    "cc1_to_valve1"))).
Proof. vm_compute. repeat split. Qed.

Lemma set_conns_label_check_witness :
  let a := mkComponent Valve "Valve 1" in
  let b := mkComponent HeatExchangerSimple "Consumer" in
  let self :=
    mkHeatpump 1 ∅ ∅ {[ "Valve 1" := a; "Consumer" := b ]} ∅ [] in
  let ws := [ Wire "a_to_b" "Valve 1" "out1" "Consumer" "in1";
              Wire "b_to_a" "Consumer" "out1" "Valve 1" "in1" ] in
  Forall (connectable (components self)) ws
  ∧ ∃ self',
      set_conns ws self = Ok self'
      ∧ connections self' !! "a_to_b"
        = Some (mkConnection a "out1" b "in1" "a_to_b").
Proof.
  intros a b self ws.
  assert (Hws : Forall (connectable (components self)) ws).
  { repeat apply Forall_cons_2; try apply Forall_nil_2.
    - exists a, b. vm_compute. repeat split; try discriminate; by left.
    - exists b, a. vm_compute. repeat split; try discriminate; by left. }
  split; [exact Hws|].
  assert (Hlabels : NoDup (w_label <$> ws)
                    ∧ Forall (λ w, w_label w ∉ network_labels (nw self)) ws).
  { split; apply (bool_decide_unpack _); vm_compute; exact I. }
  destruct (proj1 (set_conns_label_check self ws Hws) Hlabels)
    as (self' & Hrun & _ & Hconns & _).
  exists self'. split; [exact Hrun|]. exact (Hconns "a_to_b").
Defined.

(** ** C1, C2, C7: the code at the failing inputs *)

(** C1 (the code at the failing inputs). With ten cycles and
    [int_heatex = {1: [3, 10]}] the construction returns, and the hot-side
    chain of cycle 1 runs from heat exchanger (1, 2) to the unit of target
    3, from there to the unit of target 10 and from there to the cycle
    closer: the keys are sorted as strings, and ["1_3"] sorts above
    ["1_10"], so the lower target comes first. With two cycles and
    [int_heatex = {1: [2]}] the construction raises [ValueError]: the
    hot-side chain of cycle 1 and the cold-side chain of cycle 2 both use
    the label [heatex1_2_to_int_heatex1_2]. *)
Theorem hot_chain_at_failing_inputs :
  returns (init 10 {[1 := VList [3; 10]]} ∅) (λ self,
    int_heatexs (components self) 1
    = ["Internal Heat Exchanger 1_3"; "Internal Heat Exchanger 1_10"]
    ∧ connections self !! "heatex1_2_to_int_heatex1_3"
      = Some (mkConnection
                (mkComponent HeatExchanger "Heat Exchanger 1_2") "out1"
                (mkComponent HeatExchanger "Internal Heat Exchanger 1_3") "in1"
                "heatex1_2_to_int_heatex1_3")
    ∧ connections self !! "int_heatex1_3_to_int_heatex1_10"
      = Some (mkConnection
                (mkComponent HeatExchanger "Internal Heat Exchanger 1_3") "out1"
                (mkComponent HeatExchanger "Internal Heat Exchanger 1_10") "in1"
                "int_heatex1_3_to_int_heatex1_10")
    ∧ connections self !! "int_heatex1_10_to_cc1"
      = Some (mkConnection
                (mkComponent HeatExchanger "Internal Heat Exchanger 1_10") "out1"
                (mkComponent CycleCloser "Cycle Closer 1") "in1"
                "int_heatex1_10_to_cc1"))
  ∧ init 2 {[1 := VList [2]]} ∅
    = ValueError (duplicate_label "heatex1_2_to_int_heatex1_2").
Proof. vm_compute. repeat split. Qed.

(** C2 (the code at the failing input). With ten cycles and
    [int_heatex = {1: 1, 10: 1}] the cold-side chain of cycle 1 consists of
    the units of the source cycles 1 and 10, and [generate_topology] calls
    [set_conn] for the connection between their cold sides under the label
    [int_heatex1_1_to_int_heatex10_1]. The hot-side chain of cycle 1,
    whose search for ["Internal Heat Exchanger 1"] also finds the unit of
    cycle 10, calls [set_conn] under the same label, and the construction
    raises the [ValueError] of [add_conns] for it. *)
Theorem cold_chain_at_failing_input :
  let ih : gmap Z heatex_value := {[1 := VInt 1; 10 := VInt 1]} in
  let comps := assign_all ∅ (component_entries 10 ih ∅) in
  cycle_int_heatex 10 ih 1 = [1; 10]
  ∧ int_heatexs comps 1
    = ["Internal Heat Exchanger 1_1"; "Internal Heat Exchanger 10_1"]
  ∧ filter (λ w, w_label w = "int_heatex1_1_to_int_heatex10_1")
      (topology_wirings 10 ih ∅ comps)
    = [ Wire "int_heatex1_1_to_int_heatex10_1"
          "Internal Heat Exchanger 1_1" "out2"
          "Internal Heat Exchanger 10_1" "in2";
        Wire "int_heatex1_1_to_int_heatex10_1"
          "Internal Heat Exchanger 1_1" "out1"
          "Internal Heat Exchanger 10_1" "in1" ]
  ∧ init 10 ih ∅
    = ValueError (duplicate_label "int_heatex1_1_to_int_heatex10_1").
Proof. vm_compute. repeat split. Qed.

(** C7 (the code at the failing input). On a one-cycle heat pump with one
    intercooler, right after construction the connection
    [comp1-1_to_intercooler1-1] has a source component whose label,
    [Compressor 1_1], is not a key of the component table (the key is
    [Compressor 1-1]); and after [delete_component('Compressor 1-1')] the
    compressor is gone from the component table while that connection is
    still in the connection table. *)
Theorem dangling_reference_at_failing_input :
  returns (init 1 ∅ {[1 := mkIntercooler 1 "HeatExchanger"]}) (λ self,
    connections self !! "comp1-1_to_intercooler1-1"
    = Some (mkConnection (mkComponent Compressor "Compressor 1_1") "out1"
              (mkComponent HeatExchanger "Intercooler 1-1") "in1"
              "comp1-1_to_intercooler1-1")
    ∧ components self !! "Compressor 1_1" = None
    ∧ components self !! "Compressor 1-1"
      = Some (mkComponent Compressor "Compressor 1_1")
    ∧ let self' := (delete_component "Compressor 1-1" self).1 in
      components self' !! "Compressor 1-1" = None
      ∧ components self' !! "Compressor 1_1" = None
      ∧ connections self' !! "comp1-1_to_intercooler1-1"
        = Some (mkConnection (mkComponent Compressor "Compressor 1_1") "out1"
                  (mkComponent HeatExchanger "Intercooler 1-1") "in1"
                  "comp1-1_to_intercooler1-1")).
Proof. vm_compute. repeat split. Qed.

(** ** C4 and C5: the counterexamples *)

(** C4, counterexample. Two cycles, no internal heat exchanger, no
    intercooler: 15 components and 17 connections, not 16. *)
Lemma two_cycles_counts :
  returns (init 2 ∅ ∅) (λ self,
    size (components self) = 15%nat
    ∧ size (connections self) = 17%nat
    ∧ size (connections self) ≠ (size (components self) + 1)%nat).
Proof. vm_compute. repeat split. discriminate. Qed.

(** C5, counterexample. One cycle: an [intercooler] entry for cycle 5, an
    [int_heatex] entry for cycle 5 and an [int_heatex] target 5 are all
    accepted; the build succeeds and the component table is not empty. *)
Lemma out_of_range_accepted :
  returns (init 1 ∅ {[5 := mkIntercooler 1 "HeatExchanger"]}) (λ self,
    size (components self) = 11%nat)
  ∧ returns (init 1 {[5 := VInt 1]} ∅) (λ self,
      size (components self) = 11%nat)
  ∧ returns (init 1 {[1 := VInt 5]} ∅) (λ self,
      components self !! "Internal Heat Exchanger 1_5"
      = Some (mkComponent HeatExchanger "Internal Heat Exchanger 1_5")).
Proof. vm_compute. repeat split. Qed.

(** ** C3 and C10: intercooled cycles *)

Lemma returns_impl {A} (r : result A) (P Q : A → Prop) :
  returns r P → (∀ a, P a → Q a) → returns r Q.
Proof. destruct r; simpl; auto. Qed.





(** ** C5: cycle indices outside [1, N] *)

(** C5 (as amended): no range check is made. An entry of [int_heatex] or
    of [intercooler] whose key is not a cycle index in [1, N] is ignored:
    the construction ends exactly as it does for the configuration without
    these entries, with the same component table, the same connection table
    and the same calls on the network, or with the same exception. *)
Theorem out_of_range_keys_ignored N ih ic :
  same_outcome (init N ih ic) (init N (in_range N ih) (in_range N ic)).
Proof.
  apply init_agree; intros c Hc; by rewrite lookup_in_range.
Qed.

(** ** C4: the sizes of the tables *)

(** C4 (as amended): for every N ≥ 1, the construction with no internal
    heat exchanger and no intercooler succeeds with exactly
    7 + 2N + N + (N-1) + 1 = 4N + 7 components and exactly 5N + 7
    connections, which is the number of components plus N. *)
Theorem plain_heat_pump_counts N :
  1 ≤ N →
  returns (init N ∅ ∅) (λ self,
    size (components self) = Z.to_nat (7 + 2 * N + N + (N - 1) + 1)
    ∧ size (connections self) = Z.to_nat (5 * N + 7)
    ∧ size (connections self) = (size (components self) + Z.to_nat N)%nat).
Proof.
  intros HN. destruct (plain_sizes N HN) as (Hcomps & Hconns).
  rewrite (init_returns N ∅ ∅
             (well_formed_buildable N ∅ (well_formed_empty N HN))
             (wiring_labels_NoDup N HN)).
  cbn [returns components connections]. rewrite Hcomps, Hconns.
  split; [f_equal; lia|]. split; [done|]. lia.
Qed.

Lemma plain_heat_pump_counts_witness :
  1 ≤ 3
  ∧ returns (init 3 ∅ ∅) (λ self,
      size (components self) = 19%nat ∧ size (connections self) = 22%nat).
Proof.
  assert (H3 : 1 ≤ 3) by lia. split; [exact H3|].
  eapply returns_impl; [exact (plain_heat_pump_counts 3 H3)|].
  intros self (Hcomps & Hconns & _). split; [exact Hcomps|exact Hconns].
Defined.

(** * Further properties of the code *)

(** ** The constructor *)

(** X1: the constructor returns exactly for the configurations that are
    buildable (at least one cycle, no negative number of intercoolers in a
    cycle, and an intercooler class that the factory knows wherever at
    least one intercooler is asked for) and whose [set_conn] calls have
    pairwise different labels, so that [add_conns] accepts them all. *)
Theorem init_returns_iff N ih ic :
  (∃ self, init N ih ic = Ok self)
  ↔ buildable N ic ∧ distinct_labels N ih ic.
Proof.
  split.
  - intros [self Hrun]. by apply (init_returns_inv N ih ic self).
  - intros [Hb Hlabels]. eexists. by apply init_returns.
Qed.

(** X2: with [nr_cycles] below one the loops over the cycles make no
    pass, so no valve is created, and the first [set_conn] call of
    [generate_topology] raises [KeyError('Valve 1')], whatever the two
    dictionaries hold. *)
Theorem init_without_cycles N ih ic :
  N ≤ 0 → init N ih ic = KeyError "Valve 1".
Proof.
  intros HN. unfold init, generate_topology, generate_components.
  cbn [nr_cycles int_heatex intercooler components connections nw].
  assert (Hvalve : assign_all ∅ (component_entries N ih ic) !! "Valve 1"
                   = None).
  { apply lookup_components_None. intros comp Hfe.
    inv_entry Hfe; label_eq; lia. }
  unfold topology_wirings, fixed_wirings. cbn [app set_conns].
  unfold set_conn_w at 1, set_conn, store_connection.
  cbn [w_comp_out components]. by rewrite Hvalve.
Qed.

Lemma init_without_cycles_witness :
  0 ≤ 0 ∧ init 0 ∅ ∅ = KeyError "Valve 1".
Proof.
  assert (H0 : 0 ≤ 0) by lia. split; [exact H0|].
  exact (init_without_cycles 0 ∅ ∅ H0).
Defined.

(** X3: the construction depends on the [int_heatex] dictionary only
    through the pairs (source cycle in [1, N], target cycle) that it
    names: the order and the repetitions in a list of targets do not
    matter, and an integer counts like the list that holds it. Two such
    dictionaries give the same component table, the same connection table
    and the same calls on the network, or the same exception. *)
Theorem int_heatex_as_relation N ih ih' ic :
  (∀ s t, 1 ≤ s ≤ N → has_target ih s t ↔ has_target ih' s t) →
  same_outcome (init N ih ic) (init N ih' ic).
Proof. apply init_same_targets. Qed.

Lemma int_heatex_as_relation_witness :
  let ih := {[ 1 := VInt 1 ]} : gmap Z heatex_value in
  let ih' := {[ 1 := VList [1; 1] ]} : gmap Z heatex_value in
  (∀ s t, 1 ≤ s ≤ 1 → has_target ih s t ↔ has_target ih' s t)
  ∧ same_outcome (init 1 ih ∅) (init 1 ih' ∅).
Proof.
  intros ih ih'.
  assert (Hih : ∀ s t, 1 ≤ s ≤ 1 → has_target ih s t ↔ has_target ih' s t).
  { intros s t Hs. assert (s = 1) as -> by lia. unfold has_target. split.
    - intros [H|(ts & H & _)]; vm_compute in H; [|discriminate H].
      injection H as <-. right. exists [1; 1]. split; [reflexivity|].
      apply elem_of_cons. left. reflexivity.
    - intros [H|(ts & H & Hin)]; vm_compute in H; [discriminate H|].
      injection H as <-. left.
      assert (t = 1) as ->; [|reflexivity].
      apply elem_of_cons in Hin as [->|Hin]; [reflexivity|].
      apply list_elem_of_singleton in Hin. exact Hin. }
  split; [exact Hih|]. exact (int_heatex_as_relation 1 ih ih' ∅ Hih).
Defined.

(** ** The component table *)

(** X4: after [generate_components] on an empty table, the table holds
    under a key exactly the components that some assignment of the method
    stored there: no assignment is replaced by a later one that stores a
    component of another class or label. *)
Theorem component_table_exact N ih ic key comp :
  components (generate_components (mkHeatpump N ih ic ∅ ∅ [])) !! key
  = Some comp
  ↔ (key, comp) ∈ component_entries N ih ic.
Proof.
  unfold generate_components. cbn [components nr_cycles int_heatex intercooler].
  rewrite lookup_components_iff. symmetry. apply factory_entry_iff.
Qed.

(** X5: every component is stored under its own label, with one
    exception: the compressor of stage [i] of a cycle [c] that has an
    [intercooler] entry, stored under [Compressor c-i] with the label
    [Compressor c_i]. *)
Theorem component_label_is_key N ih ic key comp :
  components (generate_components (mkHeatpump N ih ic ∅ ∅ [])) !! key
  = Some comp →
  label comp = key
  ∨ ∃ c e i,
      1 ≤ c ≤ N ∧ ic !! c = Some e ∧ 1 ≤ i ≤ amount e + 1
      ∧ key = stage_compressor_key c i ∧ comp = stage_compressor c i.
Proof.
  unfold generate_components. cbn [components nr_cycles int_heatex intercooler].
  intros Hkey.
  exact (factory_entry_label N ih ic key comp
           (lookup_components_entry N ih ic key comp Hkey)).
Qed.

Lemma component_label_is_key_witness :
  let ic := {[1 := mkIntercooler 1 "HeatExchanger"]}
            : gmap Z intercooler_value in
  components (generate_components (mkHeatpump 1 ∅ ic ∅ ∅ []))
    !! "Compressor 1-2" = Some (mkComponent Compressor "Compressor 1_2")
  ∧ ("Compressor 1_2" = "Compressor 1-2"
     ∨ ∃ c e i,
         1 ≤ c ≤ 1 ∧ ic !! c = Some e ∧ 1 ≤ i ≤ amount e + 1
         ∧ "Compressor 1-2" = stage_compressor_key c i
         ∧ mkComponent Compressor "Compressor 1_2" = stage_compressor c i).
Proof.
  intros ic.
  assert (Hkey : components (generate_components (mkHeatpump 1 ∅ ic ∅ ∅ []))
                   !! "Compressor 1-2"
                 = Some (mkComponent Compressor "Compressor 1_2"))
    by (vm_compute; reflexivity).
  split; [exact Hkey|].
  exact (component_label_is_key 1 ∅ ic "Compressor 1-2" _ Hkey).
Defined.

(** X6: no two entries of the component table carry the same label, also
    where a label differs from its key. *)
Theorem component_labels_distinct N ih ic key key' comp comp' :
  components (generate_components (mkHeatpump N ih ic ∅ ∅ [])) !! key
  = Some comp →
  components (generate_components (mkHeatpump N ih ic ∅ ∅ [])) !! key'
  = Some comp' →
  label comp = label comp' → key = key'.
Proof.
  unfold generate_components. cbn [components nr_cycles int_heatex intercooler].
  apply component_labels_unique.
Qed.

Lemma component_labels_distinct_witness :
  let self := generate_components (mkHeatpump 2 ∅ ∅ ∅ ∅ []) in
  components self !! "Valve 2" = Some (mkComponent Valve "Valve 2")
  ∧ label (mkComponent Valve "Valve 2") = label (mkComponent Valve "Valve 2")
  ∧ "Valve 2" = "Valve 2".
Proof.
  intros self.
  assert (Hkey : components self !! "Valve 2"
                 = Some (mkComponent Valve "Valve 2"))
    by (vm_compute; reflexivity).
  assert (Hl : label (mkComponent Valve "Valve 2")
               = label (mkComponent Valve "Valve 2")) by reflexivity.
  split; [exact Hkey|]. split; [exact Hl|].
  exact (component_labels_distinct 2 ∅ ∅ "Valve 2" "Valve 2" _ _
           Hkey Hkey Hl).
Defined.

(** ** The connection table after the construction *)

(** X7: in a buildable configuration whose [set_conn] calls have pairwise
    different labels the constructor returns an object
    that keeps the configuration and in which every stored connection
    carries its key as label, joins two component objects of the component
    table and was handed to the network by [add_conns]; the network
    received nothing but [add_conns] calls. *)
Theorem built_connections_registered N ih ic :
  buildable N ic → distinct_labels N ih ic →
  returns (init N ih ic) (λ self,
    nr_cycles self = N ∧ int_heatex self = ih ∧ intercooler self = ic
    ∧ (∀ l c, connections self !! l = Some c →
         conn_label c = l
         ∧ add_conns c ∈ nw self
         ∧ ∃ k_out k_in,
             components self !! k_out = Some (source c)
             ∧ components self !! k_in = Some (target c))
    ∧ Forall (λ call, ∃ c, call = add_conns c) (nw self)).
Proof.
  intros Hb Hlabels. rewrite (init_returns N ih ic Hb Hlabels).
  cbn [returns nr_cycles int_heatex intercooler components connections nw].
  split; [done|]. split; [done|]. split; [done|]. split.
  - intros l c Hl.
    destruct (stored_connection_registered N ih ic l c Hl) as [Hlabel Hreg].
    split; [done|]. split; [done|].
    destruct (built_connection_objects N ih ic l c Hb Hl)
      as (w & _ & _ & _ & Hout & Hin).
    by exists (w_comp_out w), (w_comp_in w).
  - apply Forall_fmap, Forall_forall. intros w _. by eexists.
Qed.

Lemma built_connections_registered_witness :
  buildable 1 ∅ ∧ distinct_labels 1 {[ 1 := VInt 1 ]} ∅
  ∧ returns (init 1 {[ 1 := VInt 1 ]} ∅) (λ self, nr_cycles self = 1).
Proof.
  assert (Hb : buildable 1 ∅).
  { split; [lia|]. intros c e Hc He. vm_compute in He. discriminate He. }
  assert (Hlabels : distinct_labels 1 {[ 1 := VInt 1 ]} ∅)
    by (apply (bool_decide_unpack _); vm_compute; exact I).
  split; [exact Hb|]. split; [exact Hlabels|].
  eapply returns_impl;
    [exact (built_connections_registered 1 {[ 1 := VInt 1 ]} ∅ Hb Hlabels)|].
  intros self (HN & _). exact HN.
Defined.

(** X8: in a well-formed configuration whose [set_conn] calls have
    pairwise different labels, the object that the constructor returns
    has the labels of the two components of every connection among
    the keys of the component table exactly when no cycle has an
    [intercooler] entry. *)
Theorem construction_intact_iff N ih ic :
  well_formed N ic → distinct_labels N ih ic →
  returns (init N ih ic) (λ self,
    intact self ↔ ∀ c, 1 ≤ c ≤ N → ic !! c = None).
Proof.
  intros Hwf Hlabels.
  rewrite (init_returns N ih ic (well_formed_buildable N ic Hwf) Hlabels).
  cbn [returns]. by apply built_intact_iff.
Qed.

Lemma construction_intact_iff_witness :
  well_formed 2 ∅ ∧ distinct_labels 2 {[ 2 := VInt 1 ]} ∅
  ∧ returns (init 2 {[ 2 := VInt 1 ]} ∅) intact.
Proof.
  assert (Hwf : well_formed 2 ∅).
  { split; [lia|]. intros c e Hc He. vm_compute in He. discriminate He. }
  assert (Hlabels : distinct_labels 2 {[ 2 := VInt 1 ]} ∅)
    by (apply (bool_decide_unpack _); vm_compute; exact I).
  split; [exact Hwf|]. split; [exact Hlabels|].
  eapply returns_impl;
    [exact (construction_intact_iff 2 {[ 2 := VInt 1 ]} ∅ Hwf Hlabels)|].
  intros self [_ Hintact]. apply Hintact. intros c Hc. reflexivity.
Defined.

(** X9: in a buildable configuration whose [set_conn] calls have pairwise
    different labels, with or without internal heat exchangers, the
    connections of the skeleton are stored: for each of the eight
    [set_conn] calls outside the loop and, for every cycle, the call from
    the cycle closer to the valve and (above cycle 1) the call from the
    valve to the heat exchanger below, the connection table holds under
    the label of the call a connection with that label between the ports
    named and between components that carry the given keys as labels. *)
Theorem skeleton_connections N ih ic :
  buildable N ic → distinct_labels N ih ic →
  returns (init N ih ic) (λ self,
    ∀ w, w ∈ skeleton_wirings N →
      ∃ c, connections self !! w_label w = Some c
           ∧ conn_label c = w_label w
           ∧ label (source c) = w_comp_out w ∧ source_id c = w_outlet w
           ∧ label (target c) = w_comp_in w ∧ target_id c = w_inlet w).
Proof.
  intros Hb Hlabels. rewrite (init_returns N ih ic Hb Hlabels).
  cbn [returns connections]. intros w Hw. by apply skeleton_stored.
Qed.

Lemma skeleton_connections_witness :
  let ih := {[ 2 := VList [2; 1] ]} : gmap Z heatex_value in
  buildable 2 ∅ ∧ distinct_labels 2 ih ∅
  ∧ returns (init 2 ih ∅) (λ self,
      ∃ c, connections self !! "cc2_to_valve2" = Some c
           ∧ label (source c) = "Cycle Closer 2"
           ∧ label (target c) = "Valve 2").
Proof.
  intros ih.
  assert (Hb : buildable 2 ∅).
  { split; [lia|]. intros c e Hc He. vm_compute in He. discriminate He. }
  assert (Hlabels : distinct_labels 2 ih ∅)
    by (apply (bool_decide_unpack _); vm_compute; exact I).
  split; [exact Hb|]. split; [exact Hlabels|].
  eapply returns_impl; [exact (skeleton_connections 2 ih ∅ Hb Hlabels)|].
  intros self Hall.
  destruct (Hall (Wire "cc2_to_valve2" "Cycle Closer 2" "out1"
                    "Valve 2" "in1"))
    as (c & Hc & _ & Hsrc & _ & Htgt & _).
  { apply (bool_decide_unpack _). vm_compute. reflexivity. }
  exists c. split; [exact Hc|]. split; [exact Hsrc|exact Htgt].
Defined.

(** X10: in a buildable configuration without internal heat exchangers no
    [set_conn] call of [generate_topology] is overwritten: every
    connection handed to the network is the one that the connection table
    holds under its label. *)
Theorem no_call_overwritten N ic :
  buildable N ic →
  returns (init N ∅ ic) (λ self,
    ∀ call, call ∈ nw self →
      ∃ c, call = add_conns c ∧ connections self !! conn_label c = Some c).
Proof.
  intros Hb. rewrite (init_returns N ∅ ic Hb (distinct_labels_none N ic Hb)).
  cbn [returns connections nw].
  intros call (w & -> & Hw)%list_elem_of_fmap. eexists. split; [done|].
  by apply (built_call_stored N ic Hb w).
Qed.

Lemma no_call_overwritten_witness :
  let ic := {[1 := mkIntercooler 1 "HeatExchanger"]}
            : gmap Z intercooler_value in
  buildable 1 ic
  ∧ returns (init 1 ∅ ic) (λ self,
      ∀ call, call ∈ nw self →
        ∃ c, call = add_conns c ∧ connections self !! conn_label c = Some c).
Proof.
  intros ic.
  assert (Hb : buildable 1 ic).
  { split; [lia|]. intros c e Hc He. assert (c = 1) as -> by lia.
    vm_compute in He. injection He as <-. split; [simpl; lia|by left]. }
  split; [exact Hb|]. exact (no_call_overwritten 1 ic Hb).
Defined.

(** X11: in a buildable configuration without internal heat exchangers
    every outlet of a component feeds at most one stored connection and
    every inlet is fed by at most one, for any number of cycles and any
    intercoolers. *)
Theorem ports_used_once N ic :
  buildable N ic →
  returns (init N ∅ ic) (λ self,
    ∀ l l' c c',
      connections self !! l = Some c → connections self !! l' = Some c' →
      label (source c) = label (source c') ∧ source_id c = source_id c'
      ∨ label (target c) = label (target c') ∧ target_id c = target_id c' →
      l = l').
Proof.
  intros Hb. rewrite (init_returns N ∅ ic Hb (distinct_labels_none N ic Hb)).
  cbn [returns connections]. intros l l' c c'. by apply built_port_unique.
Qed.

Lemma ports_used_once_witness :
  let ic := {[2 := mkIntercooler 2 "HeatExchangerSimple"]}
            : gmap Z intercooler_value in
  buildable 2 ic
  ∧ returns (init 2 ∅ ic) (λ self,
      ∀ l l' c c',
        connections self !! l = Some c → connections self !! l' = Some c' →
        label (source c) = label (source c') ∧ source_id c = source_id c'
        ∨ label (target c) = label (target c') ∧ target_id c = target_id c' →
        l = l').
Proof.
  intros ic.
  assert (Hb : buildable 2 ic).
  { split; [lia|]. intros c e Hc He.
    assert (c = 1 ∨ c = 2) as [-> | ->] by lia; vm_compute in He;
      [discriminate He|].
    injection He as <-. split; [simpl; lia|by right]. }
  split; [exact Hb|]. exact (ports_used_once 2 ic Hb).
Defined.

(** ** The chains of a cycle, call by call *)

(** X12: the part of a key of an internal heat exchanger that the
    hot-side chain puts into the connection labels,
    [key.split(' ')[-1]], is the pair of cycle numbers [c_t] of the key
    [Internal Heat Exchanger c_t]. *)
Theorem idx_int_heatex_key c t :
  idx ("Internal Heat Exchanger " +:+ Py.str c +:+ "_" +:+ Py.str t)
  = Py.str c +:+ "_" +:+ Py.str t.
Proof.
  unfold idx. simpl.
  rewrite (split_no_sep " " (Py.str c +:+ String "_" (Py.str t))); [done|].
  rewrite occurs_app. simpl. by rewrite !occurs_str_any.
Qed.

(** X13: the [set_conn] calls of the cold-side chain of cycle [c]. The
    chain passes the source cycles [s] in [1, N] whose [int_heatex] entry
    names [c], in ascending order and each once. It makes one call per
    unit: into [in2] of [Internal Heat Exchanger s_c], from [out2] of the
    unit passed before or, for the first unit, of the evaporator (cycle 1)
    or of the heat exchanger below. The call that feeds the first
    compressor of the cycle takes [out2] of the last unit passed, or of
    the evaporator or the heat exchanger below when there is none. *)
Theorem cold_side_calls N ih ic c :
  let units := cycle_int_heatex N ih c in
  let chain := cold_chain c None units in
  (∀ s, s ∈ units ↔ 1 ≤ s ≤ N ∧ targets ih c s = true)
  ∧ StronglySorted Z.lt units
  ∧ length chain.1 = length units
  ∧ (∀ k s, units !! k = Some s →
       ∃ w, chain.1 !! k = Some w
            ∧ w_comp_out w
              = cold_upstream c (match k with
                                 | O => None
                                 | S k' => units !! k'
                                 end)
            ∧ w_outlet w = "out2"
            ∧ w_comp_in w
              = "Internal Heat Exchanger " +:+ Py.str s +:+ "_" +:+ Py.str c
            ∧ w_inlet w = "in2")
  ∧ chain.2 = last units
  ∧ ∃ w ws,
      compression_wirings N ic c chain.2 = w :: ws
      ∧ w_comp_out w = cold_upstream c (last units)
      ∧ w_outlet w = "out2"
      ∧ w_comp_in w
        = match ic !! c with
          | Some _ => "Compressor " +:+ Py.str c +:+ "-1"
          | None => "Compressor " +:+ Py.str c
          end
      ∧ w_inlet w = "in1".
Proof.
  intros units chain.
  assert (Hunits : Forall (λ s, s ≠ 0) units).
  { apply Forall_forall. intros s [Hs _]%elem_of_cycle_int_heatex. lia. }
  destruct (cold_chain_calls c units None Hunits ltac:(done))
    as (Hlen & Hfinal & Hcalls).
  assert (Hlast : chain.2 = last units).
  { unfold chain. rewrite Hfinal. by destruct (last units). }
  split; [apply elem_of_cycle_int_heatex|].
  split; [apply cycle_int_heatex_sorted|].
  split; [done|]. split; [done|]. split; [done|].
  rewrite Hlast. apply compression_feed_call.
  intros Hzero. apply last_Some_elem_of in Hzero.
  rewrite Forall_forall in Hunits. by apply (Hunits 0).
Qed.

(** X14: the [set_conn] calls of the hot-side chain of cycle [c], for any
    component table. The chain passes the keys of the table that contain
    [Internal Heat Exchanger c] as a substring, each once, in descending
    order of the strings. It makes one call per key: into [in1] of that
    component, from [out1] of the component passed before or, for the
    first key, of the condenser (top cycle) or of the heat exchanger
    above. The last call of the cycle goes into [in1] of
    [Cycle Closer c], from [out1] of the last component passed, or of the
    condenser or the heat exchanger above when there is none. *)
Theorem hot_side_calls N (comps : gmap string Component) c :
  let keys := int_heatexs comps c in
  let chain := hot_chain N c "" keys in
  (∀ key, key ∈ keys
          ↔ is_Some (comps !! key)
            ∧ Py.contains ("Internal Heat Exchanger " +:+ Py.str c) key
              = true)
  ∧ NoDup keys
  ∧ Sorted Py.str_ge keys
  ∧ length chain.1 = length keys
  ∧ (∀ k key, keys !! k = Some key →
       ∃ w, chain.1 !! k = Some w
            ∧ w_comp_out w
              = hot_upstream N c (match k with
                                  | O => ""
                                  | S k' => default "" (keys !! k')
                                  end)
            ∧ w_outlet w = "out1"
            ∧ w_comp_in w = key
            ∧ w_inlet w = "in1")
  ∧ w_comp_out (closing_wiring N c chain.2)
    = hot_upstream N c (default "" (last keys))
  ∧ w_outlet (closing_wiring N c chain.2) = "out1"
  ∧ w_comp_in (closing_wiring N c chain.2) = "Cycle Closer " +:+ Py.str c
  ∧ w_inlet (closing_wiring N c chain.2) = "in1".
Proof.
  intros keys chain.
  destruct (hot_chain_calls N c keys "" (int_heatexs_nonempty comps c))
    as (Hlen & Hfinal & Hcalls).
  split; [apply elem_of_int_heatexs|].
  split; [apply int_heatexs_NoDup|].
  split; [apply (@Sorted_merge_sort _ Py.str_ge _ str_ge_total)|].
  split; [done|]. split; [done|].
  unfold chain. rewrite Hfinal. apply closing_wiring_call.
Qed.

(** ** [delete_component] *)

(** X15: when the component exists, [delete_component] prints one line
    for the component and then one line per removed connection, and calls
    [del_conns] on the network once per removed connection, in the order
    of the lines. The removed connections are the entries of the
    connection table whose source or target label is the given label,
    each once; the table shrinks by their number, and the configuration
    attributes stay. (Nothing is said about the order in which the loop
    visits the entries.) *)
Theorem delete_component_report self component :
  is_Some (components self !! component) →
  ∃ removed : list (string * Connection),
    NoDup removed.*1
    ∧ (∀ l c, (l, c) ∈ removed
              ↔ connections self !! l = Some c
                ∧ (label (source c) = component
                   ∨ label (target c) = component))
    ∧ nw (delete_component component self).1
      = nw self ++ ((λ item, del_conns item.2) <$> removed)
    ∧ (delete_component component self).2
      = ("Component " +:+ component +:+ " succesfully deleted from Heatpump.")
        :: ((λ item, "Connection " +:+ item.1
                       +:+ " succesfully deleted from Heatpump.")
              <$> removed)
    ∧ (size (connections (delete_component component self).1)
       + length removed)%nat
      = size (connections self)
    ∧ nr_cycles (delete_component component self).1 = nr_cycles self
    ∧ int_heatex (delete_component component self).1 = int_heatex self
    ∧ intercooler (delete_component component self).1 = intercooler self.
Proof.
  intros [comp Hcomp].
  destruct (delete_component_found_nw component self comp Hcomp)
    as (Hnw & Hout & HN & Hih & Hic).
  destruct (delete_component_found component self comp Hcomp) as [_ Hconns].
  exists (removed_connections component self).
  split.
  { eapply sublist_NoDup; [apply (NoDup_fst_map_to_list (connections self))|].
    apply fmap_sublist, sublist_filter. }
  split; [apply elem_of_removed_connections|].
  split; [done|]. split; [done|].
  split; [|done]. rewrite Hconns. apply removed_connections_size.
Qed.

Lemma delete_component_report_witness :
  let a := mkComponent Valve "Valve 1" in
  let b := mkComponent HeatExchangerSimple "Consumer" in
  let conn := mkConnection a "out1" b "in1" "a_to_b" in
  let self :=
    mkHeatpump 1 ∅ ∅ {[ "Valve 1" := a; "Consumer" := b ]}
      {[ "a_to_b" := conn ]} [add_conns conn] in
  is_Some (components self !! "Valve 1")
  ∧ ∃ removed : list (string * Connection),
      (∀ l c, (l, c) ∈ removed
              ↔ connections self !! l = Some c
                ∧ (label (source c) = "Valve 1"
                   ∨ label (target c) = "Valve 1"))
      ∧ nw (delete_component "Valve 1" self).1
        = nw self ++ ((λ item, del_conns item.2) <$> removed).
Proof.
  intros a b conn self.
  assert (Hin : is_Some (components self !! "Valve 1"))
    by (vm_compute; eexists; reflexivity).
  split; [exact Hin|].
  destruct (delete_component_report self "Valve 1" Hin)
    as (removed & _ & Hremoved & Hnw & _).
  exists removed. split; [exact Hremoved|exact Hnw].
Defined.

(** X16: if the labels of the two components of every connection are
    keys of the component table, they still are after any sequence of
    [delete_component] calls. *)
Theorem delete_components_intact labels self :
  intact self → intact (delete_components labels self).
Proof.
  intros Hint. induction labels as [|component labels IH] using rev_ind.
  - done.
  - rewrite delete_components_snoc. by apply delete_component_intact.
Qed.

Lemma delete_components_intact_witness :
  let a := mkComponent Valve "Valve 1" in
  let b := mkComponent HeatExchangerSimple "Consumer" in
  let self :=
    mkHeatpump 1 ∅ ∅ {[ "Valve 1" := a; "Consumer" := b ]}
      {[ "a_to_b" := mkConnection a "out1" b "in1" "a_to_b" ]}
      [add_conns (mkConnection a "out1" b "in1" "a_to_b")] in
  intact self ∧ intact (delete_components ["Consumer"; "Pump"] self).
Proof.
  intros a b self.
  assert (Hint : intact self) by (apply (bool_decide_unpack _); vm_compute; reflexivity).
  split; [exact Hint|].
  exact (delete_components_intact ["Consumer"; "Pump"] self Hint).
Defined.

(** X17: two [delete_component] calls leave the same component table and
    the same connection table in either order. *)
Theorem delete_component_commutes a b self :
  components (delete_component a (delete_component b self).1).1
  = components (delete_component b (delete_component a self).1).1
  ∧ connections (delete_component a (delete_component b self).1).1
    = connections (delete_component b (delete_component a self).1).1.
Proof.
  destruct (delete_component_tables a self) as [Hca Hna].
  destruct (delete_component_tables b self) as [Hcb Hnb].
  destruct (delete_component_tables a (delete_component b self).1)
    as [Hcab Hnab].
  destruct (delete_component_tables b (delete_component a self).1)
    as [Hcba Hnba].
  rewrite Hcab, Hcba, Hca, Hcb. split; [apply delete_delete|].
  rewrite Hnab, Hnba, Hca, Hcb, Hna, Hnb.
  destruct (decide (a = b)) as [->|Hab]; [done|].
  rewrite !lookup_delete_ne by done.
  repeat case_decide; try done;
    apply map_eq; intros l; apply option_eq; intros c;
    rewrite !map_lookup_filter_Some; tauto.
Qed.

(** X18: a second [delete_component] call with the same label changes
    nothing and prints the not-found line. *)
Theorem delete_component_twice component self :
  delete_component component (delete_component component self).1
  = ((delete_component component self).1,
     ["No component with label " +:+ component +:+ " found."]).
Proof.
  destruct (delete_component_tables component self) as [Hc _].
  unfold delete_component at 1. by rewrite Hc, lookup_delete_eq.
Qed.

(** ** The single-stage heat pump *)

(** X19: [HeatpumpSingleStage(param)] returns for both truth values of
    [param['int_heatex']]: every key with which [parametrize_components]
    indexes the component table exists. It parametrizes the two pumps,
    the compressor, the condenser, the evaporator and the consumer, and
    the internal heat exchanger when there is one; the object has 11
    components and 12 connections, or 12 and 14 with the internal heat
    exchanger, no busses and is not initialized. *)
Theorem single_stage_construction flag :
  returns (single_stage_init flag) (λ self,
    param_int_heatex self = flag
    ∧ initialized self = false
    ∧ busses self = []
    ∧ attr_label <$> attr_calls self
      = [ "Consumer Recirculation Pump"; "Heat Source Recirculation Pump";
          "Compressor 1"; "Condenser 1"; "Evaporator 1"; "Consumer" ]
        ++ (if flag then [ "Internal Heat Exchanger 1_1" ] else [])
    ∧ size (components (heatpump self)) = (if flag then 12 else 11)%nat
    ∧ size (connections (heatpump self)) = (if flag then 14 else 12)%nat).
Proof.
  eapply returns_decide. destruct flag; vm_compute; reflexivity.
Qed.

(** X20: on the object that [HeatpumpSingleStage(param)] returns, every
    key with which [init_simulation] and [design_simulation] index the
    connection table and the component table exists, for both truth
    values of [param['int_heatex']] and of [self.initialized]. *)
Theorem single_stage_lookups flag started :
  returns (single_stage_init flag) (λ self,
    Forall (λ l, is_Some (connections (heatpump self) !! l))
      (init_simulation_connections self
         ++ design_simulation_connections (set_initialized started self))
    ∧ Forall (λ key, is_Some (components (heatpump self) !! key))
        (init_simulation_components
           ++ design_simulation_components (set_initialized started self))).
Proof.
  eapply returns_decide. destruct flag, started; vm_compute; reflexivity.
Qed.
